(** * MachineLearningSets: csv files to numpy arrays

    A shallow embedding of [MachineLearningSets.py] (class
    [MachineLearningSet]) and the properties of its feature-encoding
    pipeline: schema classification, the class dictionary, z-score
    normalization, one-hot expansion and the NaN policy.

    Python objects are modelled as follows.
    - [float] values are IEEE-754 doubles ([PrimFloat.float]), as in numpy's
      [float64]; subtraction and division are the primitive operations.
    - A 2-d [np.ndarray] is a record of its column count and its rows.
    - The [features] dictionaries are association lists (declaration order
      fixes the column order); [norm] and csv rows are finite maps.
    - A cell of a csv record is a string, or [None] for a cell that a
      record shorter than the header does not have.
    - [classDict] maps field names to list objects.  The lists are changed
      in place and the caller may have put one list under several names,
      so the dictionary is a map from names to references and a store of
      the lists referred to.  [classDict] and [norm] are two dictionaries,
      not one object passed twice.
    - The integers of an integer array are 64-bit: arithmetic on them wraps
      around.
    - Memory is not modelled: an allocation succeeds whatever its size,
      where numpy raises [MemoryError], or [ValueError] for an array of
      2^63 bytes and more.
    - A method is a function from the object [Self] to an outcome and the
      object afterwards.  An exception aborts the method but keeps every
      mutation made so far, which is what the caller observes through the
      dictionaries it shares with the object. *)

From Stdlib Require Import ZArith String Ascii Floats.
From stdpp Require Import base option list strings gmap.

Local Open Scope string_scope.

(** * Values of csv cells *)

(** What [csv.DictReader] gives for a cell: its text, or [None] when the
    record has fewer cells than the header has names. *)
Inductive pyval : Type :=
| Str (text : string)
| PyNone.

Coercion Str : string >-> pyval.

#[global] Instance pyval_eq_dec : EqDecision pyval.
Proof. solve_decision. Defined.

(** * Exceptions and outcomes *)

Inductive ValueErrorCause : Type :=
| CouldNotConvert (text : string)   (* float(text) *)
| NotInList (x : pyval)             (* list.index(x) *)
| NotAVector (shape : list nat)     (* raised by _hot_encode *)
| NegativeDimensions                (* np.zeros with a negative size *)
| MaxOfEmpty                        (* max of an empty sequence *)
| ShapeMismatch.                    (* broadcasting or stacking *)

Inductive exn : Type :=
| AttributeError (attr : string)
| NameError (name : string)
| TypeError
| KeyError (key : string)
| IndexError
| OSError (file : string)
| UnicodeDecodeError              (* a file that is not text in the encoding *)
| CsvError                        (* csv.Error, raised by the reader *)
| ValueError (cause : ValueErrorCause).

Inductive outcome (A : Type) : Type :=
| Ok (a : A)
| Raise (e : exn).
Arguments Ok {A} a.
Arguments Raise {A} e.

#[global] Instance outcome_ret : MRet outcome := fun A a => Ok a.
#[global] Instance outcome_bind : MBind outcome := fun A B k m =>
  match m with
  | Ok a => k a
  | Raise e => Raise e
  end.

(** The error kinds the specification names, as far as an exception of the
    code corresponds to one. *)
Inductive ErrorKind : Type :=
| SchemaError | ParseError | ShapeError | UnsupportedError | IOError.

Definition error_kind (e : exn) : option ErrorKind :=
  match e with
  | ValueError (CouldNotConvert _) => Some ParseError
  | ValueError (NotAVector _) => Some ShapeError
  | OSError _ | UnicodeDecodeError | CsvError => Some IOError
  | _ => None
  end.

(** * Python dictionaries and lists *)

Definition dict (V : Type) : Type := list (string * V).

Definition keys {V} (d : dict V) : list string := d.*1.

(** [d[k]] *)
Fixpoint dict_get {V} (d : dict V) (k : string) : option V :=
  match d with
  | [] => None
  | (k', v) :: d' => if decide (k = k') then Some v else dict_get d' k
  end.

(** [l.index(x)]: position of the first element equal to [x]. *)
Fixpoint index {A} `{EqDecision A} (x : A) (l : list A) : option nat :=
  match l with
  | [] => None
  | y :: l' => if decide (x = y) then Some 0 else S <$> index x l'
  end.

(** [sub in s] on strings. *)
Fixpoint contains (sub s : string) : bool :=
  String.prefix sub s ||
  match s with
  | EmptyString => false
  | String _ s' => contains sub s'
  end.

Definition FEATURETYPES : list string :=
  ["continuous"; "class"; "ignore"; "target_continuous"; "target_class"].
Definition NANBEHAVIOUR : list string := ["ignore"; "delete_row"].

(** * numpy arrays *)

Record ndarray : Type := NDArray { ncols : nat; cells : list (list float) }.

Definition nrows (a : ndarray) : nat := length (cells a).

(** Every row has [ncols] entries. *)
Definition rectangular (a : ndarray) : Prop :=
  Forall (fun row => length row = ncols a) (cells a).

(** [a[r, c]] *)
Definition cell (a : ndarray) (r c : nat) : option float :=
  cells a !! r ≫= fun row => row !! c.

(** [a[r, c] = v] *)
Definition setcell (a : ndarray) (r c : nat) (v : float) : ndarray :=
  NDArray (ncols a) (alter (fun row => <[c := v]> row) r (cells a)).

Definition setitem (a : ndarray) (r c : nat) (v : float) : outcome ndarray :=
  if decide (r < nrows a ∧ c < ncols a)
  then Ok (setcell a r c v)
  else Raise IndexError.

(** [a[:, c]] *)
Definition getcol (a : ndarray) (c : nat) : outcome (list float) :=
  if decide (c < ncols a)
  then Ok ((fun row => default nan (row !! c)) <$> cells a)
  else Raise IndexError.

(** [a[:, c] = col] *)
Definition setcol (a : ndarray) (c : nat) (col : list float) : outcome ndarray :=
  if decide (c < ncols a)
  then if decide (length col = nrows a)
       then Ok (NDArray (ncols a) (zip_with (fun row v => <[c := v]> row) (cells a) col))
       else Raise (ValueError ShapeMismatch)
  else Raise IndexError.

(** [a[:, :c]] and [a[:, c:]] *)
Definition cols_before (a : ndarray) (c : nat) : ndarray :=
  NDArray (c `min` ncols a) (take c <$> cells a).
Definition cols_from (a : ndarray) (c : nat) : ndarray :=
  NDArray (ncols a - c) (drop c <$> cells a).

(** [np.hstack] *)
Definition hstack2 (a b : ndarray) : outcome ndarray :=
  if decide (nrows a = nrows b)
  then Ok (NDArray (ncols a + ncols b) (zip_with app (cells a) (cells b)))
  else Raise (ValueError ShapeMismatch).

Fixpoint hstack (l : list ndarray) : outcome ndarray :=
  match l with
  | [] => Raise (ValueError ShapeMismatch)
  | [a] => Ok a
  | a :: l' => b ← hstack l'; hstack2 a b
  end.

(** [np.zeros((n, m))] *)
Definition np_zeros (n : nat) (m : Z) : outcome ndarray :=
  if decide (m < 0)%Z then Raise (ValueError NegativeDimensions)
  else Ok (NDArray (Z.to_nat m) (replicate n (replicate (Z.to_nat m) zero))).

(** An index into an axis of length [m]; negative indices count from the
    end. *)
Definition axis_index (m : nat) (i : Z) : outcome nat :=
  if decide (0 ≤ i < Z.of_nat m)%Z then Ok (Z.to_nat i)
  else if decide (- Z.of_nat m ≤ i < 0)%Z then Ok (Z.to_nat (i + Z.of_nat m))
  else Raise IndexError.

Fixpoint axis_indices (m : nat) (l : list Z) : outcome (list nat) :=
  match l with
  | [] => Ok []
  | i :: l' => j ← axis_index m i; js ← axis_indices m l'; Ok (j :: js)
  end.

(** [v[range(len(i)), i] = x] *)
Definition setitem_rows (v : ndarray) (i : list Z) (x : float) : outcome ndarray :=
  js ← axis_indices (ncols v) i;
  Ok (NDArray (ncols v) (zip_with (fun row j => <[j := x]> row) (cells v) js)).

(** [col.reshape(n, 1)] *)
Definition reshape_column (col : list float) : ndarray :=
  NDArray 1 ((fun x => [x]) <$> col).

(** [astype(int)] on one double: truncation toward zero.  What is not a
    64-bit integer (NaN, infinities, magnitudes from 2^63 on) converts to
    -2^63. *)
Definition astype_int (x : float) : Z :=
  match Prim2SF x with
  | S754_zero _ => 0
  | S754_finite s m e =>
      let a := if decide (0 ≤ e)%Z then Z.shiftl (Z.pos m) e
               else Z.shiftr (Z.pos m) (- e) in
      if decide (a < 2 ^ 63)%Z then (if s then - a else a) else - 2 ^ 63
  | _ => - 2 ^ 63
  end%Z.

(** The double nearest to a list position. *)
Definition float_of_nat (n : nat) : float :=
  of_uint63 (Uint63.of_Z (Z.of_nat n)).

(** An integer ndarray: its shape and, for a vector, its entries. *)
Record int_ndarray : Type := IntArray { ishape : list nat; idata : list Z }.

Definition int_vector (l : list Z) : int_ndarray := IntArray [length l] l.

(** [max(i)] *)
Definition py_max (l : list Z) : outcome Z :=
  match l with
  | [] => Raise (ValueError MaxOfEmpty)
  | x :: l' => Ok (foldl Z.max x l')
  end.

(** numpy's 64-bit integers: a result out of range wraps around. *)
Definition wrap64 (z : Z) : Z := ((z + 2 ^ 63) `mod` 2 ^ 64 - 2 ^ 63)%Z.

(** * What the module takes from outside: the file system with the csv
    reader, the builtin [float], numpy's NaN-aware statistics and the
    contents of freshly allocated arrays. *)

(** [csv.DictReader(open(name))] read to the end: the records, each a
    dictionary from the names of the header to its cells, or the exception
    that ends the reading.  That is the exception of [open] for a file that
    cannot be opened ([OSError], or [ValueError] for a name that is no file
    name), and the exception of the reader for one that cannot be read to
    its end ([UnicodeDecodeError], [csv.Error]). *)
Inductive csv_file : Type :=
| Unreadable (e : exn)
| Records (rows : list (gmap string pyval)).

Record Env : Type := {
  (** The module reads the file twice, to count its records and to fill
      the matrices; it is the same file both times. *)
  open_csv : string -> csv_file;
  (** the builtin [float]; [None] when it raises [ValueError] *)
  builtin_float : string -> option float;
  np_nanmean : list float -> float;
  np_nanstd : list float -> float;
  (** cell [r, c] of the [k]-th array that [np.ndarray(shape)] allocates *)
  np_uninit : nat -> nat -> nat -> float;
}.

(** [np.ndarray((n, m))]: allocated, not initialized. *)
Definition np_ndarray (E : Env) (k n m : nat) : ndarray :=
  NDArray m ((fun r => (fun c => np_uninit E k r c) <$> seq 0 m) <$> seq 0 n).

(** * The class dictionary *)

(** A dictionary of lists with the identity of the lists: [refs] says
    which list object a name holds, [lists] what the list objects hold (a
    list object that [lists] does not mention is empty).  Two names with
    the same reference hold one list; what is appended under one of them
    is seen under the other. *)
Record ClassDict : Type := {
  refs : gmap string nat;
  lists : gmap nat (list pyval);
}.

#[global] Instance ClassDict_empty : Empty ClassDict :=
  {| refs := ∅; lists := ∅ |}.

(** The list object with reference [l]. *)
Definition list_at (cd : ClassDict) (l : nat) : list pyval :=
  default [] (lists cd !! l).

(** [cd[feature]] *)
#[global] Instance ClassDict_lookup : Lookup string (list pyval) ClassDict :=
  fun feature cd => list_at cd <$> refs cd !! feature.

(** A reference that no name of the dictionary holds. *)
Definition fresh_ref (cd : ClassDict) : nat :=
  S (max_list (map_to_list (refs cd)).*2).

(** [cd[feature] = []]: the name holds a new, empty list. *)
Definition new_list (feature : string) (cd : ClassDict) : ClassDict :=
  {| refs := <[feature := fresh_ref cd]> (refs cd);
     lists := <[fresh_ref cd := []]> (lists cd) |}.

(** [cd[feature].append(value)]: the list grows in place. *)
Definition append (feature : string) (value : pyval) (cd : ClassDict)
    : ClassDict :=
  match refs cd !! feature with
  | Some l => {| refs := refs cd;
                 lists := <[l := (list_at cd l ++ [value])%list]> (lists cd) |}
  | None => cd
  end.

(** Two names hold one list object. *)
Definition shares (cd : ClassDict) (f g : string) : Prop :=
  exists l, refs cd !! f = Some l ∧ refs cd !! g = Some l.

#[global] Instance shares_dec cd f g : Decision (shares cd f g).
Proof.
  unfold shares. destruct (refs cd !! f) as [l|].
  - destruct (decide (refs cd !! g = Some l)) as [Hg|Hg].
    + left. eauto.
    + right. intros (l' & Hl' & Hg'). congruence.
  - right. intros (l' & Hl' & _). discriminate.
Defined.

(** * The object *)

Record Stats : Type := { mean : float; std : float }.

Record Self : Type := {
  csvFileName : string;
  features : dict string;
  input_features : dict string;
  target_features : dict string;
  classDict : ClassDict;
  norm : gmap string Stats;
  input_set : option ndarray;              (* [None] is Python's None *)
  target_set : option ndarray;
  input_vector_length : option nat;        (* [None]: not assigned yet *)
  target_vector_length : option nat;
  nan_behaviour : option string;           (* [None]: not assigned yet *)
}.

Definition set_classDict (d : ClassDict) (s : Self) : Self :=
  {| csvFileName := csvFileName s; features := features s;
     input_features := input_features s; target_features := target_features s;
     classDict := d; norm := norm s;
     input_set := input_set s; target_set := target_set s;
     input_vector_length := input_vector_length s;
     target_vector_length := target_vector_length s;
     nan_behaviour := nan_behaviour s |}.

Definition set_norm (n : gmap string Stats) (s : Self) : Self :=
  {| csvFileName := csvFileName s; features := features s;
     input_features := input_features s; target_features := target_features s;
     classDict := classDict s; norm := n;
     input_set := input_set s; target_set := target_set s;
     input_vector_length := input_vector_length s;
     target_vector_length := target_vector_length s;
     nan_behaviour := nan_behaviour s |}.

Definition set_input_set (a : option ndarray) (s : Self) : Self :=
  {| csvFileName := csvFileName s; features := features s;
     input_features := input_features s; target_features := target_features s;
     classDict := classDict s; norm := norm s;
     input_set := a; target_set := target_set s;
     input_vector_length := input_vector_length s;
     target_vector_length := target_vector_length s;
     nan_behaviour := nan_behaviour s |}.

Definition set_target_set (a : option ndarray) (s : Self) : Self :=
  {| csvFileName := csvFileName s; features := features s;
     input_features := input_features s; target_features := target_features s;
     classDict := classDict s; norm := norm s;
     input_set := input_set s; target_set := a;
     input_vector_length := input_vector_length s;
     target_vector_length := target_vector_length s;
     nan_behaviour := nan_behaviour s |}.

Definition set_input_vector_length (n : nat) (s : Self) : Self :=
  {| csvFileName := csvFileName s; features := features s;
     input_features := input_features s; target_features := target_features s;
     classDict := classDict s; norm := norm s;
     input_set := input_set s; target_set := target_set s;
     input_vector_length := Some n;
     target_vector_length := target_vector_length s;
     nan_behaviour := nan_behaviour s |}.

Definition set_target_vector_length (n : nat) (s : Self) : Self :=
  {| csvFileName := csvFileName s; features := features s;
     input_features := input_features s; target_features := target_features s;
     classDict := classDict s; norm := norm s;
     input_set := input_set s; target_set := target_set s;
     input_vector_length := input_vector_length s;
     target_vector_length := Some n;
     nan_behaviour := nan_behaviour s |}.

Definition set_nan_behaviour (b : string) (s : Self) : Self :=
  {| csvFileName := csvFileName s; features := features s;
     input_features := input_features s; target_features := target_features s;
     classDict := classDict s; norm := norm s;
     input_set := input_set s; target_set := target_set s;
     input_vector_length := input_vector_length s;
     target_vector_length := target_vector_length s;
     nan_behaviour := Some b |}.

(** * Methods: state and exceptions *)

Definition M (A : Type) : Type := Self -> outcome A * Self.

#[global] Instance M_ret : MRet M := fun A a s => (Ok a, s).
#[global] Instance M_bind : MBind M := fun A B k m s =>
  match m s with
  | (Ok a, s') => k a s'
  | (Raise e, s') => (Raise e, s')
  end.

Definition raise {A} (e : exn) : M A := fun s => (Raise e, s).
Definition gets {A} (f : Self -> A) : M A := fun s => (Ok (f s), s).
Definition modify (f : Self -> Self) : M unit := fun s => (Ok tt, f s).
(** Run a computation without state inside a method. *)
Definition lift {A} (o : outcome A) : M A := fun s => (o, s).
(** Read something that may be missing. *)
Definition required {A} (o : option A) (e : exn) : M A :=
  match o with
  | Some a => mret a
  | None => raise e
  end.

(** [for x in l: body] *)
Fixpoint for_ {A} (l : list A) (body : A -> M unit) : M unit :=
  match l with
  | [] => mret tt
  | x :: l' => body x;; for_ l' body
  end.

(** A [for] loop that carries a local variable from one iteration to the
    next. *)
Fixpoint for_acc {A B} (l : list A) (acc : B) (body : B -> A -> M B) : M B :=
  match l with
  | [] => mret acc
  | x :: l' => acc' ← body acc x; for_acc l' acc' body
  end.

(** [enumerate(l)] *)
Definition enumerate {A} (l : list A) : list (nat * A) := zip (seq 0 (length l)) l.

(** [self.input_set] and [self.target_set] as arrays: subscripting [None]
    is a [TypeError]. *)
Definition the_input_set : M ndarray := a ← gets input_set; required a TypeError.
Definition the_target_set : M ndarray := a ← gets target_set; required a TypeError.

(** [l.index(x)] raises [ValueError] when [x] is not in [l]. *)
Definition list_index (x : string) (l : list string) : outcome nat :=
  match index x l with
  | Some i => Ok i
  | None => Raise (ValueError (NotInList x))
  end.

Definition list_index_value (x : pyval) (l : list pyval) : outcome nat :=
  match index x l with
  | Some i => Ok i
  | None => Raise (ValueError (NotInList x))
  end.

(** ** [_hot_encode] (a static method) *)

Definition _hot_encode (i : int_ndarray) (max_i : option Z) : outcome ndarray :=
  if decide (length (ishape i) ≠ 1) then Raise (ValueError (NotAVector (ishape i)))
  else
    max_i ← match max_i with
            | None => m ← py_max (idata i); Ok (wrap64 (m + 1))
            | Some m => Ok m
            end;
    v ← np_zeros (length (idata i)) max_i;
    v ← setitem_rows v (idata i) one;
    (* 2 classes can be represented by only one value: only the first
       column is used *)
    if decide (max_i ≤ 2)%Z
    then col ← getcol v 0; Ok (reshape_column col)
    else Ok v.

Section Methods.
Context (E : Env).

(** ** [_get_csv_rowcount] (a static method) *)

(** [csv.DictReader(open(name))], iterated to the end. *)
Definition read_csv (name : string) : M (list (gmap string pyval)) :=
  match open_csv E name with
  | Unreadable e => raise e
  | Records rows => mret rows
  end.

Definition _get_csv_rowcount (csvFileName : string) : M nat :=
  rows ← read_csv csvFileName;
  mret (length rows).

(** ** [_normalize] *)

Definition z_score (st : Stats) (x : float) : float := ((x - mean st) / std st)%float.

(** The body of the loop of [_normalize], lines 157-178, for one field of
    [self.features]. *)
Definition normalize_feature (feature : string) : M unit :=
  inf ← gets input_features;
  tf ← gets target_features;
  (* normalize input features *)
  if decide (dict_get inf feature = Some "continuous") then
    c ← lift (list_index feature (keys inf));
    nm ← gets norm;
    (if decide (nm !! feature = None) then
       a ← the_input_set;
       col ← lift (getcol a c);
       modify (set_norm (<[feature := {| mean := np_nanmean E col;
                                         std := np_nanstd E col |}]> nm))
     else mret tt);;
    a ← the_input_set;
    col ← lift (getcol a c);
    nm ← gets norm;
    st ← required (nm !! feature) (KeyError feature);
    a' ← lift (setcol a c (z_score st <$> col));
    modify (set_input_set (Some a'))
  (* normalize target features: lines 175-176 read [self.input_set] *)
  else if decide (dict_get tf feature = Some "target_continuous") then
    c ← lift (list_index feature (keys tf));
    nm ← gets norm;
    (if decide (nm !! feature = None) then
       a ← the_input_set;
       col ← lift (getcol a c);
       modify (set_norm (<[feature := {| mean := np_nanmean E col;
                                         std := np_nanstd E col |}]> nm))
     else mret tt);;
    b ← the_target_set;
    col ← lift (getcol b c);
    nm ← gets norm;
    st ← required (nm !! feature) (KeyError feature);
    b' ← lift (setcol b c (z_score st <$> col));
    modify (set_target_set (Some b'))
  else mret tt.

(** Lines 153-155 name [input_set], which is neither a local nor a global
    of the module: evaluating it raises [NameError]. *)
Definition _normalize : M unit :=
  nb ← gets nan_behaviour;
  nb ← required nb (AttributeError "nan_behaviour");
  if decide (nb = "delete_row") then raise (NameError "input_set")
  else
    feats ← gets features;
    for_ feats (fun '(feature, _) => normalize_feature feature).

(** ** [_encode_classes] *)

(** One of the two loops of [_encode_classes]: over the fields [fs] of kind
    [cls], on the matrix read with [get] and assigned with [set].  The
    local [c_offset] counts the columns added so far; an encoded block has
    at least one column, so [c_offset] never decreases. *)
Definition encode_loop (get : M ndarray) (set : option ndarray -> Self -> Self)
    (fs : dict string) (cls : string) : M unit :=
  for_acc fs 0 (fun c_offset '(feature, kind) =>
    if decide (kind = cls) then
      i ← lift (list_index feature (keys fs));
      let c := i + c_offset in
      cd ← gets classDict;
      classes ← required (cd !! feature) (KeyError feature);
      let classes_count := length classes in
      a ← get;
      col ← lift (getcol a c);
      encoded ← lift (_hot_encode (int_vector (astype_int <$> col))
                                  (Some (Z.of_nat classes_count)));
      a ← get;
      stacked ← lift (hstack [cols_before a c; encoded; cols_from a (c + 1)]);
      modify (set (Some stacked));;
      mret (c_offset + (ncols encoded - 1))
    else mret c_offset);;
  mret tt.

Definition _encode_classes : M unit :=
  inf ← gets input_features;
  encode_loop the_input_set set_input_set inf "class";;
  tf ← gets target_features;
  encode_loop the_target_set set_target_set tf "target_class".

(** ** [_construct_matrices] *)

(** Lines 103-108 and 113-118: enter the field and the value in the class
    dictionary unless already seen. *)
Definition classDict_add (feature : string) (value : pyval) : M unit :=
  cd ← gets classDict;
  (if decide (cd !! feature = None)
   then modify (set_classDict (new_list feature cd))
   else mret tt);;
  cd ← gets classDict;
  classes ← required (cd !! feature) (KeyError feature);
  if decide (value ∈ (classes : list pyval)) then mret tt
  else modify (set_classDict (append feature value cd)).

(** [self.classDict[feature].index(value)] *)
Definition classDict_index (feature : string) (value : pyval) : M nat :=
  cd ← gets classDict;
  classes ← required (cd !! feature) (KeyError feature);
  lift (list_index_value value classes).

(** The exception of [float(value)] when it raises: [ValueError] for a
    string, [TypeError] for [None]. *)
Definition float_error (value : pyval) : exn :=
  match value with
  | Str text => ValueError (CouldNotConvert text)
  | PyNone => TypeError
  end.

(** [float(value)] *)
Definition float_ (value : pyval) : M float :=
  match value with
  | Str text => required (builtin_float E text) (float_error value)
  | PyNone => raise (float_error value)
  end.

Definition input_set_setitem (r c : nat) (v : float) : M unit :=
  a ← the_input_set; a' ← lift (setitem a r c v); modify (set_input_set (Some a')).
Definition target_set_setitem (r c : nat) (v : float) : M unit :=
  b ← the_target_set; b' ← lift (setitem b r c v); modify (set_target_set (Some b')).

(** The body of the two nested loops: record [r] of the file, one field of
    [self.features]. *)
Definition fill_cell (r : nat) (row : gmap string pyval) (feature kind : string) : M unit :=
  match row !! feature with
  | None => mret tt   (* skip over features that are not in the file *)
  | Some value =>
      if decide (kind = "continuous") then
        inf ← gets input_features;
        c ← lift (list_index feature (keys inf));
        if decide (value = Str "") then input_set_setitem r c nan
        else x ← float_ value; input_set_setitem r c x
      else if decide (kind = "target_continuous") then
        tf ← gets target_features;
        c ← lift (list_index feature (keys tf));
        if decide (value = Str "") then target_set_setitem r c nan
        else x ← float_ value; target_set_setitem r c x
      else if decide (kind = "class") then
        classDict_add feature value;;
        inf ← gets input_features;
        c ← lift (list_index feature (keys inf));
        code ← classDict_index feature value;
        input_set_setitem r c (float_of_nat code)
      else if decide (kind = "target_class") then
        classDict_add feature value;;
        tf ← gets target_features;
        c ← lift (list_index feature (keys tf));
        code ← classDict_index feature value;
        target_set_setitem r c (float_of_nat code)
      else mret tt
  end.

(** Lines 70-120: count the records, allocate both matrices, fill them. *)
Definition fill_matrices : M unit :=
  name ← gets csvFileName;
  rowCount ← _get_csv_rowcount name;
  inf ← gets input_features;
  tf ← gets target_features;
  modify (set_input_set (Some (np_ndarray E 0 rowCount (length inf))));;
  modify (set_target_set (Some (np_ndarray E 1 rowCount (length tf))));;
  csvDict ← read_csv name;
  for_ (enumerate csvDict) (fun '(r, row) =>
    feats ← gets features;
    for_ feats (fun '(feature, kind) => fill_cell r row feature kind)).

Definition _construct_matrices : M unit :=
  fill_matrices;;
  _normalize;;
  _encode_classes.

(** ** [__init__] *)

Definition is_input (p : string * string) : Prop :=
  p.2 ≠ "ignore" ∧ contains "target" p.2 = false.
Definition is_target (p : string * string) : Prop :=
  p.2 ≠ "ignore" ∧ contains "target" p.2 = true.

(** Lines 53-60: the object before [_construct_matrices] runs. *)
Definition new_object (csvFileName : string) (features : dict string)
    (classDict : ClassDict) (norm : gmap string Stats) : Self :=
  {| csvFileName := csvFileName;
     features := filter (fun p => p.2 ≠ "ignore") features;
     input_features := filter is_input features;
     target_features := filter is_target features;
     classDict := classDict;
     norm := norm;
     input_set := None;
     target_set := None;
     input_vector_length := None;
     target_vector_length := None;
     nan_behaviour := None |}.

(** The constructor, run to its end or to the exception that leaves it.
    The object afterwards holds [classDict] and [norm] as the caller sees
    them, whether construction has returned or not. *)
Definition __init__ (csvFileName : string) (features : dict string)
    (classDict : ClassDict) (norm : gmap string Stats)
    (nan_behaviour : string) : outcome unit * Self :=
  (_construct_matrices;;
   a ← the_input_set;
   modify (set_input_vector_length (ncols a));;
   b ← the_target_set;
   modify (set_target_vector_length (ncols b));;
   modify (set_nan_behaviour nan_behaviour))
  (new_object csvFileName features classDict norm).

End Methods.

(** * A concrete environment for the examples *)

Module Example.

(** Plain decimal literals: an optional minus sign, digits, and an optional
    fraction.  The builtin [float] accepts more; on these literals it
    agrees with the quotient computed here (the numerator and the power of
    ten are exact doubles for short literals). *)
Definition digit (a : ascii) : option Z :=
  let n := Z.of_nat (nat_of_ascii a) in
  if decide (48 ≤ n ≤ 57)%Z then Some (n - 48)%Z else None.

Fixpoint digits (s : string) (acc : Z) (len : nat) : option (Z * nat * string) :=
  match s with
  | String a s' =>
      match digit a with
      | Some d => digits s' (10 * acc + d)%Z (S len)
      | None => Some (acc, len, s)
      end
  | EmptyString => Some (acc, len, s)
  end.

Definition unsigned_literal (s : string) : option float :=
  '(n, len, rest) ← digits s 0%Z 0;
  match rest with
  | EmptyString =>
      if decide (len = 0) then None else Some (of_uint63 (Uint63.of_Z n))
  | String "."%char frac =>
      '(m, flen, rest') ← digits frac n 0;
      if decide (rest' = EmptyString ∧ 0 < len + flen)
      then Some (of_uint63 (Uint63.of_Z m) / of_uint63 (Uint63.of_Z (10 ^ Z.of_nat flen)))%float
      else None
  | _ => None
  end.

Definition float_literal (s : string) : option float :=
  match s with
  | String "-"%char s' => opp <$> unsigned_literal s'
  | _ => unsigned_literal s
  end.

(** [np.nanmean] and [np.nanstd] with the sums taken from left to right,
    which is numpy's order for fewer than eight entries. *)
Definition not_nan (l : list float) : list float :=
  filter (fun x => is_nan x = false) l.
Definition fsum (l : list float) : float := foldl add zero l.
Definition count (l : list float) : float :=
  of_uint63 (Uint63.of_Z (Z.of_nat (length l))).
Definition nanmean (l : list float) : float :=
  (fsum (not_nan l) / count (not_nan l))%float.
Definition nanstd (l : list float) : float :=
  let avg := nanmean l in
  let sqr := (fun x => ((x - avg) * (x - avg))%float) <$> not_nan l in
  sqrt (fsum sqr / count (not_nan l))%float.

(** Fresh arrays hold 7.0 everywhere. *)
Definition env (files : string -> csv_file) : Env :=
  {| open_csv := files;
     builtin_float := float_literal;
     np_nanmean := nanmean;
     np_nanstd := nanstd;
     np_uninit := fun _ _ _ => 7%float |}.

(** A record with text in every cell, and one that ends early. *)
Definition record (l : list (string * string)) : gmap string pyval :=
  list_to_map (prod_map id Str <$> l).
Definition short_record (l : list (string * string)) (missing : list string)
    : gmap string pyval :=
  list_to_map ((prod_map id Str <$> l) ++ ((fun f => (f, PyNone)) <$> missing))%list.

(** The file system with one file, which holds [rows]. *)
Definition one_file (name : string) (rows : list (gmap string pyval))
    : string -> csv_file :=
  fun f => if decide (f = name) then Records rows else Unreadable (OSError f).

(** A class dictionary whose lists are distinct objects, numbered as the
    fill loop numbers them. *)
Definition class_dict (l : list (string * list string)) : ClassDict :=
  {| refs := list_to_map (zip (keys l) (seq 1 (length l)));
     lists := list_to_map (zip (seq 1 (length l))
                ((fun p : string * list string => Str <$> p.2) <$> l)) |}.

(** A training file with one field of every kind. *)
Definition schema : dict string :=
  [("id", "ignore"); ("a", "continuous"); ("c", "class");
   ("t", "target_continuous"); ("y", "target_class")].

Definition train : list (gmap string pyval) :=
  [record [("id", "1"); ("a", "1.0"); ("c", "x"); ("t", "10"); ("y", "n")];
   record [("id", "2"); ("a", "2.0"); ("c", "y"); ("t", "20"); ("y", "p")];
   record [("id", "3"); ("a", ""); ("c", "z"); ("t", "30"); ("y", "n")]].

Definition E_train : Env := env (one_file "train.csv" train).

(** The object when the matrices of the training file are filled. *)
Definition filled : Self :=
  {| csvFileName := "train.csv";
     features := [("a", "continuous"); ("c", "class");
                  ("t", "target_continuous"); ("y", "target_class")];
     input_features := [("a", "continuous"); ("c", "class")];
     target_features := [("t", "target_continuous"); ("y", "target_class")];
     classDict := class_dict [("c", ["x"; "y"; "z"]); ("y", ["n"; "p"])];
     norm := ∅;
     input_set := Some (NDArray 2 [[1; 0]; [2; 1]; [nan; 2]]%float);
     target_set := Some (NDArray 2 [[10; 0]; [20; 1]; [30; 0]]%float);
     input_vector_length := None;
     target_vector_length := None;
     nan_behaviour := None |}.

(** Statistics as a first dataset may have left them. *)
Definition supplied : gmap string Stats :=
  {[ "a" := {| mean := 1.5; std := 0.5 |};
     "t" := {| mean := 20; std := 10 |} ]}%float.

(** The object when the statistics are supplied and the policy is set. *)
Definition ready : Self := set_nan_behaviour "ignore" (set_norm supplied filled).

(** A file whose second record ends before the cell of field [t], and a
    dictionary in which the names [c] and [y] hold one list. *)
Definition short : list (gmap string pyval) :=
  [record [("a", "1.0"); ("t", "10")]; short_record [("a", "2.0")] ["t"]].
Definition aliased : ClassDict :=
  {| refs := {[ "c" := 1; "y" := 1 ]}; lists := {[ 1 := [Str "x"] ]} |}.

(** Two files with a cell that is not a number: in record 0 and field [a],
    and in record 1 and field [t]. *)
Definition two_fields : dict string :=
  [("a", "continuous"); ("t", "target_continuous")].
Definition bad_a : list (gmap string pyval) :=
  [record [("a", "abc"); ("t", "10")]; record [("a", "2.0"); ("t", "20")]].
Definition bad_t : list (gmap string pyval) :=
  [record [("a", "1.0"); ("t", "10")]; record [("a", "2.0"); ("t", "abc")]].

(** The scenario of the delete_row policy: three aligned rows, a NaN in
    the middle one. *)
Definition with_nan : Self :=
  {| csvFileName := "train.csv";
     features := [("a", "continuous"); ("b", "continuous");
                  ("t", "target_continuous")];
     input_features := [("a", "continuous"); ("b", "continuous")];
     target_features := [("t", "target_continuous")];
     classDict := ∅;
     norm := ∅;
     input_set := Some (NDArray 2 [[1; 2]; [nan; 3]; [4; 5]]%float);
     target_set := Some (NDArray 1 [[10]; [20]; [30]]%float);
     input_vector_length := None;
     target_vector_length := None;
     nan_behaviour := Some "delete_row" |}.

(** A continuous input field and a continuous target field, filled. *)
Definition two_columns : Self :=
  {| csvFileName := "train.csv";
     features := [("a", "continuous"); ("t", "target_continuous")];
     input_features := [("a", "continuous")];
     target_features := [("t", "target_continuous")];
     classDict := ∅;
     norm := ∅;
     input_set := Some (NDArray 1 [[1]; [2]]%float);
     target_set := Some (NDArray 1 [[10]; [20]]%float);
     input_vector_length := None;
     target_vector_length := None;
     nan_behaviour := Some "ignore" |}.

End Example.

(** * Reasoning about methods *)

(** [wp m Q s]: running [m] from [s] ends in an outcome and an object that
    satisfy [Q]. *)
Definition wp {A} (m : M A) (Q : outcome A -> Self -> Prop) (s : Self) : Prop :=
  Q (m s).1 (m s).2.


(** * Predicates used in the statements *)

(** The code of [value] under [feature]: its position in the field's
    list. *)
Definition code_of (d : ClassDict) (feature : string) (value : pyval)
    : option nat :=
  d !! feature ≫= index value.

(** [d'] extends [d]: every list of [d] is a prefix of the list that [d']
    has for the same field. *)
Definition dict_le (d d' : ClassDict) : Prop :=
  forall f vs, d !! f = Some vs -> exists ext, d' !! f = Some (vs ++ ext)%list.

(** What lines 103-108 make of the dictionary. *)
Definition dict_add (feature : string) (value : pyval) (d : ClassDict)
    : ClassDict :=
  let d1 := if decide (d !! feature = None) then new_list feature d else d in
  if decide (value ∈ (default [] (d1 !! feature) : list pyval)) then d1
  else append feature value d1.

(** The list a name holds when lines 103-108 have run. *)
Definition added (value : pyval) (classes : list pyval) : list pyval :=
  if decide (value ∈ classes) then classes else (classes ++ [value])%list.

(** Everything of the object that filling the matrices leaves alone, and
    the class dictionary, which it only extends. *)
Definition fill_frame (s0 s : Self) : Prop :=
  csvFileName s = csvFileName s0 ∧
  features s = features s0 ∧
  input_features s = input_features s0 ∧
  target_features s = target_features s0 ∧
  norm s = norm s0 ∧
  input_vector_length s = input_vector_length s0 ∧
  target_vector_length s = target_vector_length s0 ∧
  nan_behaviour s = nan_behaviour s0 ∧
  dict_le (classDict s0) (classDict s).

(** What the fill loop stores for a cell of a continuous field; [None]
    when [float] raises. *)
Definition stored_value (E : Env) (value : pyval) : option float :=
  match value with
  | Str text => if decide (text = "") then Some nan else builtin_float E text
  | PyNone => None
  end.

(** The exception that the cell of a field raises in the fill loop: that
    of [float] for a cell of a continuous field that is [None], or a
    string neither empty nor accepted by [float]. *)
Definition bad_cell (E : Env) (row : gmap string pyval) (p : string * string)
    : option exn :=
  match row !! p.1 with
  | Some value =>
      if decide ((p.2 = "continuous" ∨ p.2 = "target_continuous") ∧
                 stored_value E value = None)
      then Some (float_error value) else None
  | None => None
  end.

(** The exceptions of all such cells, in the order in which the file is
    read. *)
Definition bad_cells (E : Env) (feats : dict string)
    (rows : list (gmap string pyval)) : list exn :=
  flat_map (fun row => omap (bad_cell E row) feats) rows.

(** How reading and filling ends for a file name and the fields kept. *)
Definition fill_outcome (E : Env) (name : string) (feats : dict string)
    : outcome unit :=
  match open_csv E name with
  | Unreadable e => Raise e
  | Records rows =>
      match head (bad_cells E feats rows) with
      | Some e => Raise e
      | None => Ok tt
      end
  end.

(** The input and target fields are the ones [__init__] selects. *)
Definition classified (s : Self) : Prop :=
  input_features s = filter is_input (features s) ∧
  target_features s = filter is_target (features s).

(** Both matrices are allocated with [n] rows and one column per field. *)
Definition shaped (n : nat) (s : Self) : Prop :=
  (exists a, input_set s = Some a ∧ nrows a = n ∧
             ncols a = length (input_features s) ∧ rectangular a) ∧
  (exists b, target_set s = Some b ∧ nrows b = n ∧
             ncols b = length (target_features s) ∧ rectangular b).

(** What holds of the object while the matrices are filled. *)
Definition fill_inv (n : nat) (feats : dict string) (s : Self) : Prop :=
  features s = feats ∧ classified s ∧ shaped n s.

(** The outcome of one cell or one record of the fill loops. *)
Definition cell_outcome (bad : option exn) : outcome unit :=
  match bad with
  | Some e => Raise e
  | None => Ok tt
  end.

(** The matrix that holds the fields of kind [k], and the column of field
    [f] in it. *)
Definition matrix_of (k : string) (s : Self) : option ndarray :=
  if contains "target" k then target_set s else input_set s.
Definition column_of (k : string) (s : Self) (f : string) : option nat :=
  index f (keys (if contains "target" k then target_features s
                 else input_features s)).
Definition set_matrix_of (k : string) : option ndarray -> Self -> Self :=
  if contains "target" k then set_target_set else set_input_set.

(** [a[:, c] = g(a[:, c])] for a function [g] on cells. *)
Definition map_col (g : float -> float) (c : nat) (a : ndarray) : ndarray :=
  NDArray (ncols a) (alter g c <$> cells a).

(** The statistics [_normalize] uses for a field: the entry of [norm] when
    there is one, else those of the column [col]. *)
Definition stats_for (E : Env) (nm : gmap string Stats) (feature : string)
    (col : list float) : Stats :=
  match nm !! feature with
  | Some st => st
  | None => {| mean := np_nanmean E col; std := np_nanstd E col |}
  end.

(** Column [c] of a matrix; the cells when [c] is in range. *)
Definition column (a : ndarray) (c : nat) : list float :=
  (fun row => default nan (row !! c)) <$> cells a.

(** The object as filling leaves it: fields classified, keys distinct (the
    schema is a dictionary), both matrices allocated. *)
Definition prepared (n : nat) (s : Self) : Prop :=
  classified s ∧ NoDup (keys (features s)) ∧ shaped n s.

(** The fields of the object that fix the layout of the matrices. *)
Definition same_schema (s s' : Self) : Prop :=
  features s' = features s ∧ input_features s' = input_features s ∧
  target_features s' = target_features s.

(** Column [c] of [a'] is column [c] of [a] with [g] applied to every
    cell. *)
Definition col_mapped (g : float -> float) (c : nat) (a a' : ndarray) : Prop :=
  forall r, cell a' r c = g <$> cell a r c.

(** What the loop of [_normalize] keeps, whether it returns or raises. *)
Definition normalize_inv (n : nat) (s s' : Self) : Prop :=
  prepared n s' ∧ same_schema s s' ∧
  forall h st, norm s !! h = Some st -> norm s' !! h = Some st.


(** * One-hot blocks *)

(** The number of columns that replace the column of a field with [k]
    classes. *)
Definition block_width (k : nat) : nat := if decide (k ≤ 2)%nat then 1 else k.

Definition indicator (j : Z) (i : nat) : float :=
  if decide (Z.of_nat i = j) then one else zero.

(** The block of a code among [k] classes.  A code is used as an index, so
    a negative one counts from the end; a code [0 <= code < k] indexes
    itself. *)
Definition one_hot (k : nat) (code : Z) : list float :=
  let j := (code `mod` Z.of_nat k)%Z in
  if decide (k ≤ 2)%nat then [indicator j 0] else indicator j <$> seq 0 k.

Definition in_axis (k : nat) (code : Z) : Prop :=
  (- Z.of_nat k ≤ code < Z.of_nat k)%Z.

Definition classes_count (cd : ClassDict) (f : string) : nat :=
  length (default [] (cd !! f)).

(** Width and content of what a field contributes to an encoded row: its
    one-hot block when it is of kind [cls], its own cell otherwise. *)
Definition field_width (cd : ClassDict) (cls : string)
    (p : string * string) : nat :=
  if decide (p.2 = cls) then block_width (classes_count cd p.1) else 1.

Definition field_block (cd : ClassDict) (cls : string)
    (p : string * string) (x : float) : list float :=
  if decide (p.2 = cls) then one_hot (classes_count cd p.1) (astype_int x)
  else [x].

Definition encode_row (cd : ClassDict) (cls : string)
    (fs : list (string * string)) (row : list float) : list float :=
  concat (zip_with (field_block cd cls) fs row).

Definition encoded_width (cd : ClassDict) (cls : string)
    (fs : list (string * string)) : nat :=
  sum_list_with (field_width cd cls) fs.

(** The matrix with every column of a field of kind [cls] replaced, in
    place, by the field's block. *)
Definition encoded (cd : ClassDict) (cls : string)
    (fs : list (string * string)) (a : ndarray) : ndarray :=
  NDArray (encoded_width cd cls fs) (encode_row cd cls fs <$> cells a).

(** Every field of kind [cls] has classes in the dictionary, and every
    cell of its column, as an integer, indexes one of them. *)
Definition encodable (cd : ClassDict) (cls : string)
    (fs : list (string * string)) (a : ndarray) : Prop :=
  forall i f, fs !! i = Some (f, cls) ->
    (1 ≤ classes_count cd f)%nat ∧ is_Some (cd !! f) ∧
    forall row x, row ∈ cells a -> row !! i = Some x ->
      in_axis (classes_count cd f) (astype_int x).

(** The same with codes proper: positions in the field's list. *)
Definition holds_codes (cd : ClassDict) (cls : string)
    (fs : list (string * string)) (a : ndarray) : Prop :=
  forall i f, fs !! i = Some (f, cls) ->
    (1 ≤ classes_count cd f)%nat ∧ is_Some (cd !! f) ∧
    forall row x, row ∈ cells a -> row !! i = Some x ->
      (0 ≤ astype_int x < Z.of_nat (classes_count cd f))%Z.

(** The matrix when the fields [pre], the first of [m] fields, have been
    encoded. *)
Definition partly_encoded (cd : ClassDict) (cls : string)
    (pre : list (string * string)) (m : nat) (a : ndarray) : ndarray :=
  NDArray (encoded_width cd cls pre + (m - length pre))
    ((fun row => encode_row cd cls pre (take (length pre) row)
                 ++ drop (length pre) row)%list <$> cells a).

(** A method that neither reads nor assigns [self.nan_behaviour]: it runs
    alike whatever the attribute holds. *)
Definition nan_blind {A} (m : M A) : Prop :=
  forall nb s, m (set_nan_behaviour nb s) = ((m s).1, set_nan_behaviour nb (m s).2).

(** * Further predicates *)

(** No list of the dictionary holds a value twice. *)
Definition dict_NoDup (d : ClassDict) : Prop :=
  forall f vs, d !! f = Some vs -> NoDup vs.

(** The array a field of kind [k] lives in: 0 is the input matrix, 1 the
    target matrix, in the order [_construct_matrices] allocates them. *)
Definition allocation (k : string) : nat := if contains "target" k then 1 else 0.

(** Cell [r, c] of the matrix of the fields of kind [k]. *)
Definition mcell (k : string) (s : Self) (r c : nat) : option float :=
  matrix_of k s ≫= fun a => cell a r c.

(** What filling leaves in the cell of record [row] and field [f] of kind
    [k], given the dictionary [d] at the end: the value for a continuous
    field, the code for a class field, and what allocation left there for a
    field the record lacks or a kind the loop does not know. *)
Definition filled_cell (E : Env) (d : ClassDict)
    (r c : nat) (row : gmap string pyval) (f k : string) : option float :=
  match row !! f with
  | None => Some (np_uninit E (allocation k) r c)
  | Some value =>
      if decide (k = "continuous" ∨ k = "target_continuous")
      then stored_value E value
      else if decide (k = "class" ∨ k = "target_class")
      then float_of_nat <$> code_of d f value
      else Some (np_uninit E (allocation k) r c)
  end.

(** Where the dictionary [d] has its lists and values from, when filling
    from [rows] has made it of [d0]: two names that hold one list did so in
    [d0], and a value was in the name's list in [d0] or is the cell that a
    record has for a class field, the name itself or one that shared its
    list in [d0]. *)
Definition dict_from (d0 : ClassDict) (feats : dict string)
    (rows : list (gmap string pyval)) (d : ClassDict) : Prop :=
  (forall f g, shares d f g -> f = g ∨ shares d0 f g) ∧
  forall f v, v ∈ default [] (d !! f) ->
    v ∈ default [] (d0 !! f) ∨
    exists row g k, row ∈ rows ∧ (g, k) ∈ feats ∧
      (k = "class" ∨ k = "target_class") ∧ row !! g = Some v ∧
      (g = f ∨ shares d0 f g).

(** Record [r] and field [f] are behind the fill loops when they work on
    record [r0] and have done the fields [pre] of it. *)
Definition visited (r0 : nat) (pre : list (string * string)) (r : nat)
    (f : string) : Prop :=
  r < r0 ∨ (r = r0 ∧ f ∈ keys pre).

(** The cells of the records and fields behind the loops hold what filling
    stores, the others what allocation left. *)
Definition cells_filled (E : Env) (s0 : Self) (rows : list (gmap string pyval))
    (r0 : nat) (pre : list (string * string)) (s : Self) : Prop :=
  forall r row f k c,
    rows !! r = Some row -> (f, k) ∈ features s0 ->
    column_of k s0 f = Some c ->
    (visited r0 pre r f ->
       exists x, mcell k s r c = Some x ∧
                 filled_cell E (classDict s) r c row f k = Some x) ∧
    (¬ visited r0 pre r f ->
       mcell k s r c = Some (np_uninit E (allocation k) r c)).

(** Where the cells of [a] are in the encoded matrix [a']: the cell of the
    field at position [i] starts at the column that is the sum of the
    widths of the fields before it; a field of kind [cls] has its one-hot
    block there, any other field its own cell. *)
Definition blocks_at (cd : ClassDict) (cls : string)
    (fs : list (string * string)) (a a' : ndarray) : Prop :=
  forall i f k r x,
    fs !! i = Some (f, k) -> cell a r i = Some x ->
    let w := encoded_width cd cls (take i fs) in
    (k = cls ->
       forall j y, one_hot (classes_count cd f) (astype_int x) !! j = Some y ->
                   cell a' r (w + j) = Some y) ∧
    (k ≠ cls -> cell a' r w = Some x).

(** The object when a file without records has been read: both matrices
    have no rows and the dictionary has no entry. *)
Definition no_records : Self :=
  {| csvFileName := "empty.csv";
     features := [("a", "continuous"); ("c", "class");
                  ("t", "target_continuous"); ("y", "target_class")];
     input_features := [("a", "continuous"); ("c", "class")];
     target_features := [("t", "target_continuous"); ("y", "target_class")];
     classDict := ∅;
     norm := ∅;
     input_set := Some (NDArray 2 []);
     target_set := Some (NDArray 2 []);
     input_vector_length := None;
     target_vector_length := None;
     nan_behaviour := None |}.

(** * Further predicates on [_normalize] *)

(** A continuous target field that [_normalize] cannot give statistics: it
    has no entry in [norm], and its column number is not a column of the
    input matrix, where lines 175-176 look for its values. *)
Definition unscalable (s : Self) (f : string) : Prop :=
  (f, "target_continuous") ∈ features s ∧ norm s !! f = None ∧
  exists c, index f (keys (target_features s)) = Some c ∧
            (length (input_features s) ≤ c)%nat.

(** The input columns when the loop of [_normalize] has worked on the
    fields [seen] and [nm'] is [norm] then: the column of a continuous
    field among [seen] is scaled, with the entry of [norm] or else the
    statistics of the column itself, and every other column is as in [a]. *)
Definition input_scaled (E : Env) (s : Self) (seen : dict string)
    (nm' : gmap string Stats) (a a' : ndarray) : Prop :=
  forall i f k, input_features s !! i = Some (f, k) ->
    (k = "continuous" -> f ∈ keys seen ->
       let st := stats_for E (norm s) f (column a i) in
       nm' !! f = Some st ∧ col_mapped (z_score st) i a a') ∧
    (k ≠ "continuous" ∨ f ∉ keys seen -> col_mapped id i a a').

(** The target columns then: the column of a continuous target field among
    [seen] is scaled with the entry [nm'] has for it, which is the entry of
    [norm] when there was one. *)
Definition target_scaled (s : Self) (seen : dict string)
    (nm' : gmap string Stats) (b b' : ndarray) : Prop :=
  forall i f k, target_features s !! i = Some (f, k) ->
    (k = "target_continuous" -> f ∈ keys seen ->
       exists st, nm' !! f = Some st ∧
         (forall st0, norm s !! f = Some st0 -> st = st0) ∧
         col_mapped (z_score st) i b b') ∧
    (k ≠ "target_continuous" ∨ f ∉ keys seen -> col_mapped id i b b').

(** What the loop of [_normalize] has made of [s] when it has worked on the
    fields [seen]: their continuous columns are scaled, and every other
    cell, every other entry of [norm] and every other attribute is as in
    [s]. *)
Definition normalized (E : Env) (s : Self) (seen : dict string) (s' : Self)
    : Prop :=
  same_schema s s' ∧ csvFileName s' = csvFileName s ∧
  classDict s' = classDict s ∧ nan_behaviour s' = nan_behaviour s ∧
  input_vector_length s' = input_vector_length s ∧
  target_vector_length s' = target_vector_length s ∧
  (forall h, h ∉ keys seen -> norm s' !! h = norm s !! h) ∧
  exists a b a' b',
    input_set s = Some a ∧ target_set s = Some b ∧
    input_set s' = Some a' ∧ target_set s' = Some b' ∧
    input_scaled E s seen (norm s') a a' ∧
    target_scaled s seen (norm s') b b'.

(** The state of the loop of [_normalize] before the field after [seen]:
    the matrices are allocated as before, the fields [seen] are done, and
    none of them was unscalable. *)
Definition loop_inv (E : Env) (n : nat) (s : Self) (seen : dict string)
    (s' : Self) : Prop :=
  prepared n s' ∧ normalized E s seen s' ∧
  forall g, g ∈ keys seen -> ¬ unscalable s g.

(** One continuous input field and two continuous target fields, filled;
    no statistics are supplied. *)
Definition two_targets : Self :=
  {| csvFileName := "train.csv";
     features := [("a", "continuous"); ("t", "target_continuous");
                  ("u", "target_continuous")];
     input_features := [("a", "continuous")];
     target_features := [("t", "target_continuous"); ("u", "target_continuous")];
     classDict := ∅;
     norm := ∅;
     input_set := Some (NDArray 1 [[1]; [nan]; [3]]%float);
     target_set := Some (NDArray 2 [[10; 5]; [20; 6]; [30; 7]]%float);
     input_vector_length := None;
     target_vector_length := None;
     nan_behaviour := Some "ignore" |}.

(** * Default arguments and [main] *)

(** The defaults of [classDict] and [norm] at line 16 are two dictionaries
    made once, when the class is defined.  A construction that passes none
    binds them to the object and fills them in place, so what it adds is
    there for the next such construction. *)
Record Defaults := {
  default_classDict : ClassDict;
  default_norm : gmap string Stats }.

(** [MachineLearningSet(csvFileName, features)]: the outcome, the object,
    and the defaults afterwards. *)
Definition construct_default (E : Env) (csvFileName : string)
    (features : dict string) (d : Defaults)
    : (outcome unit * Self) * Defaults :=
  let r := __init__ E csvFileName features
             (default_classDict d) (default_norm d) "ignore" in
  (r, {| default_classDict := classDict r.2; default_norm := norm r.2 |}).

(** What [print] is given: a caption and, for the attributes of a dataset,
    the value shown after it. *)
Inductive shown :=
  | Matrix (a : option ndarray)
  | Fields (d : dict string)
  | Classes (d : ClassDict)
  | Statistics (d : gmap string Stats).

Inductive printed := Print (caption : string) (value : option shown).

Definition newline : string := String (ascii_of_nat 10) EmptyString.

(** ['\nTraining set\n'] and the like. *)
Definition caption (text : string) : string := newline ++ text ++ newline.

Definition train_features : dict string :=
  [("PassengerId", "ignore"); ("Survived", "target_class"); ("Pclass", "class");
   ("Name", "ignore"); ("Sex", "class"); ("Age", "continuous");
   ("SibSp", "continuous"); ("Parch", "continuous"); ("Ticket", "ignore");
   ("Fare", "continuous"); ("Cabin", "ignore"); ("Embarked", "class")].

Definition test_features : dict string :=
  [("PassengerId", "ignore"); ("Pclass", "class"); ("Name", "ignore");
   ("Sex", "class"); ("Age", "continuous"); ("SibSp", "continuous");
   ("Parch", "continuous"); ("Ticket", "ignore"); ("Fare", "continuous");
   ("Cabin", "ignore"); ("Embarked", "class")].

(** Lines 220-226 and 242-248: the six attributes [main] prints of a
    dataset. *)
Definition report (mls : Self) : list printed :=
  [Print (caption "input set") (Some (Matrix (input_set mls)));
   Print (caption "features") (Some (Fields (features mls)));
   Print (caption "input features") (Some (Fields (input_features mls)));
   Print (caption "target features") (Some (Fields (target_features mls)));
   Print (caption "classDict") (Some (Classes (classDict mls)));
   Print (caption "norm") (Some (Statistics (norm mls)))].

(** [main]: what it prints, and how it ends.  The training set is
    constructed with the default dictionaries, the test set with the
    dictionaries of the training set. *)
Definition main (E : Env) (d : Defaults) : list printed * outcome unit :=
  let out := [Print (caption "Training set") None] in
  let '(r, _) := construct_default E "train.csv" train_features d in
  match r.1 with
  | Raise e => (out, Raise e)
  | Ok _ =>
      let mls := r.2 in
      let out := (out ++ report mls ++ [Print (caption "Test set") None])%list in
      let r' := __init__ E "test.csv" test_features
                  (classDict mls) (norm mls) "ignore" in
      match r'.1 with
      | Raise e => (out, Raise e)
      | Ok _ => ((out ++ report r'.2)%list, Ok tt)
      end
  end.
(** * Rules for [wp] *)

Local Open Scope nat_scope.
Local Open Scope list_scope.

Section Wp.
Context {A B : Type}.
Implicit Types (Q : outcome A -> Self -> Prop) (s : Self).

Lemma wp_mono (m : M A) Q Q' s :
  (forall o s', Q o s' -> Q' o s') -> wp m Q s -> wp m Q' s.
Proof. unfold wp. auto. Qed.

Lemma wp_ret (a : A) Q s : Q (Ok a) s -> wp (mret a) Q s.
Proof. exact id. Qed.

Lemma wp_raise e Q s : Q (Raise e) s -> wp (raise e) Q s.
Proof. exact id. Qed.

Lemma wp_gets (f : Self -> A) Q s : Q (Ok (f s)) s -> wp (gets f) Q s.
Proof. exact id. Qed.

Lemma wp_lift (o : outcome A) Q s : Q o s -> wp (lift o) Q s.
Proof. exact id. Qed.

Lemma wp_required (o : option A) e Q s :
  match o with Some a => Q (Ok a) s | None => Q (Raise e) s end ->
  wp (required o e) Q s.
Proof. now destruct o. Qed.

Lemma wp_bind (m : M A) (k : A -> M B) (Q : outcome B -> Self -> Prop) s :
  wp m (fun o s' => match o with
                    | Ok a => wp (k a) Q s'
                    | Raise e => Q (Raise e) s'
                    end) s ->
  wp (m ≫= k) Q s.
Proof.
  unfold wp, mbind, M_bind. now destruct (m s) as [[a|e] s'].
Qed.

End Wp.

Lemma wp_eq {A} (m : M A) (X : outcome A * Self) s :
  wp m (fun o s' => (o, s') = X) s -> m s = X.
Proof. unfold wp. now destruct (m s). Qed.

Lemma wp_modify (f : Self -> Self) (Q : outcome unit -> Self -> Prop) s :
  Q (Ok tt) (f s) -> wp (modify f) Q s.
Proof. exact id. Qed.

(** A property of the object that every iteration keeps, whether it raises
    or not, holds when the loop is left. *)
Lemma wp_for_stable {A} (I : Self -> Prop) (l : list A) (body : A -> M unit) s :
  I s ->
  (forall x s, x ∈ l -> I s -> wp (body x) (fun _ s' => I s') s) ->
  wp (for_ l body) (fun _ s' => I s') s.
Proof.
  revert s. induction l as [|x l IH]; intros s Hs Hbody; simpl.
  - now apply wp_ret.
  - apply wp_bind.
    eapply wp_mono; [|apply (Hbody x s); [left|done]].
    intros [[]|e] s' Hs'; [|done].
    apply IH; [done|]. intros y s'' Hy. apply Hbody. now right.
Qed.

(** When every iteration either keeps [I] and raises the error its element
    calls for or keeps [I] and returns, the loop ends in the error of the
    first such element, or returns when there is none. *)
Lemma wp_for_first {A} (I : Self -> Prop) (bad : A -> option exn)
    (l : list A) (body : A -> M unit) s :
  I s ->
  (forall x s, x ∈ l -> I s ->
     wp (body x) (fun o s' => I s' ∧ o = cell_outcome (bad x)) s) ->
  wp (for_ l body) (fun o s' => I s' ∧ o = cell_outcome (head (omap bad l))) s.
Proof.
  revert s. induction l as [|x l IH]; intros s Hs Hbody; simpl.
  - now apply wp_ret.
  - apply wp_bind.
    eapply wp_mono; [|apply (Hbody x s); [left|done]].
    intros o s' [Hs' ->]. destruct (bad x) as [v|]; simpl; [done|].
    apply IH; [done|]. intros y s'' Hy. apply Hbody. now right.
Qed.

(** An invariant indexed by the elements already visited holds of the whole
    list when the loop returns. *)
Lemma wp_for_prefix {A} (I : list A -> Self -> Prop) (l : list A)
    (body : A -> M unit) s :
  I [] s ->
  (forall pre x post s, l = (pre ++ x :: post)%list -> I pre s ->
     wp (body x) (fun o s' => o = Ok tt -> I (pre ++ [x])%list s') s) ->
  wp (for_ l body) (fun o s' => o = Ok tt -> I l s') s.
Proof.
  intros H0 Hbody.
  assert (Hgen : forall rest pre s, l = (pre ++ rest)%list -> I pre s ->
            wp (for_ rest body) (fun o s' => o = Ok tt -> I l s') s).
  { induction rest as [|x rest IH]; intros pre s1 Hl Hpre; simpl.
    - apply wp_ret. intros _. rewrite Hl, app_nil_r. exact Hpre.
    - apply wp_bind.
      eapply wp_mono; [|apply (Hbody pre x rest s1 Hl Hpre)].
      intros [[]|e] s2 Hs2; [|done].
      apply (IH (pre ++ [x])%list); [|auto].
      now rewrite <- app_assoc. }
  now apply (Hgen l []).
Qed.

Lemma wp_for_acc_prefix {A B} (I : list A -> B -> Self -> Prop) (R : Prop)
    (l : list A) (acc0 : B) (body : B -> A -> M B) s :
  I [] acc0 s ->
  (forall pre x post acc s, l = (pre ++ x :: post)%list -> I pre acc s ->
     wp (body acc x) (fun o s' => match o with
                                  | Ok acc' => I (pre ++ [x])%list acc' s'
                                  | Raise _ => R
                                  end) s) ->
  wp (for_acc l acc0 body) (fun o s' => match o with
                                        | Ok acc => I l acc s'
                                        | Raise _ => R
                                        end) s.
Proof.
  intros H0 Hbody.
  assert (Hgen : forall rest pre acc s, l = (pre ++ rest)%list -> I pre acc s ->
            wp (for_acc rest acc body)
               (fun o s' => match o with Ok acc => I l acc s' | Raise _ => R end) s).
  { induction rest as [|x rest IH]; intros pre acc s1 Hl Hpre; simpl.
    - apply wp_ret. rewrite Hl, app_nil_r. exact Hpre.
    - apply wp_bind.
      eapply wp_mono; [|apply (Hbody pre x rest acc s1 Hl Hpre)].
      intros [acc'|e] s2 Hs2; [|done].
      apply (IH (pre ++ [x])%list); [|auto].
      now rewrite <- app_assoc. }
  now apply (Hgen l []).
Qed.

Lemma head_flat_map {A B} (g : A -> list B) (l : list A) :
  head (flat_map g l) = head (omap (fun x => head (g x)) l).
Proof.
  induction l as [|x l IH]; simpl; [done|].
  destruct (g x) as [|y ys]; simpl; [exact IH|done].
Qed.

Lemma omap_enumerate {A B} (h : A -> option B) (l : list A) :
  omap (fun p : nat * A => h p.2) (enumerate l) = omap h l.
Proof.
  unfold enumerate. generalize 0.
  induction l as [|x l IH]; intros i; simpl; [done|].
  now rewrite IH.
Qed.

Lemma elem_of_enumerate {A} (l : list A) r x :
  (r, x) ∈ enumerate l -> r < length l.
Proof.
  unfold enumerate. intros H%elem_of_zip_l%elem_of_seq. lia.
Qed.

(** * The class dictionary *)

Lemma index_Some_lookup {A} `{EqDecision A} (x : A) l i : index x l = Some i -> l !! i = Some x.
Proof.
  revert i. induction l as [|y l IH]; intros i; simpl; [done|].
  case_decide as Hxy.
  - intros [= <-]. now subst.
  - destruct (index x l) as [j|]; simpl; [|done].
    intros [= <-]. now apply IH.
Qed.

Lemma index_is_Some {A} `{EqDecision A} (x : A) l : x ∈ l -> is_Some (index x l).
Proof.
  induction 1 as [|x y l Hin IH]; simpl.
  - rewrite decide_True by done. eauto.
  - case_decide; [eauto|]. destruct IH as [i ->]. simpl. eauto.
Qed.

Lemma index_None {A} `{EqDecision A} (x : A) l : x ∉ l -> index x l = None.
Proof.
  intros Hx. destruct (index x l) as [i|] eqn:Hi; [|done].
  destruct Hx. eapply list_elem_of_lookup_2, index_Some_lookup, Hi.
Qed.

Lemma index_lt {A} `{EqDecision A} (x : A) l i : index x l = Some i -> i < length l.
Proof. intros H. eapply lookup_lt_Some, index_Some_lookup, H. Qed.

Lemma index_app_l {A} `{EqDecision A} (x : A) l l' i : index x l = Some i -> index x (l ++ l') = Some i.
Proof.
  revert i. induction l as [|y l IH]; intros i; simpl; [done|].
  case_decide; [done|].
  destruct (index x l) as [j|]; simpl; [|done].
  intros [= <-]. now rewrite (IH j).
Qed.

Lemma index_app_fresh {A} `{EqDecision A} (x : A) l : x ∉ l -> index x (l ++ [x]) = Some (length l).
Proof.
  induction l as [|y l IH]; intros Hx; simpl.
  - now rewrite decide_True.
  - rewrite decide_False by (intros ->; apply Hx; left).
    rewrite IH; [done|]. intros ?. apply Hx. now right.
Qed.

Lemma dict_le_refl d : dict_le d d.
Proof. intros f vs H. exists []. now rewrite app_nil_r. Qed.

Lemma dict_le_trans d1 d2 d3 : dict_le d1 d2 -> dict_le d2 d3 -> dict_le d1 d3.
Proof.
  intros H12 H23 f vs H.
  destruct (H12 f vs H) as [e1 H1]. destruct (H23 f _ H1) as [e2 H2].
  exists (e1 ++ e2)%list. now rewrite app_assoc.
Qed.

Lemma lookup_ClassDict (cd : ClassDict) f :
  cd !! f = list_at cd <$> refs cd !! f.
Proof. reflexivity. Qed.

Lemma lookup_ClassDict_empty f : (∅ : ClassDict) !! f = None.
Proof. rewrite lookup_ClassDict. simpl. now rewrite lookup_empty. Qed.

Lemma fresh_ref_gt cd f l : refs cd !! f = Some l -> l < fresh_ref cd.
Proof.
  intros Hl. unfold fresh_ref. apply Nat.lt_succ_r, max_list_elem_of_le.
  apply list_elem_of_fmap. exists (f, l). split; [done|].
  now apply elem_of_map_to_list.
Qed.

Lemma lookup_new_list f cd g :
  new_list f cd !! g = if decide (g = f) then Some [] else cd !! g.
Proof.
  rewrite !lookup_ClassDict. unfold new_list, list_at. simpl.
  case_decide as Hg.
  - subst. rewrite lookup_insert_eq. simpl. now rewrite lookup_insert_eq.
  - rewrite lookup_insert_ne by done.
    destruct (refs cd !! g) as [l|] eqn:Hl; simpl; [|done].
    rewrite lookup_insert_ne; [done|]. apply fresh_ref_gt in Hl. lia.
Qed.

Lemma lookup_append f v cd g l :
  refs cd !! f = Some l ->
  append f v cd !! g =
  if decide (refs cd !! g = Some l) then Some (list_at cd l ++ [v])
  else cd !! g.
Proof.
  intros Hf. rewrite !lookup_ClassDict. unfold append. rewrite Hf. simpl.
  destruct (refs cd !! g) as [l'|] eqn:Hg; simpl.
  - unfold list_at at 1. simpl. case_decide as Hl.
    + injection Hl as ->. now rewrite lookup_insert_eq.
    + rewrite lookup_insert_ne by congruence. done.
  - done.
Qed.

Lemma shares_lookup cd f g : shares cd f g -> cd !! g = cd !! f.
Proof. intros (l & Hf & Hg). rewrite !lookup_ClassDict. now rewrite Hf, Hg. Qed.

Lemma shares_new_list f cd g h :
  cd !! f = None -> shares (new_list f cd) g h -> g = h ∨ shares cd g h.
Proof.
  rewrite lookup_ClassDict. intros Hf (l & Hg & Hh). unfold new_list in *.
  simpl in *. destruct (decide (g = h)) as [|Hne]; [now left|right].
  destruct (decide (g = f)) as [->|Hgf].
  - rewrite lookup_insert_eq in Hg. injection Hg as <-.
    rewrite lookup_insert_ne in Hh by done.
    apply fresh_ref_gt in Hh. lia.
  - rewrite lookup_insert_ne in Hg by done.
    destruct (decide (h = f)) as [->|Hhf].
    + rewrite lookup_insert_eq in Hh. injection Hh as <-.
      apply fresh_ref_gt in Hg. lia.
    + rewrite lookup_insert_ne in Hh by done. now exists l.
Qed.

(** The dictionary when lines 103-108 have run: the name [f] and every
    name that shares its list hold the list with the value added, every
    other name holds what it held. *)
Lemma dict_add_lookup f v cd g :
  dict_add f v cd !! g =
  if decide (g = f ∨ shares cd f g)
  then Some (added v (default [] (cd !! f)))
  else cd !! g.
Proof.
  unfold dict_add, added.
  destruct (decide (cd !! f = None)) as [Hnone|Hsome].
  - (* a new list for [f], which nobody shares *)
    assert (Hnew : new_list f cd !! f = Some []).
    { rewrite lookup_new_list. now rewrite decide_True. }
    rewrite Hnew, Hnone. simpl.
    destruct (decide (v ∈ [])) as [Hin|_]; [now apply not_elem_of_nil in Hin|].
    assert (Hnr : refs cd !! f = None).
    { rewrite lookup_ClassDict in Hnone.
      now destruct (refs cd !! f). }
    rewrite (lookup_append f v (new_list f cd) g (fresh_ref cd)).
    2: { unfold new_list; simpl. apply lookup_insert_eq. }
    assert (Hat : list_at (new_list f cd) (fresh_ref cd) = []).
    { unfold list_at, new_list; simpl. now rewrite lookup_insert_eq. }
    rewrite Hat.
    destruct (decide (g = f)) as [->|Hgf].
    + rewrite decide_True by (unfold new_list; simpl; apply lookup_insert_eq).
      rewrite decide_True; [done|now left].
    + rewrite decide_False.
      2: { unfold new_list; simpl. rewrite lookup_insert_ne by done.
           intros Hl%fresh_ref_gt. lia. }
      rewrite decide_False.
      2: { intros [?|(l & Hl & _)]; congruence. }
      rewrite lookup_new_list. now rewrite decide_False.
  - destruct (cd !! f) as [vs|] eqn:Hf; [|done]. simpl.
    assert (Hr : exists l, refs cd !! f = Some l ∧ list_at cd l = vs).
    { rewrite lookup_ClassDict in Hf.
      destruct (refs cd !! f) as [l|]; simpl in Hf; [|done].
      injection Hf as <-. eauto. }
    destruct Hr as (l & Hl & Hvs).
    assert (Hiff : (g = f ∨ shares cd f g) <-> refs cd !! g = Some l).
    { split.
      - intros [->|(l' & Hl' & Hg)]; congruence.
      - intros Hg. right. now exists l. }
    destruct (decide (v ∈ vs)) as [Hin|Hin].
    + case_decide as Hc; [|done].
      apply Hiff in Hc. rewrite lookup_ClassDict, Hc. simpl. congruence.
    + rewrite (lookup_append f v cd g l Hl), Hvs.
      destruct (decide (refs cd !! g = Some l)) as [Hg|Hg].
      * rewrite decide_True; [done|]. now apply Hiff.
      * rewrite decide_False; [done|]. now rewrite Hiff.
Qed.

Lemma dict_add_le f v d : dict_le d (dict_add f v d).
Proof.
  intros g vs Hg. rewrite dict_add_lookup. case_decide as Hc.
  - assert (Hf : d !! f = Some vs).
    { destruct Hc as [->|Hc]; [done|]. now rewrite <- (shares_lookup d f g). }
    rewrite Hf. simpl. unfold added.
    case_decide; [exists []; now rewrite app_nil_r | now exists [v]].
  - exists []. now rewrite app_nil_r.
Qed.

(** Codes are stable under extension. *)
Lemma code_of_le d d' f v i :
  dict_le d d' -> code_of d f v = Some i -> code_of d' f v = Some i.
Proof.
  unfold code_of. intros Hle H.
  destruct (d !! f) as [vs|] eqn:Hf; simpl in H; [|done].
  destruct (Hle f vs Hf) as [ext ->]. simpl. now apply index_app_l.
Qed.

Lemma set_classDict_id s : set_classDict (classDict s) s = s.
Proof. now destruct s. Qed.

Lemma set_classDict_set d d' s :
  set_classDict d (set_classDict d' s) = set_classDict d s.
Proof. reflexivity. Qed.

Lemma classDict_add_run f v s :
  classDict_add f v s = (Ok tt, set_classDict (dict_add f v (classDict s)) s).
Proof.
  unfold classDict_add, dict_add, mbind, M_bind, gets, modify, required.
  destruct (decide (classDict s !! f = None)) as [Hnone|Hsome]; simpl.
  - assert (Hnew : new_list f (classDict s) !! f = Some []).
    { rewrite lookup_new_list. now rewrite decide_True. }
    rewrite Hnew. simpl.
    now destruct (decide (v ∈ [])) as [Hin%not_elem_of_nil|_].
  - destruct (classDict s !! f) as [vs|] eqn:Hf; [|done]. simpl.
    destruct (decide (v ∈ vs)); simpl; [|done]. now rewrite set_classDict_id.
Qed.

Lemma code_of_dict_add f v d :
  exists i, code_of (dict_add f v d) f v = Some i ∧
    i = match code_of d f v with
        | Some j => j
        | None => length (default [] (d !! f))
        end.
Proof.
  unfold code_of. rewrite dict_add_lookup, decide_True by now left.
  simpl. unfold added.
  destruct (d !! f) as [vs|]; simpl.
  - case_decide as Hin.
    + destruct (index_is_Some _ _ Hin) as [i Hi]. rewrite Hi. eauto.
    + rewrite index_app_fresh, index_None by done. eauto.
  - rewrite decide_True by done. eauto.
Qed.

Lemma wp_classDict_add f v (Q : outcome unit -> Self -> Prop) s :
  Q (Ok tt) (set_classDict (dict_add f v (classDict s)) s) ->
  wp (classDict_add f v) Q s.
Proof. unfold wp. now rewrite classDict_add_run. Qed.

(** One step of symbolic execution. *)
Ltac wp_step :=
  lazymatch goal with
  | |- wp (mbind _ _) _ _ => apply wp_bind
  | |- wp (mret _) _ _ => apply wp_ret
  | |- wp (raise _) _ _ => apply wp_raise
  | |- wp (gets _) _ _ => apply wp_gets
  | |- wp (lift _) _ _ => apply wp_lift
  | |- wp (modify _) _ _ => apply wp_modify
  | |- wp (required _ _) _ _ => apply wp_required
  | |- wp (classDict_add _ _) _ _ => apply wp_classDict_add
  | |- wp (if decide _ then _ else _) _ _ => case_decide
  | |- wp (match ?o with Some _ => _ | None => _ end) _ _ =>
      first [ match goal with H : o = _ |- _ => rewrite H end
            | destruct o eqn:? ]
  | |- wp (match ?o with Unreadable _ => _ | Records _ => _ end) _ _ =>
      first [ match goal with H : o = _ |- _ => rewrite H end
            | destruct o eqn:? ]
  | |- wp (match ?v with Str _ => _ | PyNone => _ end) _ _ => destruct v
  | |- match ?o with Ok _ => _ | Raise _ => _ end =>
      first [ match goal with H : o = _ |- _ => rewrite H end
            | let e := fresh "e" in destruct o as [?|e] eqn:? ]
  | |- match ?o with Some _ => _ | None => _ end =>
      first [ match goal with H : o = _ |- _ => rewrite H end
            | destruct o eqn:? ]
  end; cbv beta iota.

Ltac wp_steps := repeat wp_step.

(** * Filling the matrices *)

Lemma fill_frame_refl s : fill_frame s s.
Proof. unfold fill_frame. eauto 10 using dict_le_refl. Qed.

Lemma fill_frame_set_input_set s0 s a :
  fill_frame s0 s -> fill_frame s0 (set_input_set a s).
Proof. exact id. Qed.

Lemma fill_frame_set_target_set s0 s a :
  fill_frame s0 s -> fill_frame s0 (set_target_set a s).
Proof. exact id. Qed.

Lemma fill_frame_dict_add s0 s f v :
  fill_frame s0 s -> fill_frame s0 (set_classDict (dict_add f v (classDict s)) s).
Proof.
  unfold fill_frame; simpl. intros (?&?&?&?&?&?&?&?&?).
  eauto 10 using dict_le_trans, dict_add_le.
Qed.

Create HintDb fill.
#[local] Hint Resolve fill_frame_refl fill_frame_set_input_set
  fill_frame_set_target_set fill_frame_dict_add : fill.

Section Fill.
Context (E : Env).

Lemma fill_cell_frame r row f k s0 s :
  fill_frame s0 s -> wp (fill_cell E r row f k) (fun _ s' => fill_frame s0 s') s.
Proof.
  intros Hs. unfold fill_cell, input_set_setitem, target_set_setitem,
    classDict_index, float_, the_input_set, the_target_set.
  wp_steps; auto with fill.
Qed.

Lemma fill_matrices_frame s : wp (fill_matrices E) (fun _ s' => fill_frame s s') s.
Proof.
  unfold fill_matrices, _get_csv_rowcount, read_csv. wp_steps; auto with fill.
  apply wp_for_stable; [auto with fill|].
  intros [r row] s1 _ H1. wp_steps.
  apply wp_for_stable; [done|].
  intros [f k] s2 _ H2. now apply fill_cell_frame.
Qed.


Lemma list_index_keys (d : dict string) f k :
  (f, k) ∈ d -> exists c, list_index f (keys d) = Ok c ∧ c < length d.
Proof.
  intros Hin. assert (Hf : f ∈ keys d).
  { unfold keys. apply list_elem_of_fmap. now exists (f, k). }
  destruct (index_is_Some _ _ Hf) as [c Hc].
  exists c. unfold list_index. rewrite Hc. split; [done|].
  apply index_lt in Hc. unfold keys in Hc. now rewrite length_fmap in Hc.
Qed.

Lemma rectangular_setitem a r c v : rectangular a -> rectangular (setcell a r c v).
Proof.
  unfold rectangular; simpl. intros H.
  apply Forall_alter; [done|]. intros row _ Hrow. now rewrite length_insert.
Qed.

Lemma wp_the_input_set a (Q : outcome ndarray -> Self -> Prop) s :
  input_set s = Some a -> Q (Ok a) s -> wp the_input_set Q s.
Proof. unfold wp, the_input_set, mbind, M_bind, gets. now intros ->. Qed.

Lemma wp_the_target_set b (Q : outcome ndarray -> Self -> Prop) s :
  target_set s = Some b -> Q (Ok b) s -> wp the_target_set Q s.
Proof. unfold wp, the_target_set, mbind, M_bind, gets. now intros ->. Qed.

Lemma cell_setcell a r c v :
  rectangular a -> r < nrows a -> c < ncols a -> cell (setcell a r c v) r c = Some v.
Proof.
  unfold rectangular, nrows, cell, setcell; simpl. intros Hrect Hr Hc.
  rewrite list_lookup_alter_eq.
  destruct (lookup_lt_is_Some_2 _ _ Hr) as [row Hrow]. rewrite Hrow. simpl.
  apply list_lookup_insert_eq.
  rewrite Forall_forall in Hrect. rewrite (Hrect row); [done|].
  eapply list_elem_of_lookup_2, Hrow.
Qed.

Lemma input_set_setitem_run r c v s a :
  input_set s = Some a -> r < nrows a -> c < ncols a ->
  input_set_setitem r c v s = (Ok tt, set_input_set (Some (setcell a r c v)) s).
Proof.
  intros Ha Hr Hc.
  unfold input_set_setitem, the_input_set, setitem, mbind, M_bind, gets, lift,
    modify.
  rewrite Ha. simpl. now rewrite decide_True by lia.
Qed.

Lemma target_set_setitem_run r c v s b :
  target_set s = Some b -> r < nrows b -> c < ncols b ->
  target_set_setitem r c v s = (Ok tt, set_target_set (Some (setcell b r c v)) s).
Proof.
  intros Hb Hr Hc.
  unfold target_set_setitem, the_target_set, setitem, mbind, M_bind, gets, lift,
    modify.
  rewrite Hb. simpl. now rewrite decide_True by lia.
Qed.

Lemma wp_input_set_setitem r c v n (Q : outcome unit -> Self -> Prop) s :
  shaped n s -> r < n -> c < length (input_features s) ->
  (forall s', shaped n s' -> fill_frame s s' -> classDict s' = classDict s ->
     Q (Ok tt) s') ->
  wp (input_set_setitem r c v) Q s.
Proof.
  intros [(a & Ha & Hn & Hc & Hrect) Hb] Hr Hcl HQ.
  unfold wp. rewrite (input_set_setitem_run r c v s a) by (done || lia).
  cbn [fst snd]. apply HQ; [|auto with fill|done].
  split; [|done]. eexists. split; [done|]. simpl.
  unfold nrows; simpl. rewrite length_alter.
  auto using rectangular_setitem.
Qed.

Lemma wp_target_set_setitem r c v n (Q : outcome unit -> Self -> Prop) s :
  shaped n s -> r < n -> c < length (target_features s) ->
  (forall s', shaped n s' -> fill_frame s s' -> classDict s' = classDict s ->
     Q (Ok tt) s') ->
  wp (target_set_setitem r c v) Q s.
Proof.
  intros [Ha (b & Hb & Hn & Hc & Hrect)] Hr Hcl HQ.
  unfold wp. rewrite (target_set_setitem_run r c v s b) by (done || lia).
  cbn [fst snd]. apply HQ; [|auto with fill|done].
  split; [done|]. eexists. split; [done|]. simpl.
  unfold nrows; simpl. rewrite length_alter.
  auto using rectangular_setitem.
Qed.

Lemma fill_inv_frame n feats s s' :
  fill_inv n feats s -> fill_frame s s' -> shaped n s' -> fill_inv n feats s'.
Proof.
  unfold fill_inv, classified, fill_frame.
  intros (Hf & (Hi & Ht) & _) (_ & Hf' & Hi' & Ht' & _) Hs.
  rewrite Hf', Hi', Ht'. auto.
Qed.

Lemma shaped_set_classDict n d s : shaped n s -> shaped n (set_classDict d s).
Proof. exact id. Qed.

Lemma wp_classDict_index f v (Q : outcome nat -> Self -> Prop) s :
  (forall i, code_of (classDict s) f v = Some i -> Q (Ok i) s) ->
  is_Some (code_of (classDict s) f v) ->
  wp (classDict_index f v) Q s.
Proof.
  intros HQ [i Hi]. specialize (HQ i Hi). revert Hi HQ.
  unfold wp, code_of, classDict_index, list_index_value, mbind, M_bind, gets, lift.
  simpl. destruct (classDict s !! f) as [vs|]; simpl; [|done].
  now intros ->.
Qed.

Lemma in_input_features s f k :
  classified s -> (f, k) ∈ features s -> k = "continuous" ∨ k = "class" ->
  (f, k) ∈ input_features s.
Proof.
  intros [-> _] Hin Hk. apply list_elem_of_filter. split; [|done].
  unfold is_input; simpl. destruct Hk as [-> | ->]; now vm_compute.
Qed.

Lemma in_target_features s f k :
  classified s -> (f, k) ∈ features s ->
  k = "target_continuous" ∨ k = "target_class" ->
  (f, k) ∈ target_features s.
Proof.
  intros [_ ->] Hin Hk. apply list_elem_of_filter. split; [|done].
  unfold is_target; simpl. destruct Hk as [-> | ->]; now vm_compute.
Qed.

Lemma fill_cell_run r row f k n feats s :
  fill_inv n feats s -> r < n -> (f, k) ∈ feats ->
  wp (fill_cell E r row f k)
     (fun o s' => (fill_inv n feats s' ∧ fill_frame s s') ∧
                  o = cell_outcome (bad_cell E row (f, k))) s.
Proof.
  intros Hinv Hr Hin.
  assert (Hdone : forall s', shaped n s' -> fill_frame s s' ->
            fill_inv n feats s' ∧ fill_frame s s').
  { eauto using fill_inv_frame. }
  destruct Hinv as (Hf & Hcl & Hsh). subst feats.
  unfold fill_cell, bad_cell, float_; simpl.
  destruct (row !! f) as [v|]; [|wp_steps; auto with fill].
  destruct (decide (k = "continuous")) as [->|Hk1].
  { destruct (list_index_keys _ _ _ (in_input_features _ _ _ Hcl Hin (or_introl eq_refl)))
      as (c & Hc & Hlt).
    do 5 wp_step. unfold stored_value.
    destruct v as [text|].
    - destruct (decide (Str text = Str "")) as [Hv|Hv].
      + injection Hv as ->. rewrite (decide_True (P := "" = "")) by done.
        rewrite decide_False by (intros [_ ?]; discriminate).
        eapply wp_input_set_setitem; eauto.
      + rewrite (decide_False (P := text = "")) by congruence.
        wp_steps.
        * rewrite decide_False by (intros [_ ?]; discriminate).
          eapply wp_input_set_setitem; eauto.
        * rewrite decide_True by tauto. auto with fill.
    - rewrite decide_False by discriminate. wp_steps.
      rewrite decide_True by tauto. auto with fill. }
  destruct (decide (k = "target_continuous")) as [->|Hk2].
  { destruct (list_index_keys _ _ _ (in_target_features _ _ _ Hcl Hin (or_introl eq_refl)))
      as (c & Hc & Hlt).
    do 5 wp_step. unfold stored_value.
    destruct v as [text|].
    - destruct (decide (Str text = Str "")) as [Hv|Hv].
      + injection Hv as ->. rewrite (decide_True (P := "" = "")) by done.
        rewrite decide_False by (intros [_ ?]; discriminate).
        eapply wp_target_set_setitem; eauto.
      + rewrite (decide_False (P := text = "")) by congruence.
        wp_steps.
        * rewrite decide_False by (intros [_ ?]; discriminate).
          eapply wp_target_set_setitem; eauto.
        * rewrite decide_True by tauto. auto with fill.
    - rewrite decide_False by discriminate. wp_steps.
      rewrite decide_True by tauto. auto with fill. }
  rewrite (decide_False (P := (_ ∨ _) ∧ _)) by (intros ([?|?] & _); congruence).
  destruct (decide (k = "class")) as [->|Hk3].
  { destruct (list_index_keys _ _ _ (in_input_features _ _ _ Hcl Hin (or_intror eq_refl)))
      as (c & Hc & Hlt).
    do 6 wp_step. simpl. wp_step.
    destruct (code_of_dict_add f v (classDict s)) as (i & Hi & _).
    apply wp_bind, wp_classDict_index; simpl; [|eauto].
    intros j _.
    eapply wp_input_set_setitem; eauto using shaped_set_classDict.
    intros s' Hs' Hfr _. split; [|done]. apply Hdone; [done|].
    revert Hfr. unfold fill_frame; simpl. intros (?&?&?&?&?&?&?&?&?).
    eauto 10 using dict_le_trans, dict_add_le. }
  destruct (decide (k = "target_class")) as [->|Hk4].
  { destruct (list_index_keys _ _ _ (in_target_features _ _ _ Hcl Hin (or_intror eq_refl)))
      as (c & Hc & Hlt).
    do 6 wp_step. simpl. wp_step.
    destruct (code_of_dict_add f v (classDict s)) as (i & Hi & _).
    apply wp_bind, wp_classDict_index; simpl; [|eauto].
    intros j _.
    eapply wp_target_set_setitem; eauto using shaped_set_classDict.
    intros s' Hs' Hfr _. split; [|done]. apply Hdone; [done|].
    revert Hfr. unfold fill_frame; simpl. intros (?&?&?&?&?&?&?&?&?).
    eauto 10 using dict_le_trans, dict_add_le. }
  wp_steps. auto with fill.
Qed.

Lemma np_ndarray_shape k n m :
  nrows (np_ndarray E k n m) = n ∧ ncols (np_ndarray E k n m) = m ∧
  rectangular (np_ndarray E k n m).
Proof.
  unfold nrows, rectangular, np_ndarray; simpl.
  rewrite length_fmap, length_seq. split; [done|]. split; [done|].
  apply Forall_fmap, Forall_forall. intros r _. simpl.
  now rewrite length_fmap, length_seq.
Qed.

Lemma fill_matrices_run s :
  classified s ->
  wp (fill_matrices E)
     (fun o s' => o = fill_outcome E (csvFileName s) (features s) ∧
        forall rows, open_csv E (csvFileName s) = Records rows ->
                     fill_inv (length rows) (features s) s') s.
Proof.
  intros Hcl. unfold fill_matrices, _get_csv_rowcount, read_csv, fill_outcome.
  destruct (open_csv E (csvFileName s)) as [e|rows] eqn:Hopen.
  { wp_steps. split; [done|]. intros ? [=]. }
  wp_steps. simpl. wp_steps.
  set (s2 := set_target_set _ _).
  assert (Hinv : fill_inv (length rows) (features s) s2).
  { split; [done|]. split; [done|]. subst s2. split; simpl.
    - eexists. split; [done|]. apply np_ndarray_shape.
    - eexists. split; [done|]. apply np_ndarray_shape. }
  eapply wp_mono;
    [|apply (wp_for_first (fill_inv (length rows) (features s))
               (fun p => head (omap (bad_cell E p.2) (features s)))); [done|]].
  - intros o s' [Hs' ->]. split; [|now intros ? [= <-]].
    unfold bad_cells. rewrite head_flat_map.
    now rewrite <- (omap_enumerate
      (fun row => head (omap (bad_cell E row) (features s)))).
  - intros [r row] s3 Hin%elem_of_enumerate H3. wp_steps. simpl.
    destruct H3 as (Hf & H3). rewrite Hf.
    apply wp_for_first; [done|].
    intros [f k] s4 Hfk H4.
    eapply wp_mono; [|apply (fill_cell_run r row f k _ _ _ H4 Hin Hfk)].
    now intros o s' [[? _] ->].
Qed.

(** What [fill_cell] does with a continuous cell. *)
Lemma fill_cell_continuous r row f k v n feats s :
  fill_inv n feats s -> r < n -> (f, k) ∈ feats ->
  k = "continuous" ∨ k = "target_continuous" ->
  row !! f = Some v ->
  exists c a, column_of k s f = Some c ∧ matrix_of k s = Some a ∧
    r < nrows a ∧ c < ncols a ∧ rectangular a ∧
    fill_cell E r row f k s =
      match stored_value E v with
      | Some x => (Ok tt, set_matrix_of k (Some (setcell a r c x)) s)
      | None => (Raise (float_error v), s)
      end.
Proof.
  intros (<- & Hcl & (a & Ha & Hna & Hca & Hra) & (b & Hb & Hnb & Hcb & Hrb))
    Hr Hin Hk Hrow.
  unfold fill_cell, stored_value, float_. rewrite Hrow.
  destruct Hk as [-> | ->].
  - destruct (list_index_keys _ _ _
      (in_input_features _ _ _ Hcl Hin (or_introl eq_refl))) as (c & Hc & Hlt).
    exists c, a. unfold column_of, matrix_of, set_matrix_of. simpl.
    unfold list_index in Hc.
    destruct (index f (keys (input_features s))) as [c'|] eqn:Hi; [|done].
    injection Hc as ->.
    repeat split; [done|lia|lia|done|].
    apply wp_eq. do 4 wp_step. unfold list_index. rewrite Hi. cbv beta iota.
    destruct v as [text|]; [|now wp_steps].
    destruct (decide (Str text = Str "")) as [Hv|Hv].
    + injection Hv as ->. rewrite (decide_True (P := "" = "")) by done.
      unfold wp. now rewrite (input_set_setitem_run r c nan s a) by (done || lia).
    + rewrite (decide_False (P := text = "")) by congruence.
      wp_steps; [|done].
      unfold wp. now rewrite (input_set_setitem_run r c _ s a) by (done || lia).
  - destruct (list_index_keys _ _ _
      (in_target_features _ _ _ Hcl Hin (or_introl eq_refl))) as (c & Hc & Hlt).
    exists c, b. unfold column_of, matrix_of, set_matrix_of. simpl.
    unfold list_index in Hc.
    destruct (index f (keys (target_features s))) as [c'|] eqn:Hi; [|done].
    injection Hc as ->.
    repeat split; [done|lia|lia|done|].
    apply wp_eq. do 4 wp_step. unfold list_index. rewrite Hi. cbv beta iota.
    destruct v as [text|]; [|now wp_steps].
    destruct (decide (Str text = Str "")) as [Hv|Hv].
    + injection Hv as ->. rewrite (decide_True (P := "" = "")) by done.
      unfold wp. now rewrite (target_set_setitem_run r c nan s b) by (done || lia).
    + rewrite (decide_False (P := text = "")) by congruence.
      wp_steps; [|done].
      unfold wp. now rewrite (target_set_setitem_run r c _ s b) by (done || lia).
Qed.

(** What [fill_cell] does with a cell of a class field. *)
Lemma fill_cell_class r row f k v n feats s :
  fill_inv n feats s -> r < n -> (f, k) ∈ feats ->
  k = "class" ∨ k = "target_class" ->
  row !! f = Some v ->
  exists c a i, column_of k s f = Some c ∧ matrix_of k s = Some a ∧
    r < nrows a ∧ c < ncols a ∧ rectangular a ∧
    code_of (dict_add f v (classDict s)) f v = Some i ∧
    fill_cell E r row f k s =
      (Ok tt, set_matrix_of k (Some (setcell a r c (float_of_nat i)))
                (set_classDict (dict_add f v (classDict s)) s)).
Proof.
  intros (<- & Hcl & (a & Ha & Hna & Hca & Hra) & (b & Hb & Hnb & Hcb & Hrb))
    Hr Hin Hk Hrow.
  destruct (code_of_dict_add f v (classDict s)) as (i & Hi & _).
  unfold fill_cell. rewrite Hrow.
  destruct Hk as [-> | ->].
  - destruct (list_index_keys _ _ _
      (in_input_features _ _ _ Hcl Hin (or_intror eq_refl))) as (c & Hc & Hlt).
    exists c, a, i. unfold column_of, matrix_of, set_matrix_of. simpl.
    unfold list_index in Hc.
    destruct (index f (keys (input_features s))) as [c'|] eqn:Hix; [|done].
    injection Hc as ->.
    repeat split; [done|lia|lia|done|done|].
    apply wp_eq. do 6 wp_step. simpl. unfold list_index. rewrite Hix.
    cbv beta iota.
    apply wp_bind, wp_classDict_index; simpl; [|eauto].
    intros j Hj. rewrite Hi in Hj. injection Hj as <-.
    unfold wp. now rewrite (input_set_setitem_run r c _ _ a) by (done || lia).
  - destruct (list_index_keys _ _ _
      (in_target_features _ _ _ Hcl Hin (or_intror eq_refl))) as (c & Hc & Hlt).
    exists c, b, i. unfold column_of, matrix_of, set_matrix_of. simpl.
    unfold list_index in Hc.
    destruct (index f (keys (target_features s))) as [c'|] eqn:Hix; [|done].
    injection Hc as ->.
    repeat split; [done|lia|lia|done|done|].
    apply wp_eq. do 6 wp_step. simpl. unfold list_index. rewrite Hix.
    cbv beta iota.
    apply wp_bind, wp_classDict_index; simpl; [|eauto].
    intros j Hj. rewrite Hi in Hj. injection Hj as <-.
    unfold wp. now rewrite (target_set_setitem_run r c _ _ b) by (done || lia).
Qed.

End Fill.

(** * The constructor *)

Section Init.
Context (E : Env).

Lemma filter_filter_sub {A} (P Q : A -> Prop)
    `{!forall x, Decision (P x), !forall x, Decision (Q x)} (l : list A) :
  (forall x, P x -> Q x) -> filter P (filter Q l) = filter P l.
Proof.
  intros HPQ. induction l as [|x l IH]; [done|].
  rewrite !filter_cons. destruct (decide (Q x)) as [HQ|HQ].
  - rewrite filter_cons, IH. done.
  - rewrite IH. rewrite decide_False; [done|]. intros HP. apply HQ, HPQ, HP.
Qed.

Lemma new_object_classified name fs cd nm : classified (new_object name fs cd nm).
Proof.
  unfold classified, new_object; simpl. split.
  - symmetry. apply filter_filter_sub. now intros p [? _].
  - symmetry. apply filter_filter_sub. now intros p [? _].
Qed.

Lemma normalize_unset s :
  nan_behaviour s = None ->
  _normalize E s = (Raise (AttributeError "nan_behaviour"), s).
Proof.
  intros H. unfold _normalize, mbind, M_bind, gets, required. now rewrite H.
Qed.

(** The constructor ends where filling ends, or at the first line of
    [_normalize]. *)
Lemma init_run name fs cd nm nb :
  __init__ E name fs cd nm nb =
  (match (fill_matrices E (new_object name fs cd nm)).1 with
   | Ok _ => Raise (AttributeError "nan_behaviour")
   | Raise e => Raise e
   end,
   (fill_matrices E (new_object name fs cd nm)).2).
Proof.
  unfold __init__, _construct_matrices.
  pose proof (fill_matrices_frame E (new_object name fs cd nm)) as Hfr.
  unfold wp in Hfr. unfold mbind, M_bind.
  destruct (fill_matrices E (new_object name fs cd nm)) as [[[]|e] s1];
    simpl in *; [|done].
  rewrite normalize_unset; [done|].
  now destruct Hfr as (_&_&_&_&_&_&_&->&_).
Qed.

Lemma init_outcome name fs cd nm nb :
  (__init__ E name fs cd nm nb).1 =
  match fill_outcome E name (filter (fun p => p.2 ≠ "ignore") fs) with
  | Ok _ => Raise (AttributeError "nan_behaviour")
  | Raise e => Raise e
  end.
Proof.
  rewrite init_run. simpl.
  pose proof (fill_matrices_run E _ (new_object_classified name fs cd nm)) as [-> _].
  done.
Qed.

End Init.

Lemma bad_cells_elem E feats rows e :
  e ∈ bad_cells E feats rows ->
  exists row f k v, row ∈ rows ∧ (f, k) ∈ feats ∧
    (k = "continuous" ∨ k = "target_continuous") ∧
    row !! f = Some v ∧ stored_value E v = None ∧ e = float_error v.
Proof.
  unfold bad_cells. intros He. apply list_elem_of_In, in_flat_map in He.
  destruct He as (row & Hrow & He). apply list_elem_of_In in Hrow, He.
  apply list_elem_of_omap in He as ([f k] & Hin & Hbad).
  unfold bad_cell in Hbad. simpl in Hbad.
  destruct (row !! f) as [v|] eqn:Hf; [|done].
  case_decide as Hc; [|done]. injection Hbad as <-.
  exists row, f, k, v. tauto.
Qed.

(** C1, as amended: construction never returns.  It raises the exception
    of [open] or of the csv reader when the file cannot be opened or read;
    else the exception of [float] for the first cell, in reading order, of
    a continuous field that [float] rejects, which is [TypeError] for the
    [None] of a record shorter than the header and [ValueError] for a
    string neither empty nor numeric; and in every other case the
    [AttributeError] of [_normalize] reading [self.nan_behaviour], which
    [__init__] assigns only after [_construct_matrices] has returned. *)
Theorem init_always_raises (E : Env) (name : string) (fs : dict string)
    (cd : ClassDict) (nm : gmap string Stats) (nb : string) :
  exists e, (__init__ E name fs cd nm nb).1 = Raise e ∧
    match open_csv E name with
    | Unreadable e' => e = e'
    | Records rows =>
        let kept := filter (fun p => p.2 ≠ "ignore") fs in
        e = default (AttributeError "nan_behaviour")
              (head (bad_cells E kept rows)) ∧
        (e = AttributeError "nan_behaviour" ∨
         exists row f k v,
           row ∈ rows ∧ (f, k) ∈ kept ∧
           (k = "continuous" ∨ k = "target_continuous") ∧
           row !! f = Some v ∧
           match v with
           | Str text => text ≠ "" ∧ builtin_float E text = None ∧
                         e = ValueError (CouldNotConvert text)
           | PyNone => e = TypeError
           end)
    end.
Proof.
  rewrite init_outcome. unfold fill_outcome.
  destruct (open_csv E name) as [e'|rows]; [eauto|].
  destruct (head (bad_cells E _ rows)) as [e'|] eqn:Hbad; simpl.
  - exists e'. split; [done|]. split; [done|]. right.
    apply head_Some_elem_of, bad_cells_elem in Hbad
      as (row & f & k & v & Hrow & Hin & Hk & Hf & Hst & ->).
    exists row, f, k, v. repeat (split; [done|]).
    destruct v as [text|]; [|done]. unfold stored_value in Hst. simpl.
    case_decide; [done|]. subst. auto.
  - exists (AttributeError "nan_behaviour"). auto.
Qed.

Lemma dict_add_seen f v d j : code_of d f v = Some j -> dict_add f v d = d.
Proof.
  unfold code_of, dict_add. destruct (d !! f) as [vs|] eqn:Hf; simpl; [|done].
  intros Hj. rewrite Hf. simpl.
  rewrite decide_True; [done|].
  eapply list_elem_of_lookup_2, index_Some_lookup, Hj.
Qed.

Lemma matrix_of_set_matrix_of k a s : matrix_of k (set_matrix_of k a s) = a.
Proof. unfold matrix_of, set_matrix_of. now destruct (contains "target" k). Qed.

Lemma classDict_set_matrix_of k a s : classDict (set_matrix_of k a s) = classDict s.
Proof. unfold set_matrix_of. now destruct (contains "target" k). Qed.

(** C10, as amended: when the fill loop stores a field of kind
    [continuous] or [target_continuous] of record [r], an empty string is
    stored as NaN and a string that [float] accepts as its value, in row
    [r] and the field's column of its matrix; a non-empty string that
    [float] rejects raises the [ValueError] of [float], which carries that
    string and neither the record index nor the field name, and leaves the
    object as it was. *)
Theorem fill_cell_stores_continuous (E : Env) (r : nat)
    (row : gmap string pyval) (f k v : string) (n : nat)
    (feats : dict string) (s : Self) :
  fill_inv n feats s -> r < n -> (f, k) ∈ feats ->
  k = "continuous" ∨ k = "target_continuous" ->
  row !! f = Some (Str v) ->
  exists c, column_of k s f = Some c ∧
    match (if decide (v = "") then Some nan else builtin_float E v) with
    | Some x => exists s' a, fill_cell E r row f k s = (Ok tt, s') ∧
                  matrix_of k s' = Some a ∧ cell a r c = Some x
    | None => fill_cell E r row f k s = (Raise (ValueError (CouldNotConvert v)), s)
    end.
Proof.
  intros Hinv Hr Hin Hk Hrow.
  destruct (fill_cell_continuous E r row f k (Str v) n feats s Hinv Hr Hin Hk Hrow)
    as (c & a & Hc & Ha & Hra & Hca & Hrect & Hrun).
  exists c. split; [done|]. unfold stored_value, float_error in Hrun.
  destruct (if decide (v = "") then Some nan else builtin_float E v) as [x|];
    [|done].
  eexists _, _. split; [exact Hrun|].
  rewrite matrix_of_set_matrix_of. split; [done|].
  now apply cell_setcell.
Qed.

(** C7: the class dictionary is append-only and its codes are stable.
    Whatever construction does, every list of the dictionary it was given
    is a prefix of the list the dictionary holds afterwards, so every code
    of that dictionary is still the code of the same value.  When the fill
    loop stores a class field of a record, the value keeps the code it has,
    and the dictionary is untouched; a value not seen before is appended
    and gets the number of values recorded so far as its code, which is 0
    for the first value of the field; the code found is what is stored in
    the matrix. *)
Theorem classDict_append_only (E : Env) :
  (forall name fs cd nm nb,
     dict_le cd (classDict (__init__ E name fs cd nm nb).2) ∧
     forall f v i, code_of cd f v = Some i ->
       code_of (classDict (__init__ E name fs cd nm nb).2) f v = Some i) ∧
  (forall r row f k v n feats s,
     fill_inv n feats s -> r < n -> (f, k) ∈ feats ->
     k = "class" ∨ k = "target_class" ->
     row !! f = Some v ->
     exists s' a c i,
       fill_cell E r row f k s = (Ok tt, s') ∧
       dict_le (classDict s) (classDict s') ∧
       code_of (classDict s') f v = Some i ∧
       column_of k s f = Some c ∧ matrix_of k s' = Some a ∧
       cell a r c = Some (float_of_nat i) ∧
       (forall j, code_of (classDict s) f v = Some j ->
          i = j ∧ classDict s' = classDict s) ∧
       (code_of (classDict s) f v = None ->
          i = length (default [] (classDict s !! f))) ∧
       (default [] (classDict s !! f) = [] -> i = 0)).
Proof.
  split.
  - intros name fs cd nm nb.
    assert (Hle : dict_le cd (classDict (__init__ E name fs cd nm nb).2)).
    { rewrite init_run. simpl.
      pose proof (fill_matrices_frame E (new_object name fs cd nm)) as Hfr.
      unfold wp in Hfr. now destruct Hfr as (_&_&_&_&_&_&_&_&?). }
    split; [done|]. intros f v i. now apply code_of_le.
  - intros r row f k v n feats s Hinv Hr Hin Hk Hrow.
    destruct (fill_cell_class E r row f k v n feats s Hinv Hr Hin Hk Hrow)
      as (c & a & i & Hc & Ha & Hra & Hca & Hrect & Hi & Hrun).
    destruct (code_of_dict_add f v (classDict s)) as (i' & Hi' & Hval).
    rewrite Hi in Hi'. injection Hi' as <-.
    eexists _, _, c, i. split; [exact Hrun|].
    rewrite classDict_set_matrix_of, matrix_of_set_matrix_of. simpl.
    split; [apply dict_add_le|]. split; [done|]. split; [done|].
    split; [done|]. split; [now apply cell_setcell|].
    split; [|split].
    + intros j Hj. rewrite Hj in Hval. split; [done|].
      eapply dict_add_seen, Hj.
    + intros Hnone. now rewrite Hnone in Hval.
    + intros Hempty. unfold code_of in Hval.
      destruct (classDict s !! f) as [vs|]; simpl in *; [|done].
      subst vs. done.
Qed.

(** * Columns *)

Lemma getcol_column a c : c < ncols a -> getcol a c = Ok (column a c).
Proof. intros Hc. unfold getcol. now rewrite decide_True. Qed.

Lemma getcol_out_of_range a c : (ncols a ≤ c)%nat -> getcol a c = Raise IndexError.
Proof. intros Hc. unfold getcol. rewrite decide_False; [done|lia]. Qed.

Lemma insert_alter_row (g : float -> float) (row : list float) c :
  c < length row -> <[c := g (default nan (row !! c))]> row = alter g c row.
Proof.
  intros Hc. apply list_eq. intros i.
  destruct (lookup_lt_is_Some_2 _ _ Hc) as [x Hx].
  destruct (decide (i = c)) as [->|Hne].
  - rewrite list_lookup_insert_eq, list_lookup_alter_eq by done. now rewrite Hx.
  - now rewrite list_lookup_insert_ne, list_lookup_alter_ne by done.
Qed.

Lemma zip_insert_alter (g : float -> float) c n (rows : list (list float)) :
  Forall (fun row => length row = n) rows -> c < n ->
  zip_with (fun row v => <[c := v]> row) rows
    (g <$> ((fun row => default nan (row !! c)) <$> rows)) = alter g c <$> rows.
Proof.
  intros Hrect Hc. induction Hrect as [|row rows Hrow _ IH]; simpl; [done|].
  f_equal; [apply insert_alter_row; lia | exact IH].
Qed.

Lemma setcol_map_col g a c :
  rectangular a -> c < ncols a ->
  setcol a c (g <$> column a c) = Ok (map_col g c a).
Proof.
  intros Hrect Hc. unfold setcol, column, map_col, nrows.
  rewrite decide_True by done.
  rewrite decide_True by now rewrite !length_fmap.
  f_equal. f_equal. now apply (zip_insert_alter g c (ncols a)).
Qed.

Lemma map_col_shape g c a :
  nrows (map_col g c a) = nrows a ∧ ncols (map_col g c a) = ncols a ∧
  (rectangular a -> rectangular (map_col g c a)).
Proof.
  unfold nrows, rectangular, map_col; simpl. rewrite length_fmap.
  split; [done|]. split; [done|]. intros H.
  apply Forall_fmap. eapply Forall_impl; [exact H|].
  intros row Hrow. simpl. now rewrite length_alter.
Qed.

Lemma cell_map_col g c a r c' :
  cell (map_col g c a) r c' =
  if decide (c = c') then g <$> cell a r c' else cell a r c'.
Proof.
  unfold cell, map_col; simpl. rewrite list_lookup_fmap.
  destruct (cells a !! r) as [row|]; simpl; [|now case_decide].
  case_decide as Hc.
  - subst. apply list_lookup_alter_eq.
  - now apply list_lookup_alter_ne.
Qed.

(** * Dictionaries with distinct keys *)

Lemma dict_get_Some {V} (d : dict V) f v :
  NoDup (keys d) -> (f, v) ∈ d -> dict_get d f = Some v.
Proof.
  unfold keys. induction d as [|[f' v'] d IH]; simpl; intros Hnd Hin.
  - now apply elem_of_nil in Hin.
  - apply NoDup_cons in Hnd as [Hf' Hnd].
    apply elem_of_cons in Hin as [[= -> ->]|Hin].
    + now rewrite decide_True.
    + rewrite decide_False; [now apply IH|].
      intros ->. apply Hf'. apply list_elem_of_fmap. now exists (f', v).
Qed.

Lemma dict_get_elem {V} (d : dict V) f v : dict_get d f = Some v -> (f, v) ∈ d.
Proof.
  induction d as [|[f' v'] d IH]; simpl; [done|].
  case_decide as Hf.
  - intros [= ->]. subst. left.
  - intros H. right. now apply IH.
Qed.

Lemma keys_filter_NoDup {V} (P : string * V -> Prop)
    `{!forall p, Decision (P p)} (d : list (string * V)) :
  NoDup (keys d) -> NoDup (keys (filter P d)).
Proof.
  unfold keys. induction d as [|[f v] d IH]; intros Hnd; [constructor|].
  rewrite fmap_cons in Hnd. apply NoDup_cons in Hnd as [Hf Hnd].
  rewrite filter_cons. case_decide; [|now apply IH].
  rewrite fmap_cons. apply NoDup_cons. split; [|now apply IH].
  intros Hin. apply Hf.
  apply list_elem_of_fmap in Hin as ([f' v'] & -> & Hin).
  apply list_elem_of_filter in Hin as [_ Hin].
  apply list_elem_of_fmap. now exists (f', v').
Qed.

(** Distinct keys have distinct positions. *)
Lemma index_inj {A} `{EqDecision A} (x y : A) l i : index x l = Some i -> index y l = Some i -> x = y.
Proof.
  intros Hx%index_Some_lookup Hy%index_Some_lookup. congruence.
Qed.

(** * [_normalize] *)

Lemma set_norm_id s : set_norm (norm s) s = s.
Proof. now destruct s. Qed.

Lemma dict_functional {V} (d : dict V) f v v' :
  NoDup (keys d) -> (f, v) ∈ d -> (f, v') ∈ d -> v = v'.
Proof.
  intros Hnd H1%(dict_get_Some _ _ _ Hnd) H2%(dict_get_Some _ _ _ Hnd).
  congruence.
Qed.

Section Normalize.
Context (E : Env).

Lemma dict_get_input_features n s f k :
  prepared n s -> (f, k) ∈ features s ->
  dict_get (input_features s) f = Some "continuous" <-> k = "continuous".
Proof.
  intros (Hcl & Hnd & _) Hin. split.
  - intros Hget%dict_get_elem. destruct Hcl as [Hi _]. rewrite Hi in Hget.
    apply list_elem_of_filter in Hget as [_ Hget].
    symmetry. eapply dict_functional; eauto.
  - intros ->. apply dict_get_Some.
    + destruct Hcl as [-> _]. now apply keys_filter_NoDup.
    + apply in_input_features; auto.
Qed.

Lemma dict_get_target_features n s f k :
  prepared n s -> (f, k) ∈ features s ->
  dict_get (target_features s) f = Some "target_continuous" <->
  k = "target_continuous".
Proof.
  intros (Hcl & Hnd & _) Hin. split.
  - intros Hget%dict_get_elem. destruct Hcl as [_ Ht]. rewrite Ht in Hget.
    apply list_elem_of_filter in Hget as [_ Hget].
    symmetry. eapply dict_functional; eauto.
  - intros ->. apply dict_get_Some.
    + destruct Hcl as [_ ->]. now apply keys_filter_NoDup.
    + apply in_target_features; auto.
Qed.

Lemma normalize_other_run n s f k :
  prepared n s -> (f, k) ∈ features s ->
  k ≠ "continuous" -> k ≠ "target_continuous" ->
  normalize_feature E f s = (Ok tt, s).
Proof.
  intros Hp Hin Hk1 Hk2. unfold normalize_feature.
  apply wp_eq. do 4 wp_step.
  rewrite decide_False by now rewrite (dict_get_input_features n s f k).
  rewrite decide_False by now rewrite (dict_get_target_features n s f k).
  now wp_step.
Qed.

Lemma normalize_input_run n s f :
  prepared n s -> (f, "continuous") ∈ features s ->
  exists c a, index f (keys (input_features s)) = Some c ∧
    input_set s = Some a ∧ c < ncols a ∧
    normalize_feature E f s =
      let st := stats_for E (norm s) f (column a c) in
      (Ok tt, set_input_set (Some (map_col (z_score st) c a))
                (set_norm (<[f := st]> (norm s)) s)).
Proof.
  intros Hp Hin.
  pose proof Hp as (Hcl & Hnd & (a & Ha & Hna & Hca & Hra) & _).
  destruct (list_index_keys _ _ _
    (in_input_features _ _ _ Hcl Hin (or_introl eq_refl))) as (c & Hc & Hlt).
  exists c, a. unfold list_index in Hc.
  destruct (index f (keys (input_features s))) as [c'|] eqn:Hix; [|done].
  injection Hc as ->. repeat split; [done|lia|].
  unfold normalize_feature, stats_for. apply wp_eq. do 4 wp_step.
  rewrite decide_True by now rewrite (dict_get_input_features n s f "continuous").
  do 2 wp_step. unfold list_index. rewrite Hix. cbv beta iota.
  do 3 wp_step. destruct (norm s !! f) as [st|] eqn:Hst.
  - rewrite decide_False by done. wp_step.
    apply wp_bind, (wp_the_input_set a); [done|].
    wp_step. wp_step. rewrite getcol_column by lia. cbv beta iota.
    do 3 wp_step. rewrite Hst. cbv beta iota.
    wp_step. wp_step. rewrite setcol_map_col by (done || lia). cbv beta iota.
    wp_step. rewrite insert_id by done. now rewrite set_norm_id.
  - rewrite decide_True by done.
    apply wp_bind, (wp_the_input_set a); [done|].
    wp_step. wp_step. rewrite getcol_column by lia. cbv beta iota.
    wp_step.
    apply wp_bind, (wp_the_input_set a); [done|].
    wp_step. wp_step. rewrite getcol_column by lia. cbv beta iota.
    do 3 wp_step. simpl. rewrite lookup_insert_eq. cbv beta iota.
    wp_step. wp_step. rewrite setcol_map_col by (done || lia). cbv beta iota.
    now wp_step.
Qed.

Lemma normalize_target_run n s f :
  prepared n s -> (f, "target_continuous") ∈ features s ->
  exists c a b, index f (keys (target_features s)) = Some c ∧
    input_set s = Some a ∧ target_set s = Some b ∧ c < ncols b ∧
    normalize_feature E f s =
      match norm s !! f with
      | Some st => (Ok tt, set_target_set (Some (map_col (z_score st) c b)) s)
      | None =>
          if decide (c < ncols a) then
            let st := {| mean := np_nanmean E (column a c);
                         std := np_nanstd E (column a c) |} in
            (Ok tt, set_target_set (Some (map_col (z_score st) c b))
                      (set_norm (<[f := st]> (norm s)) s))
          else (Raise IndexError, s)
      end.
Proof.
  intros Hp Hin.
  pose proof Hp as (Hcl & Hnd & (a & Ha & Hna & Hca & Hra) &
                    (b & Hb & Hnb & Hcb & Hrb)).
  destruct (list_index_keys _ _ _
    (in_target_features _ _ _ Hcl Hin (or_introl eq_refl))) as (c & Hc & Hlt).
  exists c, a, b. unfold list_index in Hc.
  destruct (index f (keys (target_features s))) as [c'|] eqn:Hix; [|done].
  injection Hc as ->. repeat split; [done|done|lia|].
  unfold normalize_feature. apply wp_eq. do 4 wp_step.
  rewrite decide_False
    by now rewrite (dict_get_input_features n s f "target_continuous").
  rewrite decide_True
    by now rewrite (dict_get_target_features n s f "target_continuous").
  do 2 wp_step. unfold list_index. rewrite Hix. cbv beta iota.
  do 3 wp_step. destruct (norm s !! f) as [st|] eqn:Hst.
  - rewrite decide_False by done. wp_step.
    apply wp_bind, (wp_the_target_set b); [done|].
    wp_step. wp_step. rewrite getcol_column by lia. cbv beta iota.
    do 3 wp_step. rewrite Hst. cbv beta iota.
    wp_step. wp_step. rewrite setcol_map_col by (done || lia). cbv beta iota.
    now wp_step.
  - rewrite decide_True by done.
    apply wp_bind, (wp_the_input_set a); [done|].
    wp_step. wp_step. destruct (decide (c < ncols a)) as [Hin_range|Hout].
    + rewrite getcol_column by lia. cbv beta iota. wp_step.
      apply wp_bind, (wp_the_target_set b); [done|].
      wp_step. wp_step. rewrite getcol_column by lia. cbv beta iota.
      do 3 wp_step. simpl. rewrite lookup_insert_eq. cbv beta iota.
      wp_step. wp_step. rewrite setcol_map_col by (done || lia). cbv beta iota.
      now wp_step.
    + now rewrite getcol_out_of_range by lia.
Qed.

Lemma prepared_same_schema n s s' :
  prepared n s -> same_schema s s' -> shaped n s' -> prepared n s'.
Proof.
  unfold prepared, classified. intros ((Hi & Ht) & Hnd & _) (Hf & Hi' & Ht') Hs.
  rewrite Hf, Hi', Ht'. auto.
Qed.

Lemma shaped_map_col_input n s g c a nm :
  shaped n s -> input_set s = Some a ->
  shaped n (set_input_set (Some (map_col g c a)) (set_norm nm s)).
Proof.
  intros [(a' & Ha' & Hn & Hc & Hr) Hb] Ha. rewrite Ha in Ha'.
  injection Ha' as <-. split; [|done]. eexists. split; [done|].
  destruct (map_col_shape g c a) as (-> & -> & Hrect). auto.
Qed.

Lemma shaped_map_col_target n s g c b nm :
  shaped n s -> target_set s = Some b ->
  shaped n (set_target_set (Some (map_col g c b)) (set_norm nm s)).
Proof.
  intros [Ha (b' & Hb' & Hn & Hc & Hr)] Hb. rewrite Hb in Hb'.
  injection Hb' as <-. split; [done|]. eexists. split; [done|].
  destruct (map_col_shape g c b) as (-> & -> & Hrect). auto.
Qed.

(** One iteration of the loop of [_normalize]: the schema and the shapes
    stay, entries of [norm] stay, the column of the field is scaled with
    its entry and no other column of either matrix changes; only a target
    field without an entry can raise. *)
Lemma normalize_feature_step n s g kg :
  prepared n s -> (g, kg) ∈ features s ->
  wp (normalize_feature E g) (fun o s' =>
    prepared n s' ∧ same_schema s s' ∧
    (forall h st, norm s !! h = Some st -> norm s' !! h = Some st) ∧
    (o = Ok tt ->
       forall f0 k0 st0 c0 a0,
         (f0, k0) ∈ features s ->
         k0 = "continuous" ∨ k0 = "target_continuous" ->
         norm s !! f0 = Some st0 ->
         column_of k0 s f0 = Some c0 -> matrix_of k0 s = Some a0 ->
         exists a', matrix_of k0 s' = Some a' ∧
           col_mapped (if decide (g = f0) then z_score st0 else id) c0 a0 a') ∧
    (o ≠ Ok tt -> kg = "target_continuous" ∧ norm s !! g = None)) s.
Proof.
  intros Hp Hin. pose proof Hp as (Hcl & Hnd & Hsh).
  assert (Hid : forall k0 a0 c0 f0 (st0 : Stats),
    g ≠ f0 -> matrix_of k0 s = Some a0 ->
    exists a', matrix_of k0 s = Some a' ∧
      col_mapped (if decide (g = f0) then z_score st0 else id) c0 a0 a').
  { intros k0 a0 c0 f0 st0 Hne Ha0. exists a0. split; [done|].
    rewrite decide_False by done. intros r. now destruct (cell a0 r c0). }
  destruct (decide (kg = "continuous")) as [->|Hk1].
  { destruct (normalize_input_run n s g Hp Hin) as (c & a & Hc & Ha & Hlt & Hrun).
    unfold wp. rewrite Hrun. cbn [fst snd].
    split; [|split; [done|split; [|split; [|done]]]].
    - eapply prepared_same_schema; [exact Hp|done|].
      now apply shaped_map_col_input.
    - intros h st Hh. simpl. unfold stats_for.
      destruct (decide (g = h)) as [->|Hne].
      + rewrite Hh. now rewrite lookup_insert_eq.
      + now rewrite lookup_insert_ne.
    - intros _ f0 k0 st0 c0 a0 Hin0 Hk0 Hst0 Hc0 Ha0.
      unfold column_of, matrix_of in *.
      destruct Hk0 as [-> | ->]; simpl in *.
      + rewrite Ha in Ha0. injection Ha0 as <-.
        eexists. split; [done|]. intros r. rewrite cell_map_col.
        destruct (decide (g = f0)) as [->|Hne].
        * rewrite Hc in Hc0. injection Hc0 as <-.
          rewrite decide_True by done. unfold stats_for. now rewrite Hst0.
        * rewrite decide_False; [now destruct (cell a r c0)|].
          intros ->. apply Hne. eapply index_inj; eauto.
      + destruct (decide (g = f0)) as [->|Hne].
        * pose proof (dict_functional _ _ _ _ Hnd Hin Hin0). done.
        * exists a0. split; [done|]. intros r. now destruct (cell a0 r c0). }
  destruct (decide (kg = "target_continuous")) as [->|Hk2].
  { destruct (normalize_target_run n s g Hp Hin)
      as (c & a & b & Hc & Ha & Hb & Hlt & Hrun).
    assert (Hcells : forall st f0 k0 st0 c0 a0 nm,
      (f0, k0) ∈ features s ->
      k0 = "continuous" ∨ k0 = "target_continuous" ->
      (g = f0 -> st = st0) ->
      column_of k0 s f0 = Some c0 -> matrix_of k0 s = Some a0 ->
      exists a', matrix_of k0
          (set_target_set (Some (map_col (z_score st) c b)) (set_norm nm s))
          = Some a' ∧
        col_mapped (if decide (g = f0) then z_score st0 else id) c0 a0 a').
    { intros st f0 k0 st0 c0 a0 nm Hin0 Hk0 Hst Hc0 Ha0.
      unfold column_of, matrix_of in *.
      destruct Hk0 as [-> | ->]; simpl in *.
      - destruct (decide (g = f0)) as [->|Hne].
        + pose proof (dict_functional _ _ _ _ Hnd Hin Hin0). done.
        + exists a0. split; [done|]. intros r. now destruct (cell a0 r c0).
      - rewrite Hb in Ha0. injection Ha0 as <-.
        eexists. split; [done|]. intros r. rewrite cell_map_col.
        destruct (decide (g = f0)) as [->|Hne].
        + rewrite Hc in Hc0. injection Hc0 as <-.
          rewrite decide_True by done. now rewrite Hst.
        + rewrite decide_False; [now destruct (cell b r c0)|].
          intros ->. apply Hne. eapply index_inj; eauto. }
    unfold wp. rewrite Hrun. destruct (norm s !! g) as [st|] eqn:Hst.
    - cbn [fst snd]. split; [|split; [done|split; [done|split; [|done]]]].
      + eapply prepared_same_schema; [exact Hp|done|].
        rewrite <- (set_norm_id s) at 1. now apply shaped_map_col_target.
      + intros _ f0 k0 st0 c0 a0 Hin0 Hk0 Hst0 Hc0 Ha0.
        destruct (Hcells st f0 k0 st0 c0 a0 (norm s) Hin0 Hk0) as (a' & Ha' & Hm);
          [intros <-; congruence|done|done|].
        exists a'. split; [|done]. now rewrite set_norm_id in Ha'.
    - case_decide as Hrange; cbn [fst snd].
      + split; [|split; [done|split; [|split; [|done]]]].
        * eapply prepared_same_schema; [exact Hp|done|].
          now apply shaped_map_col_target.
        * intros h st Hh. simpl.
          rewrite lookup_insert_ne; [done|]. intros ->. congruence.
        * intros _ f0 k0 st0 c0 a0 Hin0 Hk0 Hst0 Hc0 Ha0.
          eapply Hcells; eauto. intros <-. congruence.
      + split; [done|]. split; [done|]. split; [done|]. split; [done|done]. }
  unfold wp. rewrite (normalize_other_run n s g kg) by done. cbn [fst snd].
  split; [done|]. split; [done|]. split; [done|]. split; [|done].
  intros _ f0 k0 st0 c0 a0 Hin0 Hk0 Hst0 Hc0 Ha0.
  apply Hid; [|done]. intros ->.
  pose proof (dict_functional _ _ _ _ Hnd Hin Hin0). destruct Hk0; congruence.
Qed.

Lemma column_of_is_Some n s f k :
  prepared n s -> (f, k) ∈ features s ->
  k = "continuous" ∨ k = "target_continuous" ->
  exists c a, column_of k s f = Some c ∧ matrix_of k s = Some a.
Proof.
  intros (Hcl & _ & (a & Ha & _) & (b & Hb & _)) Hin Hk.
  unfold column_of, matrix_of. destruct Hk as [-> | ->]; simpl.
  - destruct (index_is_Some f (keys (input_features s))) as [c Hc]; [|eauto].
    apply list_elem_of_fmap. exists (f, "continuous"). split; [done|].
    apply in_input_features; auto.
  - destruct (index_is_Some f (keys (target_features s))) as [c Hc]; [|eauto].
    apply list_elem_of_fmap. exists (f, "target_continuous"). split; [done|].
    apply in_target_features; auto.
Qed.

Lemma column_of_same_schema k s s' f :
  same_schema s s' -> column_of k s' f = column_of k s f.
Proof. unfold column_of. now intros (_ & -> & ->). Qed.

Lemma normalize_inv_refl n s : prepared n s -> normalize_inv n s s.
Proof. unfold normalize_inv, same_schema. auto. Qed.

Lemma normalize_inv_step n s s1 g kg :
  normalize_inv n s s1 -> (g, kg) ∈ features s ->
  wp (normalize_feature E g) (fun o s2 =>
    normalize_inv n s s2 ∧
    (o = Ok tt ->
       forall f0 k0 st0 c0 a0,
         (f0, k0) ∈ features s ->
         k0 = "continuous" ∨ k0 = "target_continuous" ->
         norm s !! f0 = Some st0 ->
         column_of k0 s f0 = Some c0 -> matrix_of k0 s1 = Some a0 ->
         exists a', matrix_of k0 s2 = Some a' ∧
           col_mapped (if decide (g = f0) then z_score st0 else id) c0 a0 a') ∧
    (o ≠ Ok tt -> kg = "target_continuous" ∧ norm s !! g = None)) s1.
Proof.
  intros (Hp & Hsch & Hnorm) Hin.
  pose proof Hsch as (Hf & Hi & Ht).
  eapply wp_mono; [|apply (normalize_feature_step n s1 g kg Hp); now rewrite Hf].
  intros o s2 (Hp2 & (Hf2 & Hi2 & Ht2) & Hnorm2 & Hok & Herr).
  split; [|split].
  - split; [done|]. split; [split; [|split]; congruence|]. auto.
  - intros Ho f0 k0 st0 c0 a0 Hin0 Hk0 Hst0 Hc0 Ha0.
    apply (Hok Ho f0 k0 st0 c0 a0); auto; try congruence.
    now rewrite (column_of_same_schema k0 s s1).
  - intros Ho. destruct (Herr Ho) as [-> Hnone]. split; [done|].
    destruct (norm s !! g) as [st|] eqn:Hst; [|done].
    apply Hnorm in Hst. congruence.
Qed.

Lemma normalize_unfold s p :
  nan_behaviour s = Some p -> p ≠ "delete_row" ->
  _normalize E s =
  for_ (features s) (fun '(feature, _) => normalize_feature E feature) s.
Proof.
  intros Hp Hne. unfold _normalize, mbind, M_bind, gets, required.
  rewrite Hp. simpl. now rewrite decide_False.
Qed.

End Normalize.

(** A missing value stays missing under scaling. *)
Lemma z_score_nan st : z_score st nan = nan.
Proof.
  unfold z_score. apply Prim2SF_inj. now rewrite div_spec, sub_spec.
Qed.

Lemma col_mapped_compose g1 g2 c a a' a'' :
  col_mapped g1 c a a' -> col_mapped g2 c a' a'' ->
  col_mapped (g2 ∘ g1) c a a''.
Proof.
  intros H1 H2 r. rewrite H2, H1. now destruct (cell a r c).
Qed.

Lemma col_mapped_ext g g' c a a' :
  (forall x, g x = g' x) -> col_mapped g c a a' -> col_mapped g' c a a'.
Proof.
  intros Hg H r. rewrite H. destruct (cell a r c); simpl; [|done].
  now rewrite Hg.
Qed.

(** * [_hot_encode] *)

Lemma axis_indices_spec k codes :
  axis_indices k codes =
  if decide (Forall (in_axis k) codes)
  then Ok ((fun c => Z.to_nat (c `mod` Z.of_nat k)) <$> codes)
  else Raise IndexError.
Proof.
  induction codes as [|c codes IH]; cbn [axis_indices].
  - now rewrite decide_True by constructor.
  - unfold axis_index. rewrite IH. clear IH. rewrite fmap_cons.
    destruct (decide (0 ≤ c < Z.of_nat k)%Z) as [Hc|Hc]; simpl.
    + destruct (decide (Forall (in_axis k) codes)) as [Hcs|Hcs]; simpl.
      * rewrite decide_True by (constructor; [unfold in_axis; lia|done]).
        now rewrite Z.mod_small.
      * rewrite decide_False; [done|]. now intros [_ ?]%Forall_cons.
    + destruct (decide (- Z.of_nat k ≤ c < 0)%Z) as [Hc'|Hc']; simpl.
      * destruct (decide (Forall (in_axis k) codes)) as [Hcs|Hcs]; simpl.
        -- rewrite decide_True by (constructor; [unfold in_axis; lia|done]).
           do 3 f_equal.
           rewrite <- (Z.mod_add c 1 (Z.of_nat k)) by lia.
           rewrite Z.mod_small; lia.
        -- rewrite decide_False; [done|]. now intros [_ ?]%Forall_cons.
      * rewrite decide_False; [done|].
        intros [Hin _]%Forall_cons. unfold in_axis in Hin. lia.
Qed.

Lemma one_hot_row k c :
  (c < k)%nat ->
  <[c := one]> (replicate k zero) = indicator (Z.of_nat c) <$> seq 0 k.
Proof.
  intros Hc. apply list_eq. intros i.
  rewrite list_lookup_fmap. unfold indicator.
  destruct (decide (i < k)%nat) as [Hi|Hi].
  - rewrite lookup_seq_lt by done. simpl.
    destruct (decide (i = c)) as [->|Hne].
    + rewrite list_lookup_insert_eq by now rewrite length_replicate.
      now rewrite decide_True.
    + rewrite list_lookup_insert_ne by done.
      rewrite lookup_replicate_2 by done.
      rewrite decide_False; [done|lia].
  - rewrite lookup_seq_ge by lia. simpl.
    apply lookup_ge_None_2. rewrite length_insert, length_replicate. lia.
Qed.

Lemma zip_with_replicate_l {A B C} (h : A -> B -> C) (x : A) (l : list B) :
  zip_with h (replicate (length l) x) l = h x <$> l.
Proof. induction l as [|y l IH]; simpl; [done|]. now rewrite IH. Qed.

(** [_hot_encode] on a vector of codes and a class count: it returns
    exactly when there is a class and every code indexes one. *)
Lemma hot_encode_spec codes k :
  _hot_encode (int_vector codes) (Some (Z.of_nat k)) =
  if decide ((1 ≤ k)%nat ∧ Forall (in_axis k) codes)
  then Ok (NDArray (block_width k) (one_hot k <$> codes))
  else Raise IndexError.
Proof.
  unfold _hot_encode, int_vector; simpl.
  unfold np_zeros. rewrite decide_False by lia. simpl.
  unfold setitem_rows; simpl. rewrite Nat2Z.id, axis_indices_spec.
  destruct (decide (Forall (in_axis k) codes)) as [Hcs|Hcs]; simpl.
  2: { rewrite decide_False; [done|]. now intros [_ ?]. }
  assert (Hrows :
    zip_with (fun row j => <[j := one]> row)
      (replicate (length codes) (replicate k zero))
      ((fun c => Z.to_nat (c `mod` Z.of_nat k)) <$> codes)
    = (fun c => <[Z.to_nat (c `mod` Z.of_nat k) := one]> (replicate k zero))
        <$> codes).
  { rewrite zip_with_fmap_r. apply zip_with_replicate_l. }
  rewrite Hrows. clear Hrows.
  destruct (decide (1 ≤ k)%nat) as [Hk|Hk].
  - rewrite (decide_True (P := _ ∧ _)) by done.
    assert (Hrow : forall c,
      <[Z.to_nat (c `mod` Z.of_nat k) := one]> (replicate k zero)
      = indicator (c `mod` Z.of_nat k) <$> seq 0 k).
    { intros c.
      pose proof (Z.mod_pos_bound c (Z.of_nat k) ltac:(lia)) as Hb.
      rewrite one_hot_row by lia. now rewrite Z2Nat.id by lia. }
    unfold block_width, one_hot.
    destruct (decide (k ≤ 2)%nat) as [Hk2|Hk2].
    + rewrite (decide_True (P := (_ ≤ _)%Z)) by lia. unfold getcol; simpl.
      rewrite decide_True by lia. simpl. unfold reshape_column.
      do 2 f_equal. rewrite <- !list_fmap_compose.
      apply list_fmap_ext. intros _ c _. simpl. rewrite Hrow.
      rewrite list_lookup_fmap, lookup_seq_lt by lia. done.
    + rewrite (decide_False (P := (_ ≤ _)%Z)) by lia. do 2 f_equal.
      apply list_fmap_ext. intros _ c _. apply Hrow.
  - rewrite (decide_False (P := _ ∧ _)) by tauto.
    rewrite (decide_True (P := (_ ≤ _)%Z)) by lia. unfold getcol; simpl.
    rewrite decide_False; [done|lia].
Qed.

(** * One-hot blocks in place *)

Lemma hstack3 a1 a2 a3 :
  nrows a1 = nrows a2 -> nrows a2 = nrows a3 ->
  hstack [a1; a2; a3] =
  Ok (NDArray (ncols a1 + (ncols a2 + ncols a3))
        (zip_with app (cells a1) (zip_with app (cells a2) (cells a3)))).
Proof.
  unfold nrows. intros H12 H23. simpl. unfold hstack2 at 2, nrows.
  rewrite decide_True by done. simpl. unfold hstack2, nrows; simpl.
  rewrite decide_True; [done|]. rewrite length_zip_with. lia.
Qed.

Section Blocks.
Context (cd : ClassDict) (cls : string).

Lemma length_one_hot k code : length (one_hot k code) = block_width k.
Proof.
  unfold one_hot, block_width. case_decide; [done|].
  now rewrite length_fmap, length_seq.
Qed.

Lemma length_field_block p x :
  length (field_block cd cls p x) = field_width cd cls p.
Proof.
  unfold field_block, field_width. case_decide; [|done]. apply length_one_hot.
Qed.

Lemma length_encode_row pre row :
  length pre ≤ length row ->
  length (encode_row cd cls pre row) = encoded_width cd cls pre.
Proof.
  unfold encode_row, encoded_width. revert row.
  induction pre as [|p pre IH]; intros [|x row] Hlen; simpl in *;
    [done|done|lia|].
  rewrite length_app, length_field_block, IH; [done|lia].
Qed.

Lemma encode_row_snoc pre p row x :
  row !! length pre = Some x ->
  encode_row cd cls (pre ++ [p]) (take (S (length pre)) row) =
  (encode_row cd cls pre (take (length pre) row) ++ field_block cd cls p x)%list.
Proof.
  intros Hx. unfold encode_row. rewrite (take_S_r _ _ x) by done.
  rewrite zip_with_app.
  - rewrite concat_app. simpl. now rewrite app_nil_r.
  - rewrite length_take. apply lookup_lt_Some in Hx. lia.
Qed.

Lemma encoded_width_snoc pre p :
  encoded_width cd cls (pre ++ [p]) =
  encoded_width cd cls pre + field_width cd cls p.
Proof.
  unfold encoded_width. rewrite sum_list_with_app. simpl. lia.
Qed.

Lemma partly_encoded_nil a : partly_encoded cd cls [] (ncols a) a = a.
Proof.
  unfold partly_encoded. destruct a as [m rows]; simpl.
  f_equal; [lia|]. rewrite <- (list_fmap_id rows) at 2.
  apply list_fmap_ext. intros _ row _. simpl. now rewrite drop_0.
Qed.

Lemma partly_encoded_all fs a :
  rectangular a -> ncols a = length fs ->
  partly_encoded cd cls fs (length fs) a = encoded cd cls fs a.
Proof.
  unfold partly_encoded, encoded, rectangular. intros Hrect Hc.
  f_equal; [lia|]. apply Forall_fmap_ext. eapply Forall_impl; [exact Hrect|].
  intros row Hrow. simpl in *.
  rewrite take_ge, drop_ge by lia. apply app_nil_r.
Qed.

End Blocks.

Lemma index_middle (l1 l2 : list string) x :
  x ∉ l1 -> index x (l1 ++ x :: l2) = Some (length l1).
Proof.
  induction l1 as [|y l1 IH]; intros Hx; simpl.
  - now rewrite decide_True.
  - rewrite decide_False by (intros ->; apply Hx; left).
    rewrite IH; [done|]. intros ?. apply Hx. now right.
Qed.

Lemma index_keys_middle (pre post : list (string * string)) f k :
  NoDup (keys (pre ++ (f, k) :: post)) ->
  index f (keys (pre ++ (f, k) :: post)) = Some (length pre).
Proof.
  unfold keys. rewrite fmap_app, fmap_cons. simpl. intros Hnd.
  rewrite index_middle; [now rewrite length_fmap|].
  apply NoDup_app in Hnd as (_ & Hdisj & _).
  intros Hin. apply (Hdisj f Hin). left.
Qed.

Lemma zip_with_app_fmap3 {A B} (f1 f2 f3 : A -> list B) (l : list A) :
  zip_with app (f1 <$> l) (zip_with app (f2 <$> l) (f3 <$> l)) =
  (fun x => f1 x ++ f2 x ++ f3 x) <$> l.
Proof. induction l as [|x l IH]; simpl; [done|]. f_equal. exact IH. Qed.

Section PartlyEncoded.
Context (cd : ClassDict) (cls : string).
Context (pre : list (string * string)) (m : nat) (a : ndarray).
Hypothesis Hrect : rectangular a.
Hypothesis Hcols : ncols a = m.
Hypothesis Hpre : length pre < m.

Let c := encoded_width cd cls pre.

(** A row of the partly encoded matrix: the blocks, then the cells not yet
    visited; the next field's cell sits right after the blocks. *)
Lemma partly_encoded_row row :
  length row = m ->
  let row' := (encode_row cd cls pre (take (length pre) row)
               ++ drop (length pre) row)%list in
  exists x, row !! length pre = Some x ∧ row' !! c = Some x ∧
    take c row' = encode_row cd cls pre (take (length pre) row) ∧
    drop (c + 1) row' = drop (S (length pre)) row.
Proof.
  intros Hlen row'.
  destruct (lookup_lt_is_Some_2 row (length pre)) as [x Hx]; [lia|].
  assert (HE : length (encode_row cd cls pre (take (length pre) row)) = c).
  { apply length_encode_row. rewrite length_take. lia. }
  exists x. split; [done|]. subst row'. split; [|split].
  - rewrite lookup_app_r by lia. rewrite HE, Nat.sub_diag.
    rewrite lookup_drop. now rewrite Nat.add_0_r.
  - now rewrite take_app_length' by done.
  - rewrite drop_app_ge by lia. rewrite HE.
    replace (c + 1 - c) with 1 by lia. rewrite drop_drop.
    f_equal. lia.
Qed.

Lemma column_partly_encoded :
  column (partly_encoded cd cls pre m a) c = column a (length pre).
Proof.
  unfold column, partly_encoded; simpl. rewrite <- list_fmap_compose.
  apply Forall_fmap_ext. eapply Forall_impl; [exact Hrect|].
  intros row Hrow. simpl in *.
  destruct (partly_encoded_row row) as (x & Hx & Hx' & _); [lia|].
  fold c. now rewrite Hx, Hx'.
Qed.

Lemma partly_encoded_skip p :
  p.2 ≠ cls ->
  partly_encoded cd cls (pre ++ [p]) m a = partly_encoded cd cls pre m a.
Proof.
  intros Hp. unfold partly_encoded.
  rewrite encoded_width_snoc, length_app. simpl.
  assert (Hw : field_width cd cls p = 1).
  { unfold field_width. now rewrite decide_False. }
  f_equal; [lia|].
  apply Forall_fmap_ext. eapply Forall_impl; [exact Hrect|].
  intros row Hrow. simpl in *.
  destruct (partly_encoded_row row) as (x & Hx & _); [lia|].
  replace (length pre + 1) with (S (length pre)) by lia.
  rewrite (encode_row_snoc _ _ _ _ _ x) by done.
  unfold field_block. rewrite decide_False by done.
  rewrite <- app_assoc. simpl. f_equal.
  symmetry. now apply drop_S.
Qed.

Lemma partly_encoded_step f :
  let a' := partly_encoded cd cls pre m a in
  let k := classes_count cd f in
  NDArray (ncols (cols_before a' c) + (block_width k + ncols (cols_from a' (c + 1))))
    (zip_with app (cells (cols_before a' c))
       (zip_with app (one_hot k <$> (astype_int <$> column a (length pre)))
          (cells (cols_from a' (c + 1)))))
  = partly_encoded cd cls (pre ++ [(f, cls)]) m a.
Proof.
  intros a' k. unfold partly_encoded.
  rewrite encoded_width_snoc, length_app. simpl.
  assert (Hw : field_width cd cls (f, cls) = block_width k).
  { unfold field_width. simpl. now rewrite decide_True. }
  rewrite Hw. fold c. f_equal.
  { subst a'. unfold partly_encoded. simpl. fold c. lia. }
  subst a'. unfold partly_encoded, cols_before, cols_from, column; simpl.
  fold c. rewrite <- !list_fmap_compose.
  rewrite zip_with_app_fmap3.
  apply Forall_fmap_ext. eapply Forall_impl; [exact Hrect|].
  intros row Hrow. simpl in *.
  destruct (partly_encoded_row row) as (x & Hx & _ & Htake & Hdrop); [lia|].
  rewrite Htake, Hdrop, Hx. simpl.
  replace (length pre + 1) with (S (length pre)) by lia.
  rewrite (encode_row_snoc _ _ _ _ _ x) by done.
  unfold field_block. simpl. rewrite decide_True by done.
  now rewrite <- app_assoc.
Qed.

End PartlyEncoded.

(** * The loops of [_encode_classes] *)

Section EncodeLoop.
Context (proj : Self -> option ndarray) (set : option ndarray -> Self -> Self).
Hypothesis proj_set : forall x s, proj (set x s) = x.
Hypothesis set_set : forall x y s, set x (set y s) = set x s.
Hypothesis set_proj : forall s, set (proj s) s = s.
Hypothesis classDict_set : forall x s, classDict (set x s) = classDict s.

Let get : M ndarray := a ← gets proj; required a TypeError.

Lemma wp_get a (Q : outcome ndarray -> Self -> Prop) s :
  proj s = Some a -> Q (Ok a) s -> wp get Q s.
Proof. unfold wp, get, mbind, M_bind, gets. now intros ->. Qed.

(** A loop of [_encode_classes] returns with every field of kind [cls]
    encoded in place; it raises only when a column is not encodable. *)
Lemma encode_loop_run fs cls s a :
  NoDup (keys fs) -> proj s = Some a ->
  ncols a = length fs -> rectangular a ->
  wp (encode_loop get set fs cls) (fun o s' =>
    match o with
    | Ok _ => s' = set (Some (encoded (classDict s) cls fs a)) s
    | Raise _ => ¬ encodable (classDict s) cls fs a
    end) s.
Proof.
  intros Hnd Hproj Hcols Hrect. unfold encode_loop.
  set (cd := classDict s).
  pose (I := fun (pre : list (string * string)) (acc : nat) (s' : Self) =>
    s' = set (Some (partly_encoded cd cls pre (length fs) a)) s ∧
    length pre + acc = encoded_width cd cls pre).
  apply wp_bind.
  eapply wp_mono; [|apply (wp_for_acc_prefix I (¬ encodable cd cls fs a))].
  - intros [acc|e] s' H; [|done]. apply wp_ret.
    destruct H as [-> _]. now rewrite partly_encoded_all.
  - split; [|done]. rewrite <- Hcols, partly_encoded_nil, <- Hproj.
    now rewrite set_proj.
  - intros pre [f kind] post acc s1 Hl [-> Hacc].
    assert (Hlen : length pre < length fs).
    { rewrite Hl, length_app. simpl. lia. }
    destruct (decide (kind = cls)) as [->|Hkind].
    2: { apply wp_ret. split.
         - now rewrite partly_encoded_skip.
         - rewrite encoded_width_snoc, length_app. simpl.
           unfold field_width. simpl. rewrite decide_False by done. lia. }
    assert (Hfs : fs !! length pre = Some (f, cls)).
    { rewrite Hl. now apply list_lookup_middle. }
    unfold list_index. rewrite Hl at 1. rewrite index_keys_middle by now rewrite <- Hl.
    do 4 wp_step. rewrite classDict_set. fold cd.
    wp_step. destruct (cd !! f) as [classes|] eqn:Hcd; wp_step.
    2: { intros Henc. destruct (Henc _ _ Hfs) as (_ & [? ?] & _). congruence. }
    assert (Hk : length classes = classes_count cd f).
    { unfold classes_count. now rewrite Hcd. }
    rewrite Hk.
    apply wp_bind, (wp_get (partly_encoded cd cls pre (length fs) a));
      [apply proj_set|].
    do 2 wp_step. rewrite Hacc.
    rewrite getcol_column
      by (unfold partly_encoded; simpl; lia).
    cbv beta iota. do 2 wp_step.
    rewrite column_partly_encoded by done.
    rewrite hot_encode_spec.
    destruct (decide (1 ≤ classes_count cd f ∧
                Forall (in_axis (classes_count cd f))
                  (astype_int <$> column a (length pre)))) as [Hok|Hbad].
    2: { intros Henc. apply Hbad.
         destruct (Henc _ _ Hfs) as (Hk1 & _ & Hrows). split; [done|].
         unfold column. rewrite <- list_fmap_compose. apply Forall_fmap.
         apply Forall_forall. intros row Hrow. simpl.
         unfold rectangular in Hrect. rewrite Forall_forall in Hrect.
         destruct (lookup_lt_is_Some_2 row (length pre)) as [x Hx].
         { rewrite (Hrect row Hrow). lia. }
         rewrite Hx. simpl. now apply (Hrows row). }
    apply wp_bind, (wp_get (partly_encoded cd cls pre (length fs) a));
      [apply proj_set|].
    do 2 wp_step. rewrite hstack3.
    2: { unfold nrows, cols_before, partly_encoded; simpl.
         unfold column. now rewrite !length_fmap. }
    2: { unfold nrows, cols_from, partly_encoded; simpl.
         unfold column. now rewrite !length_fmap. }
    cbv beta iota. do 3 wp_step. cbn [ncols].
    rewrite (partly_encoded_step cd cls pre (length fs) a) by done.
    split.
    + now rewrite set_set.
    + rewrite encoded_width_snoc, length_app. simpl.
      unfold field_width. simpl. rewrite decide_True by done.
      unfold block_width. case_decide; lia.
Qed.

End EncodeLoop.

Lemma set_input_set_id s : set_input_set (input_set s) s = s.
Proof. now destruct s. Qed.

Lemma set_target_set_id s : set_target_set (target_set s) s = s.
Proof. now destruct s. Qed.

Lemma holds_codes_encodable cd cls fs a :
  holds_codes cd cls fs a -> encodable cd cls fs a.
Proof.
  intros H i f Hf. destruct (H i f Hf) as (Hk & Hcd & Hrows).
  split; [done|]. split; [done|]. intros row x Hrow Hx.
  specialize (Hrows row x Hrow Hx). unfold in_axis. lia.
Qed.

Lemma rectangular_encoded cd cls fs a :
  rectangular a -> ncols a = length fs -> rectangular (encoded cd cls fs a).
Proof.
  unfold rectangular, encoded; simpl. intros Hrect Hc.
  apply Forall_fmap. eapply Forall_impl; [exact Hrect|].
  intros row Hrow. simpl in *. apply length_encode_row. lia.
Qed.

(** [_encode_classes] on an object as filling and normalizing leave it. *)
Lemma encode_classes_run n s a b :
  prepared n s -> input_set s = Some a -> target_set s = Some b ->
  wp _encode_classes (fun o s' =>
    match o with
    | Ok _ =>
        s' = set_target_set
               (Some (encoded (classDict s) "target_class" (target_features s) b))
               (set_input_set
                  (Some (encoded (classDict s) "class" (input_features s) a)) s)
    | Raise _ =>
        ¬ (encodable (classDict s) "class" (input_features s) a ∧
           encodable (classDict s) "target_class" (target_features s) b)
    end) s.
Proof.
  intros ((Hi & Ht) & Hnd & (a0 & Ha0 & _ & Hca & Hra) & (b0 & Hb0 & _ & Hcb & Hrb))
    Ha Hb.
  rewrite Ha in Ha0. injection Ha0 as <-. rewrite Hb in Hb0. injection Hb0 as <-.
  assert (Hndi : NoDup (keys (input_features s))).
  { rewrite Hi. now apply keys_filter_NoDup. }
  assert (Hndt : NoDup (keys (target_features s))).
  { rewrite Ht. now apply keys_filter_NoDup. }
  unfold _encode_classes. do 3 wp_step.
  eapply wp_mono;
    [|apply (encode_loop_run input_set set_input_set) with (a := a);
      auto using set_input_set_id].
  intros [[]|e] s1 H1; [|tauto]. subst s1.
  do 2 wp_step. simpl.
  eapply wp_mono;
    [|apply (encode_loop_run target_set set_target_set) with (a := b);
      auto using set_target_set_id].
  intros [[]|e] s2 H2; [|simpl in H2; tauto]. now subst s2.
Qed.

(** C8: when [_encode_classes] returns, the input matrix has as many
    columns as the sum over the input fields of 1 for a field that is not
    of kind class, 1 for a class field with at most 2 classes in the
    dictionary and k for one with k > 2 classes, and every row has that
    many cells; the same holds of the target matrix with kind
    target_class.  It does return when every class column holds indices
    into its field's non-empty list of classes. *)
Theorem encoded_column_count (n : nat) (s : Self) :
  prepared n s ->
  (forall s', _encode_classes s = (Ok tt, s') ->
     exists a' b', input_set s' = Some a' ∧ target_set s' = Some b' ∧
       ncols a' = sum_list_with (fun p : string * string =>
                    if decide (p.2 = "class")
                    then let k := length (default [] (classDict s !! p.1)) in
                         if decide (k ≤ 2) then 1 else k
                    else 1) (input_features s) ∧
       rectangular a' ∧
       ncols b' = sum_list_with (fun p : string * string =>
                    if decide (p.2 = "target_class")
                    then let k := length (default [] (classDict s !! p.1)) in
                         if decide (k ≤ 2) then 1 else k
                    else 1) (target_features s) ∧
       rectangular b') ∧
  (forall a b, input_set s = Some a -> target_set s = Some b ->
     encodable (classDict s) "class" (input_features s) a ->
     encodable (classDict s) "target_class" (target_features s) b ->
     _encode_classes s = (Ok tt,
       set_target_set
         (Some (encoded (classDict s) "target_class" (target_features s) b))
         (set_input_set
            (Some (encoded (classDict s) "class" (input_features s) a)) s))).
Proof.
  intros Hp.
  pose proof Hp as (_ & _ & (a & Ha & _ & Hca & Hra) & (b & Hb & _ & Hcb & Hrb)).
  pose proof (encode_classes_run n s a b Hp Ha Hb) as Hrun. unfold wp in Hrun.
  split.
  - intros s' Hs'. rewrite Hs' in Hrun. simpl in Hrun. subst s'.
    eexists _, _. split; [done|]. split; [done|]. simpl.
    split; [done|]. split; [now apply rectangular_encoded|].
    split; [done|]. now apply rectangular_encoded.
  - intros a0 b0 Ha0 Hb0 Hea Heb.
    rewrite Ha in Ha0. injection Ha0 as <-. rewrite Hb in Hb0. injection Hb0 as <-.
    destruct (_encode_classes s) as [[[]|e] s']; simpl in Hrun.
    + now subst s'.
    + destruct Hrun. auto.
Qed.

(** C9: when [_encode_classes] returns, every row of the input matrix is
    the concatenation, in field order, of one block per input field: the
    cell itself for a field that is not of kind class, and for a class
    field with k classes the one-hot block of the cell's code.  For a code
    [0 <= code < k] the block has k cells, 1 at position [code] and 0
    elsewhere, when k > 2, and the single cell 1 if [code = 0] else 0 when
    k <= 2.  So each block takes the place of its column and the columns
    after it are found shifted by the widths added so far.  The target
    matrix is encoded alike for kind target_class.  [_encode_classes]
    returns when every class column holds codes of its field's non-empty
    list of classes. *)
Theorem one_hot_in_place (n : nat) (s : Self) (a b : ndarray) :
  prepared n s -> input_set s = Some a -> target_set s = Some b ->
  (forall s', _encode_classes s = (Ok tt, s') ->
     input_set s' =
       Some (NDArray (encoded_width (classDict s) "class" (input_features s))
               ((fun row => concat (zip_with (fun p x =>
                   if decide (p.2 = "class")
                   then one_hot (length (default [] (classDict s !! p.1)))
                                (astype_int x)
                   else [x]) (input_features s) row)) <$> cells a)) ∧
     target_set s' =
       Some (NDArray (encoded_width (classDict s) "target_class" (target_features s))
               ((fun row => concat (zip_with (fun p x =>
                   if decide (p.2 = "target_class")
                   then one_hot (length (default [] (classDict s !! p.1)))
                                (astype_int x)
                   else [x]) (target_features s) row)) <$> cells b))) ∧
  (forall (k : nat) (code : Z), (0 ≤ code < Z.of_nat k)%Z ->
     one_hot k code =
       if decide (k ≤ 2) then [if decide (code = 0%Z) then one else zero]
       else (fun j : nat => if decide (Z.of_nat j = code) then one else zero)
              <$> seq 0 k) ∧
  (holds_codes (classDict s) "class" (input_features s) a ->
   holds_codes (classDict s) "target_class" (target_features s) b ->
   (_encode_classes s).1 = Ok tt).
Proof.
  intros Hp Ha Hb.
  pose proof (encode_classes_run n s a b Hp Ha Hb) as Hrun. unfold wp in Hrun.
  split; [|split].
  - intros s' Hs'. rewrite Hs' in Hrun. simpl in Hrun. now subst s'.
  - intros k code Hcode. unfold one_hot, indicator.
    rewrite Z.mod_small by done. case_decide; [|done].
    f_equal. repeat case_decide; (done || lia).
  - intros Hia Hib.
    destruct (_encode_classes s) as [[[]|e] s']; simpl in *; [done|].
    destruct Hrun. split; now apply holds_codes_encodable.
Qed.

(** * The NaN policy *)

Section NanBlind.
Context {A B : Type}.

Lemma blind_ret (a : A) : nan_blind (mret a).
Proof. now intros nb s. Qed.

Lemma blind_raise e : nan_blind (raise (A := A) e).
Proof. now intros nb s. Qed.

Lemma blind_lift (o : outcome A) : nan_blind (lift o).
Proof. now intros nb s. Qed.

Lemma blind_required (o : option A) e : nan_blind (required o e).
Proof. destruct o; [apply blind_ret|apply blind_raise]. Qed.

Lemma blind_gets (f : Self -> A) :
  (forall nb s, f (set_nan_behaviour nb s) = f s) -> nan_blind (gets f).
Proof. intros Hf nb s. unfold gets. now rewrite Hf. Qed.

Lemma blind_bind (m : M A) (k : A -> M B) :
  nan_blind m -> (forall a, nan_blind (k a)) -> nan_blind (m ≫= k).
Proof.
  intros Hm Hk nb s. unfold mbind, M_bind. rewrite Hm.
  destruct (m s) as [[a|e] s']; simpl; [|done]. apply Hk.
Qed.

End NanBlind.

Lemma blind_modify (g : Self -> Self) :
  (forall nb s, g (set_nan_behaviour nb s) = set_nan_behaviour nb (g s)) ->
  nan_blind (modify g).
Proof. intros Hg nb s. unfold modify. now rewrite Hg. Qed.

Lemma blind_for {A} (l : list A) (body : A -> M unit) :
  (forall x, nan_blind (body x)) -> nan_blind (for_ l body).
Proof.
  intros Hbody. induction l as [|x l IH]; simpl.
  - apply blind_ret.
  - apply blind_bind; [apply Hbody|]. intros _. apply IH.
Qed.

Ltac blind :=
  repeat first
    [ apply blind_bind; [|intros ?]
    | apply blind_ret
    | apply blind_raise
    | apply blind_lift
    | apply blind_required
    | apply blind_gets; reflexivity
    | apply blind_modify; reflexivity
    | case_decide ].

Lemma normalize_feature_blind E f : nan_blind (normalize_feature E f).
Proof.
  unfold normalize_feature, the_input_set, the_target_set. blind.
Qed.

(** C5, as amended: no value of the NaN policy is rejected, and no
    UnsupportedError exists.  Construction ends the same for every value
    of the argument, which it never reads before it fails; and
    [_normalize], run on an object whose [nan_behaviour] is set to anything
    other than delete_row, does exactly what it does for ignore. *)
Theorem nan_policy_not_validated (E : Env) :
  (forall name fs cd nm nb,
     __init__ E name fs cd nm nb = __init__ E name fs cd nm "ignore" ∧
     forall e, (__init__ E name fs cd nm nb).1 = Raise e ->
       error_kind e ≠ Some UnsupportedError) ∧
  (forall s nb, nb ≠ "delete_row" ->
     _normalize E (set_nan_behaviour nb s) =
     ((_normalize E (set_nan_behaviour "ignore" s)).1,
      set_nan_behaviour nb (_normalize E (set_nan_behaviour "ignore" s)).2)).
Proof.
  split.
  - intros name fs cd nm nb. split; [now rewrite !init_run|].
    intros e _. destruct e as [| | | | | | | |[]]; done.
  - intros s nb Hnb.
    rewrite (normalize_unfold E _ nb) by done.
    rewrite (normalize_unfold E _ "ignore") by done.
    pose proof (blind_for (features s)
      (fun '(feature, _) => normalize_feature E feature)) as Hblind.
    assert (Hb : forall x : string * string,
      nan_blind (let '(feature, _) := x in normalize_feature E feature)).
    { intros [f k]. apply normalize_feature_blind. }
    specialize (Hblind Hb). simpl.
    rewrite (Hblind nb s), (Hblind "ignore" s). done.
Qed.

(** * Unrecognized kinds *)

Lemma fill_cell_unknown_kind E r row f k s :
  k ∉ FEATURETYPES -> fill_cell E r row f k s = (Ok tt, s).
Proof.
  intros Hk. unfold fill_cell. destruct (row !! f) as [v|]; [|done].
  unfold FEATURETYPES in Hk.
  rewrite !decide_False; [done|..]; intros ->; apply Hk; set_solver.
Qed.

(** C4, as amended: a kind string outside the five recognized values is
    not rejected, and no SchemaError exists.  The field is kept among the
    fields of the object, as an input field unless its kind contains
    "target" and as a target field if it does; the fill loop stores nothing
    for it; whatever exception ends construction is not a SchemaError. *)
Theorem unknown_kind_not_rejected (E : Env) (name : string) (fs : dict string)
    (cd : ClassDict) (nm : gmap string Stats) (nb f k : string) :
  (f, k) ∈ fs -> k ∉ FEATURETYPES ->
  let self := (__init__ E name fs cd nm nb).2 in
  (f, k) ∈ features self ∧
  ((f, k) ∈ input_features self <-> contains "target" k = false) ∧
  ((f, k) ∈ target_features self <-> contains "target" k = true) ∧
  (forall r row s, fill_cell E r row f k s = (Ok tt, s)) ∧
  (forall e, (__init__ E name fs cd nm nb).1 = Raise e ->
     error_kind e ≠ Some SchemaError).
Proof.
  intros Hin Hk self.
  assert (Hne : k ≠ "ignore").
  { intros ->. apply Hk. unfold FEATURETYPES. set_solver. }
  pose proof (fill_matrices_frame E (new_object name fs cd nm)) as Hfr.
  unfold wp in Hfr. destruct Hfr as (_ & Hf & Hi & Ht & _).
  subst self. rewrite init_run. cbn [snd]. rewrite Hf, Hi, Ht. simpl.
  split; [now apply list_elem_of_filter|].
  split; [|split; [|split]].
  - rewrite list_elem_of_filter. unfold is_input; simpl. tauto.
  - rewrite list_elem_of_filter. unfold is_target; simpl. tauto.
  - intros r row s. now apply fill_cell_unknown_kind.
  - intros e _. destruct e as [| | | | | | | |[]]; done.
Qed.

(** * The examples, evaluated *)

Import Example.

Lemma train_filled :
  fill_matrices E_train (new_object "train.csv" schema ∅ ∅) = (Ok tt, filled).
Proof. vm_compute. reflexivity. Qed.

Lemma filled_prepared : prepared 3 filled.
Proof.
  split; [|split].
  - split; reflexivity.
  - apply (bool_decide_unpack _). vm_compute. exact I.
  - split; eexists; (split; [reflexivity|]); repeat split; repeat constructor.
Defined.

Lemma ready_prepared : prepared 3 ready.
Proof. exact filled_prepared. Defined.


(** The exceptions of reading, at three files: one that cannot be decoded,
    where nothing is allocated; one with a record shorter than the header,
    whose missing cell is [None]; and the training file read into a
    dictionary whose names share a list, which grows under both. *)
Lemma undecodable_file_raises :
  let r := __init__ (env (fun _ => Unreadable UnicodeDecodeError))
             "latin.csv" two_fields ∅ ∅ "ignore" in
  r.1 = Raise UnicodeDecodeError ∧ input_set r.2 = None ∧ target_set r.2 = None.
Proof. vm_compute. repeat split; (reflexivity || discriminate). Qed.

Lemma short_record_raises_type_error :
  (__init__ (env (one_file "short.csv" short)) "short.csv" two_fields ∅ ∅
     "ignore").1 = Raise TypeError.
Proof. vm_compute. reflexivity. Qed.

Lemma shared_list_grows_under_both_names :
  let d := classDict (__init__ E_train "train.csv" schema aliased ∅ "ignore").2 in
  d !! "c" = Some [Str "x"; Str "n"; Str "y"; Str "p"; Str "z"] ∧
  d !! "y" = d !! "c".
Proof. vm_compute. repeat split; (reflexivity || discriminate). Qed.

(** C1 as stated fails: with a cell of a continuous field that is not a
    number, construction raises the ValueError of [float] and never
    reaches [_normalize]. *)
Lemma init_raises_value_error :
  (__init__ (env (one_file "bad.csv" bad_a)) "bad.csv" two_fields ∅ ∅ "ignore").1
    = Raise (ValueError (CouldNotConvert "abc")) ∧
  ¬ (forall E name fs cd nm nb,
       (__init__ E name fs cd nm nb).1 = Raise (AttributeError "nan_behaviour")).
Proof.
  assert (H : (__init__ (env (one_file "bad.csv" bad_a)) "bad.csv" two_fields
                 ∅ ∅ "ignore").1 = Raise (ValueError (CouldNotConvert "abc"))).
  { vm_compute. reflexivity. }
  split; [exact H|]. intros Hall. rewrite Hall in H. discriminate.
Qed.

(** C2 at its own scenario: with the policy delete_row, [_normalize]
    raises NameError at line 154 and both matrices keep their three
    rows. *)
Lemma delete_row_raises_name_error :
  _normalize E_train with_nan = (Raise (NameError "input_set"), with_nan) ∧
  (nrows <$> input_set with_nan) = Some 3 ∧
  (nrows <$> target_set with_nan) = Some 3.
Proof. vm_compute. repeat split; (reflexivity || discriminate). Qed.

(** C3 at a target field without statistics: [_normalize] takes the mean
    and the standard deviation from column 0 of the input matrix, which
    the loop has normalized just before, and not from the target column,
    whose statistics are 15 and 5; the target column stays as it was. *)
Lemma target_stats_from_input_matrix :
  let r := _normalize E_train two_columns in
  r.1 = Ok tt ∧
  norm r.2 !! "t" = Some {| mean := 0; std := 1 |} ∧
  target_set r.2 = Some (NDArray 1 [[10]; [20]]%float) ∧
  (nanmean [10; 20]%float, nanstd [10; 20]%float) = (15, 5)%float ∧
  z_score {| mean := 15; std := 5 |} <$> [10; 20]%float = [-1; 1]%float.
Proof. vm_compute. repeat split; (reflexivity || discriminate). Qed.

(** C4 as stated fails: with the kind "bogus" construction ends in the
    AttributeError of [_normalize], like every construction that fills its
    matrices, and the field is an input field. *)
Lemma unknown_kind_accepted :
  let r := __init__ E_train "train.csv" [("a", "bogus")] ∅ ∅ "ignore" in
  r.1 = Raise (AttributeError "nan_behaviour") ∧
  error_kind (AttributeError "nan_behaviour") ≠ Some SchemaError ∧
  input_features r.2 = [("a", "bogus")].
Proof. vm_compute. repeat split; (reflexivity || discriminate). Qed.

Lemma unknown_kind_not_rejected_witness :
  ("a", "bogus") ∈ input_features
    (__init__ E_train "train.csv" [("a", "bogus")] ∅ ∅ "ignore").2.
Proof.
  assert (Hin : ("a", "bogus") ∈ [("a", "bogus")]) by left.
  assert (Hk : "bogus" ∉ FEATURETYPES).
  { apply (bool_decide_unpack _). vm_compute. exact I. }
  destruct (unknown_kind_not_rejected E_train "train.csv" [("a", "bogus")]
              ∅ ∅ "ignore" "a" "bogus" Hin Hk) as (_ & Hi & _).
  apply Hi. vm_compute. reflexivity.
Defined.

(** C5 as stated fails: with the policy "median" construction ends as with
    "ignore", in the AttributeError of [_normalize], and [_normalize] run
    with "median" set returns. *)
Lemma unsupported_policy_accepted :
  ("median" ∉ NANBEHAVIOUR) ∧
  (__init__ E_train "train.csv" schema ∅ ∅ "median"
     = __init__ E_train "train.csv" schema ∅ ∅ "ignore") ∧
  (__init__ E_train "train.csv" schema ∅ ∅ "median").1
    = Raise (AttributeError "nan_behaviour") ∧
  error_kind (AttributeError "nan_behaviour") ≠ Some UnsupportedError ∧
  (_normalize E_train (set_nan_behaviour "median" ready)).1 = Ok tt.
Proof.
  split; [apply (bool_decide_unpack _); vm_compute; exact I|].
  vm_compute. repeat split; (reflexivity || discriminate).
Qed.

Lemma nan_policy_not_validated_witness :
  _normalize E_train (set_nan_behaviour "median" ready) =
  ((_normalize E_train (set_nan_behaviour "ignore" ready)).1,
   set_nan_behaviour "median"
     (_normalize E_train (set_nan_behaviour "ignore" ready)).2).
Proof.
  destruct (nan_policy_not_validated E_train) as [_ H].
  apply H. intros [=].
Defined.

(** C6 at a construction with statistics supplied: the entries stay as
    they were, but the column of field [a] is left as it was read, 1, 2 and
    NaN, where scaling with the supplied mean 1.5 and standard deviation
    0.5 gives -1, 1 and NaN.  Construction ends in the AttributeError of
    [_normalize] before any column is scaled; [_normalize] itself, run on
    the same object with the policy set, does scale the column. *)
Lemma supplied_stats_not_applied :
  let r := __init__ E_train "train.csv" schema ∅ supplied "ignore" in
  r.1 = Raise (AttributeError "nan_behaviour") ∧
  norm r.2 = supplied ∧
  (fun a => column a 0) <$> input_set r.2 = Some [1; 2; nan]%float ∧
  (fun x => ((x - 1.5) / 0.5)%float) <$> [1; 2; nan]%float = [-1; 1; nan]%float ∧
  (fun a => column a 0)
    <$> input_set (_normalize E_train (set_nan_behaviour "ignore" r.2)).2
    = Some [-1; 1; nan]%float.
Proof. vm_compute. repeat split; (reflexivity || discriminate). Qed.

Lemma classDict_append_only_witness :
  exists s', fill_cell E_train 2 (record [("y", "n")]) "y" "target_class" filled
               = (Ok tt, s') ∧
    code_of (classDict s') "y" "n" = Some 0 ∧
    classDict s' = classDict filled.
Proof.
  destruct (classDict_append_only E_train) as [_ H].
  assert (Hinv : fill_inv 3 (features filled) filled).
  { split; [reflexivity|]. destruct filled_prepared as (? & _ & ?). done. }
  assert (Hin : ("y", "target_class") ∈ features filled).
  { cbn. do 3 right. left. }
  assert (Hrow : record [("y", "n")] !! "y" = Some (Str "n")).
  { vm_compute. reflexivity. }
  assert (Hr : 2 < 3) by lia.
  destruct (H 2 (record [("y", "n")]) "y" "target_class" (Str "n") 3
              (features filled) filled Hinv Hr Hin (or_intror eq_refl) Hrow)
    as (s' & a & c & i & Hrun & _ & Hcode & _ & _ & _ & Hseen & _).
  assert (Hold : code_of (classDict filled) "y" "n" = Some 0).
  { vm_compute. reflexivity. }
  destruct (Hseen 0 Hold) as [-> Hsame].
  exists s'. auto.
Defined.

Lemma encoded_column_count_witness :
  exists a' b', input_set (_encode_classes filled).2 = Some a' ∧
    target_set (_encode_classes filled).2 = Some b' ∧
    ncols a' = 4 ∧ ncols b' = 2.
Proof.
  destruct (encoded_column_count 3 filled filled_prepared) as [H _].
  assert (Hrun : _encode_classes filled = (Ok tt, (_encode_classes filled).2)).
  { vm_compute. reflexivity. }
  destruct (H _ Hrun) as (a' & b' & Ha & Hb & Hca & _ & Hcb & _).
  exists a', b'. split; [done|]. split; [done|].
  split; [rewrite Hca|rewrite Hcb]; vm_compute; reflexivity.
Defined.

Lemma one_hot_in_place_witness :
  input_set (_encode_classes filled).2 =
    Some (NDArray 4 [[1; 1; 0; 0]; [2; 0; 1; 0]; [nan; 0; 0; 1]]%float) ∧
  target_set (_encode_classes filled).2 =
    Some (NDArray 2 [[10; 1]; [20; 0]; [30; 1]]%float).
Proof.
  assert (Hrun : _encode_classes filled = (Ok tt, (_encode_classes filled).2)).
  { vm_compute. reflexivity. }
  destruct (one_hot_in_place 3 filled _ _ filled_prepared eq_refl eq_refl)
    as (H & _).
  destruct (H _ Hrun) as [-> ->]. split; vm_compute; reflexivity.
Defined.

(** C10 as stated fails: the exception for a cell that is not a number is
    the same whether the cell is in record 0 and field [a] or in record 1
    and field [t]; it carries the text of the cell only. *)
Lemma parse_error_carries_no_location :
  (__init__ (env (one_file "bad.csv" bad_a)) "bad.csv" two_fields ∅ ∅ "ignore").1
    = Raise (ValueError (CouldNotConvert "abc")) ∧
  (__init__ (env (one_file "bad.csv" bad_t)) "bad.csv" two_fields ∅ ∅ "ignore").1
    = Raise (ValueError (CouldNotConvert "abc")).
Proof. vm_compute. repeat split; (reflexivity || discriminate). Qed.

Lemma fill_cell_stores_continuous_witness :
  exists s' a, fill_cell E_train 2 (record [("a", "")]) "a" "continuous" filled
                 = (Ok tt, s') ∧
    matrix_of "continuous" s' = Some a ∧ cell a 2 0 = Some nan.
Proof.
  assert (Hinv : fill_inv 3 (features filled) filled).
  { split; [reflexivity|]. destruct filled_prepared as (? & _ & ?). done. }
  assert (Hin : ("a", "continuous") ∈ features filled) by left.
  assert (Hrow : record [("a", "")] !! "a" = Some (Str "")).
  { vm_compute. reflexivity. }
  assert (Hr : 2 < 3) by lia.
  destruct (fill_cell_stores_continuous E_train 2 (record [("a", "")]) "a"
              "continuous" "" 3 (features filled) filled Hinv Hr Hin
              (or_introl eq_refl) Hrow) as (c & Hc & H).
  vm_compute in Hc. injection Hc as <-. exact H.
Defined.

(** * More on the constructor and on filling *)

(** X1: whatever its arguments, the constructor leaves the object where
    filling leaves it: the statistics in [norm] are the ones passed in,
    neither vector length nor [nan_behaviour] is assigned, and the fields
    kept are the declared ones that are not ignored. *)
Theorem init_leaves_statistics (E : Env) (name : string) (fs : dict string)
    (cd : ClassDict) (nm : gmap string Stats) (nb : string) :
  let self := (__init__ E name fs cd nm nb).2 in
  self = (fill_matrices E (new_object name fs cd nm)).2 ∧
  norm self = nm ∧
  nan_behaviour self = None ∧
  input_vector_length self = None ∧ target_vector_length self = None ∧
  features self = filter (fun p => p.2 ≠ "ignore") fs.
Proof.
  intros self. subst self. rewrite init_run. cbn [snd].
  pose proof (fill_matrices_frame E (new_object name fs cd nm)) as Hfr.
  unfold wp in Hfr. destruct Hfr as (_ & Hf & _ & _ & Hn & Hil & Htl & Hnb & _).
  auto 10.
Qed.

(** X2: filling counts the records before it allocates.  When the file
    cannot be opened, or cannot be read to its end, it raises the
    exception of [open] or of the csv reader and the object is as before:
    nothing is allocated.  Otherwise, whether the fill loop returns or
    raises, both matrices have one row per record and one column per
    input, respectively target, field, and every row has that many
    cells. *)
Theorem fill_matrices_shapes (E : Env) (s : Self) :
  classified s ->
  match open_csv E (csvFileName s) with
  | Unreadable e => fill_matrices E s = (Raise e, s)
  | Records rows =>
      exists a b,
        input_set (fill_matrices E s).2 = Some a ∧
        target_set (fill_matrices E s).2 = Some b ∧
        nrows a = length rows ∧ ncols a = length (input_features s) ∧
        rectangular a ∧
        nrows b = length rows ∧ ncols b = length (target_features s) ∧
        rectangular b
  end.
Proof.
  intros Hcl.
  destruct (open_csv E (csvFileName s)) as [e|rows] eqn:Hopen.
  - unfold fill_matrices, _get_csv_rowcount, read_csv, mbind, M_bind, gets.
    now rewrite Hopen.
  - pose proof (fill_matrices_run E s Hcl) as [_ Hinv]. cbv beta in Hinv.
    pose proof (fill_matrices_frame E s) as Hfr. unfold wp in Hfr.
    destruct Hfr as (_ & _ & Hi & Ht & _).
    destruct (Hinv rows Hopen)
      as (_ & _ & (a & Ha & Hna & Hca & Hra) & (b & Hb & Hnb & Hcb & Hrb)).
    exists a, b. rewrite <- Hi, <- Ht. auto 10.
Qed.

Lemma fill_matrices_shapes_witness :
  exists a b,
    input_set (fill_matrices E_train (new_object "train.csv" schema ∅ ∅)).2 = Some a ∧
    target_set (fill_matrices E_train (new_object "train.csv" schema ∅ ∅)).2 = Some b ∧
    nrows a = 3 ∧ ncols a = 2 ∧ nrows b = 3 ∧ ncols b = 2.
Proof.
  pose proof (fill_matrices_shapes E_train (new_object "train.csv" schema ∅ ∅)
                (new_object_classified _ _ _ _)) as H.
  cbn in H. destruct H as (a & b & Ha & Hb & Hna & Hca & _ & Hnb & Hcb & _).
  exists a, b. auto 10.
Defined.

Lemma added_NoDup v vs : NoDup vs -> NoDup (added v vs).
Proof.
  intros Hvs. unfold added. case_decide; [done|].
  apply NoDup_app. split; [done|]. split; [|apply NoDup_singleton].
  intros x Hx ->%list_elem_of_singleton. done.
Qed.

Lemma dict_add_NoDup f v d : dict_NoDup d -> dict_NoDup (dict_add f v d).
Proof.
  intros Hd g vs. rewrite dict_add_lookup. case_decide as Hc; [|apply Hd].
  intros [= <-]. apply added_NoDup.
  destruct (d !! f) as [ws|] eqn:Hf; simpl; [eapply Hd, Hf|constructor].
Qed.

Lemma shares_sym cd f g : shares cd f g -> shares cd g f.
Proof. intros (l & ? & ?). now exists l. Qed.

Lemma refs_append f v cd : refs (append f v cd) = refs cd.
Proof. unfold append. now destruct (refs cd !! f). Qed.

(** Lines 103-108 never make two names share a list. *)
Lemma dict_add_shares f v d g h :
  shares (dict_add f v d) g h -> g = h ∨ shares d g h.
Proof.
  unfold dict_add.
  assert (Hrefs : forall cd, shares (append f v cd) g h -> shares cd g h).
  { intros cd (l & Hg & Hh). rewrite refs_append in Hg, Hh. now exists l. }
  destruct (decide (d !! f = None)) as [Hnone|Hsome].
  - intros Hs. apply (shares_new_list f d g h Hnone).
    case_decide; [done|]. now apply Hrefs.
  - intros Hs. right. case_decide; [done|]. now apply Hrefs.
Qed.

Lemma dict_add_from d0 feats rows d row f k v :
  dict_from d0 feats rows d -> row ∈ rows -> (f, k) ∈ feats ->
  k = "class" ∨ k = "target_class" -> row !! f = Some v ->
  dict_from d0 feats rows (dict_add f v d).
Proof.
  intros [Hd1 Hd2] Hrow Hin Hk Hv. split.
  - intros g h [->|Hs]%dict_add_shares; [now left|now apply Hd1].
  - intros g w. rewrite dict_add_lookup. case_decide as Hc; [|apply Hd2].
    assert (Hg : d !! g = d !! f).
    { destruct Hc as [->|Hc]; [done|now apply shares_lookup]. }
    simpl. unfold added. intros Hw.
    assert (Hcases : w ∈ default [] (d !! f) ∨ w = v).
    { case_decide; [now left|].
      apply elem_of_app in Hw as [?| ->%list_elem_of_singleton]; auto. }
    destruct Hcases as [Hold| ->].
    + apply Hd2. now rewrite Hg.
    + right. exists row, f, k. repeat (split; [done|]).
      destruct Hc as [->|Hc]; [now left|].
      destruct (Hd1 f g Hc) as [->|Hs]; [now left|right].
      now apply shares_sym.
Qed.

Lemma dict_from_refl d feats rows : dict_from d feats rows d.
Proof. split; [intros f g ?; now right|intros f v ?; now left]. Qed.

Section FillDict.
Context (E : Env).

Lemma fill_cell_NoDup r row f k s :
  dict_NoDup (classDict s) ->
  wp (fill_cell E r row f k) (fun _ s' => dict_NoDup (classDict s')) s.
Proof.
  intros Hs. unfold fill_cell, input_set_setitem, target_set_setitem,
    classDict_index, float_, the_input_set, the_target_set.
  wp_steps; simpl; auto using dict_add_NoDup.
Qed.

Lemma fill_cell_from d0 feats rows r row f k s :
  row ∈ rows -> (f, k) ∈ feats -> dict_from d0 feats rows (classDict s) ->
  wp (fill_cell E r row f k)
     (fun _ s' => dict_from d0 feats rows (classDict s')) s.
Proof.
  intros Hrow Hin Hs. unfold fill_cell, input_set_setitem, target_set_setitem,
    classDict_index, float_, the_input_set, the_target_set.
  wp_steps; simpl; subst; eauto using dict_add_from.
Qed.

Lemma fill_matrices_NoDup s :
  dict_NoDup (classDict s) -> dict_NoDup (classDict (fill_matrices E s).2).
Proof.
  intros Hs. change (wp (fill_matrices E) (fun _ s' => dict_NoDup (classDict s')) s).
  unfold fill_matrices, _get_csv_rowcount, read_csv. wp_steps; simpl; auto.
  apply wp_for_stable; [done|].
  intros [r row] s1 _ H1. wp_steps.
  apply wp_for_stable; [done|].
  intros [f k] s2 _ H2. now apply fill_cell_NoDup.
Qed.

Lemma fill_matrices_from s rows :
  open_csv E (csvFileName s) = Records rows ->
  dict_from (classDict s) (features s) rows (classDict (fill_matrices E s).2).
Proof.
  intros Hopen.
  pose (I := fun s' : Self =>
    fill_frame s s' ∧ dict_from (classDict s) (features s) rows (classDict s')).
  assert (H : wp (fill_matrices E) (fun _ s' => I s') s); [|apply H].
  unfold fill_matrices, _get_csv_rowcount, read_csv.
  wp_steps; simpl.
  apply wp_for_stable; [split; [auto with fill|apply dict_from_refl]|].
  intros [r row] s1 Hin H1. wp_steps.
  assert (Hrow : row ∈ rows).
  { unfold enumerate in Hin. now apply elem_of_zip_r in Hin. }
  assert (Hfs : features s1 = features s) by apply H1.
  rewrite Hfs.
  apply wp_for_stable; [done|].
  intros [f k] s2 Hfk [H2 H2']. split.
  - now apply fill_cell_frame.
  - now apply fill_cell_from.
Qed.

End FillDict.

Lemma index_NoDup_lookup {A} `{EqDecision A} (l : list A) i v :
  NoDup l -> l !! i = Some v -> index v l = Some i.
Proof.
  intros Hnd Hi.
  destruct (index_is_Some v l) as [j Hj].
  { eapply list_elem_of_lookup_2, Hi. }
  rewrite Hj. f_equal.
  eapply NoDup_lookup; [exact Hnd| |exact Hi].
  now apply index_Some_lookup.
Qed.

(** X3: filling keeps the lists of the class dictionary free of
    duplicates, through the constructor too.  So afterwards a code and its
    value determine each other: the value at position [i] of a field's
    list has code [i], and a value with code [i] is the one at position
    [i]. *)
Theorem classDict_codes_round_trip (E : Env) (name : string) (fs : dict string)
    (cd : ClassDict) (nm : gmap string Stats) (nb : string) :
  dict_NoDup cd ->
  let d := classDict (__init__ E name fs cd nm nb).2 in
  dict_NoDup d ∧
  forall f vs i v, d !! f = Some vs ->
    (vs !! i = Some v <-> code_of d f v = Some i).
Proof.
  intros Hcd d. subst d. rewrite init_run. cbn [snd].
  pose proof (fill_matrices_NoDup E (new_object name fs cd nm) Hcd) as Hnd.
  split; [done|]. intros f vs i v Hf. unfold code_of. rewrite Hf. simpl.
  split.
  - apply index_NoDup_lookup. now apply (Hnd f).
  - apply index_Some_lookup.
Qed.

Lemma classDict_codes_round_trip_witness :
  code_of (classDict (__init__ E_train "train.csv" schema ∅ ∅ "ignore").2)
    "c" "z" = Some 2.
Proof.
  assert (Hnd : dict_NoDup ∅).
  { intros f vs Hf. now rewrite lookup_ClassDict_empty in Hf. }
  destruct (classDict_codes_round_trip E_train "train.csv" schema ∅ ∅
              "ignore" Hnd) as [_ H].
  eapply H; vm_compute; reflexivity.
Defined.

(** * The cells after filling *)

Lemma cell_setcell_ne a r c v r' c' :
  ¬ (r' = r ∧ c' = c) -> cell (setcell a r c v) r' c' = cell a r' c'.
Proof.
  unfold cell, setcell; simpl. intros Hne.
  destruct (decide (r' = r)) as [->|Hr].
  - rewrite list_lookup_alter_eq. destruct (cells a !! r) as [row|]; simpl; [|done].
    apply list_lookup_insert_ne. intros ->. now apply Hne.
  - now rewrite list_lookup_alter_ne by done.
Qed.

Lemma cell_np_ndarray E k n m r c :
  r < n -> c < m -> cell (np_ndarray E k n m) r c = Some (np_uninit E k r c).
Proof.
  intros Hr Hc. unfold cell, np_ndarray; simpl.
  rewrite list_lookup_fmap, lookup_seq_lt by done. simpl.
  rewrite list_lookup_fmap, lookup_seq_lt by done. done.
Qed.

Lemma matrix_of_set_matrix_of_other k k' x s :
  matrix_of k' (set_matrix_of k x s) =
  if decide (contains "target" k' = contains "target" k) then x
  else matrix_of k' s.
Proof.
  unfold matrix_of, set_matrix_of.
  destruct (contains "target" k'), (contains "target" k); simpl; done.
Qed.

Lemma filled_cell_le E d d' r c row f k x :
  dict_le d d' ->
  filled_cell E d r c row f k = Some x -> filled_cell E d' r c row f k = Some x.
Proof.
  intros Hle. unfold filled_cell. destruct (row !! f) as [v|]; [|done].
  repeat case_decide; try done.
  destruct (code_of d f v) as [i|] eqn:Hi; simpl; [|done].
  now rewrite (code_of_le d d' f v i).
Qed.

Lemma enumerate_middle {A} (l : list A) pre r x post :
  enumerate l = pre ++ (r, x) :: post -> r = length pre ∧ l !! r = Some x.
Proof.
  intros Hl.
  assert (Hlook : enumerate l !! length pre = Some (r, x)).
  { rewrite Hl. now apply list_lookup_middle. }
  unfold enumerate in Hlook.
  apply lookup_zip_with_Some in Hlook as (i & y & [= <- <-] & Hi & Hy).
  apply lookup_seq in Hi as [-> _]. done.
Qed.

Section FillCells.
Context (E : Env).

(** What one iteration of the fill loops changes: the dictionary grows, and
    at most the cell of the record and the field is written. *)
Lemma fill_cell_effect r row f k n feats s s' :
  fill_inv n feats s -> r < n -> (f, k) ∈ feats ->
  fill_cell E r row f k s = (Ok tt, s') ->
  fill_inv n feats s' ∧ same_schema s s' ∧
  dict_le (classDict s) (classDict s') ∧
  (forall k' r' c',
     ¬ (contains "target" k' = contains "target" k ∧ r' = r ∧
        column_of k s f = Some c') ->
     mcell k' s' r' c' = mcell k' s r' c') ∧
  (forall c, column_of k s f = Some c ->
     match row !! f with
     | None => mcell k s' r c = mcell k s r c
     | Some v =>
         if decide (k = "continuous" ∨ k = "target_continuous")
         then exists x, stored_value E v = Some x ∧ mcell k s' r c = Some x
         else if decide (k = "class" ∨ k = "target_class")
         then exists i, code_of (classDict s') f v = Some i ∧
                        mcell k s' r c = Some (float_of_nat i)
         else mcell k s' r c = mcell k s r c
     end).
Proof.
  intros Hinv Hr Hin Hrun.
  assert (Hnoop : s' = s ->
    fill_inv n feats s' ∧ same_schema s s' ∧
    dict_le (classDict s) (classDict s') ∧
    (forall k' r' c',
       ¬ (contains "target" k' = contains "target" k ∧ r' = r ∧
          column_of k s f = Some c') ->
       mcell k' s' r' c' = mcell k' s r' c') ∧
    (forall c, mcell k s' r c = mcell k s r c)).
  { intros ->. unfold same_schema. auto 10 using dict_le_refl. }
  destruct (row !! f) as [v|] eqn:Hrow.
  2: { unfold fill_cell in Hrun. rewrite Hrow in Hrun. injection Hrun as <-.
       destruct (Hnoop eq_refl) as (?&?&?&?&?). auto 10. }
  destruct (decide (k = "continuous" ∨ k = "target_continuous")) as [Hk|Hk].
  { destruct (fill_cell_continuous E r row f k v n feats s Hinv Hr Hin Hk Hrow)
      as (c & a & Hc & Ha & Hra & Hca & Hrect & Hrun').
    rewrite Hrun in Hrun'. destruct (stored_value E v) as [x|] eqn:Hx; [|done].
    injection Hrun' as ->.
    pose proof (fill_cell_run E r row f k n feats s Hinv Hr Hin) as Hpost.
    unfold wp in Hpost. rewrite Hrun in Hpost. cbn [fst snd] in Hpost.
    destruct Hpost as [[Hinv' Hfr] _].
    split; [done|]. split.
    { destruct Hfr as (_ & ? & ? & ? & _). done. }
    split; [now destruct Hfr as (_&_&_&_&_&_&_&_&?)|].
    split.
    - intros k' r' c' Hne. unfold mcell.
      rewrite matrix_of_set_matrix_of_other. case_decide as Hm; [|done].
      assert (Hmat : matrix_of k' s = matrix_of k s).
      { unfold matrix_of. now rewrite Hm. }
      rewrite Hmat, Ha. simpl. apply cell_setcell_ne.
      intros [-> ->]. apply Hne. auto.
    - intros c0 Hc0. rewrite Hc in Hc0. injection Hc0 as <-.
      exists x. split; [done|]. unfold mcell.
      rewrite matrix_of_set_matrix_of. simpl. now apply cell_setcell. }
  destruct (decide (k = "class" ∨ k = "target_class")) as [Hk2|Hk2].
  { destruct (fill_cell_class E r row f k v n feats s Hinv Hr Hin Hk2 Hrow)
      as (c & a & i & Hc & Ha & Hra & Hca & Hrect & Hi & Hrun').
    rewrite Hrun in Hrun'. injection Hrun' as ->.
    pose proof (fill_cell_run E r row f k n feats s Hinv Hr Hin) as Hpost.
    unfold wp in Hpost. rewrite Hrun in Hpost. cbn [fst snd] in Hpost.
    destruct Hpost as [[Hinv' Hfr] _].
    split; [done|]. split.
    { destruct Hfr as (_ & ? & ? & ? & _). done. }
    split; [now destruct Hfr as (_&_&_&_&_&_&_&_&?)|].
    split.
    - intros k' r' c' Hne. unfold mcell.
      rewrite matrix_of_set_matrix_of_other. case_decide as Hm.
      + assert (Hmat : matrix_of k' s = matrix_of k s).
        { unfold matrix_of. now rewrite Hm. }
        assert (Hmat' : matrix_of k' (set_classDict (dict_add f v (classDict s)) s)
                        = matrix_of k' s) by done.
        rewrite Hmat, Ha. simpl. apply cell_setcell_ne.
        intros [-> ->]. apply Hne. auto.
      + done.
    - intros c0 Hc0. rewrite Hc in Hc0. injection Hc0 as <-.
      exists i. rewrite classDict_set_matrix_of. split; [done|]. unfold mcell.
      rewrite matrix_of_set_matrix_of. simpl. now apply cell_setcell. }
  assert (Hs : s' = s).
  { unfold fill_cell in Hrun. rewrite Hrow in Hrun.
    rewrite !decide_False in Hrun by tauto. now injection Hrun. }
  destruct (Hnoop Hs) as (?&?&?&?&?). auto 10.
Qed.

End FillCells.

Section FillLoop.
Context (E : Env) (s0 : Self) (rows : list (gmap string pyval)).
Hypothesis Hnd : NoDup (keys (features s0)).

Lemma column_of_inj k k' f f' c :
  contains "target" k = contains "target" k' ->
  column_of k s0 f = Some c -> column_of k' s0 f' = Some c -> f = f'.
Proof.
  unfold column_of. intros ->. apply index_inj.
Qed.

Lemma cells_filled_step r row pre f0 k0 post s s' :
  fill_inv (length rows) (features s0) s -> same_schema s0 s ->
  rows !! r = Some row ->
  features s0 = pre ++ (f0, k0) :: post ->
  cells_filled E s0 rows r pre s ->
  fill_cell E r row f0 k0 s = (Ok tt, s') ->
  fill_inv (length rows) (features s0) s' ∧ same_schema s0 s' ∧
  cells_filled E s0 rows r (pre ++ [(f0, k0)]) s'.
Proof.
  intros Hinv Hsch Hrow Hfeats Hcells Hrun.
  assert (Hr : r < length rows) by (eapply lookup_lt_Some, Hrow).
  assert (Hin0 : (f0, k0) ∈ features s0).
  { rewrite Hfeats. apply elem_of_app. right. left. }
  assert (Hfresh : f0 ∉ keys pre).
  { unfold keys in *. rewrite Hfeats, fmap_app in Hnd.
    apply NoDup_app in Hnd as (_ & Hdisj & _).
    intros Hpre. apply (Hdisj f0 Hpre). left. }
  destruct (fill_cell_effect E r row f0 k0 _ _ s s' Hinv Hr Hin0 Hrun)
    as (Hinv' & Hsch' & Hle & Hother & Hthis).
  split; [done|]. split.
  { destruct Hsch as (?&?&?), Hsch' as (?&?&?). unfold same_schema. split_and!; congruence. }
  intros r' row' f k c Hrow' Hin Hc.
  destruct (Hcells r' row' f k c Hrow' Hin Hc) as [Hvis Hnot].
  destruct (decide (r' = r ∧ f = f0)) as [[-> ->]|Hne].
  - assert (k = k0) as -> by (eapply dict_functional; eauto).
    rewrite Hrow in Hrow'. injection Hrow' as <-.
    assert (Hold : mcell k0 s r c = Some (np_uninit E (allocation k0) r c)).
    { apply Hnot. intros [?|[_ ?]]; [lia|done]. }
    assert (Hc' : column_of k0 s f0 = Some c).
    { now rewrite (column_of_same_schema k0 s0 s). }
    specialize (Hthis c Hc'). split.
    2: { intros Hn. destruct Hn. right. split; [done|].
         unfold keys. rewrite fmap_app. apply elem_of_app. right. left. }
    intros _. unfold filled_cell.
    destruct (row !! f0) as [v|].
    + destruct (decide (k0 = "continuous" ∨ k0 = "target_continuous")).
      { destruct Hthis as (x & Hx & Hm). eauto. }
      destruct (decide (k0 = "class" ∨ k0 = "target_class")).
      { destruct Hthis as (i & Hi & Hm). rewrite Hi. eauto. }
      rewrite Hthis, Hold. eauto.
    + rewrite Hthis, Hold. eauto.
  - assert (Hsame : mcell k s' r' c = mcell k s r' c).
    { apply Hother. intros (Hm & -> & Hc0). apply Hne. split; [done|].
      rewrite (column_of_same_schema k0 s0 s) in Hc0 by done.
      eapply (column_of_inj k k0); eauto. }
    assert (Hiff : visited r (pre ++ [(f0, k0)]) r' f <-> visited r pre r' f).
    { unfold visited, keys. rewrite fmap_app. simpl. split.
      - intros [?|[-> [?|Hf0%list_elem_of_singleton]%elem_of_app]]; auto.
        subst f. destruct Hne. done.
      - intros [?|[-> ?]]; [now left|]. right. split; [done|].
        apply elem_of_app. now left. }
    rewrite Hsame. split.
    + intros Hv%Hiff. destruct (Hvis Hv) as (x & Hx & Hf).
      exists x. split; [done|]. eapply filled_cell_le; eauto.
    + intros Hv. apply Hnot. now rewrite <- Hiff.
Qed.

End FillLoop.

(** The fill loops, run to their end: every cell of every record and field
    holds what filling stores. *)
Lemma fill_matrices_filled E s rows :
  classified s -> NoDup (keys (features s)) ->
  open_csv E (csvFileName s) = Records rows ->
  wp (fill_matrices E) (fun o s1 => o = Ok tt ->
    cells_filled E s rows (length rows) [] s1) s.
Proof.
  intros Hcl Hnd Hopen.
  unfold fill_matrices, _get_csv_rowcount, read_csv.
  wp_steps. simpl. wp_steps.
  set (s2 := set_target_set _ _).
  assert (Hinv : fill_inv (length rows) (features s) s2).
  { split; [done|]. split; [done|]. subst s2. split; simpl.
    - eexists. split; [done|]. apply np_ndarray_shape.
    - eexists. split; [done|]. apply np_ndarray_shape. }
  pose (I := fun (pre : list (nat * gmap string pyval)) (s1 : Self) =>
    fill_inv (length rows) (features s) s1 ∧ same_schema s s1 ∧
    cells_filled E s rows (length pre) [] s1).
  eapply wp_mono; [|apply (wp_for_prefix I)].
  - intros o s1 Hpost Ho. destruct (Hpost Ho) as (_ & _ & Hc).
    unfold enumerate in Hc. rewrite length_zip_with, length_seq in Hc.
    now rewrite Nat.min_id in Hc.
  - split; [done|]. split; [done|].
    intros r row f k c Hrow Hin Hc. split.
    + intros [?|[_ ?%elem_of_nil]]; [simpl in *; lia|done].
    + intros _. unfold mcell, matrix_of, column_of, allocation in *.
      apply lookup_lt_Some in Hrow.
      apply index_lt in Hc. unfold keys in Hc. rewrite length_fmap in Hc.
      subst s2. destruct (contains "target" k); simpl;
        now apply cell_np_ndarray.
  - intros pre [r row] post s1 Hl (H1 & Hsch1 & Hc1).
    apply enumerate_middle in Hl as [-> Hrow].
    do 2 wp_step. destruct Hsch1 as (Hf1 & Hsch1). rewrite Hf1.
    pose (J := fun (pf : list (string * string)) (s3 : Self) =>
      fill_inv (length rows) (features s) s3 ∧ same_schema s s3 ∧
      cells_filled E s rows (length pre) pf s3).
    eapply wp_mono; [|apply (wp_for_prefix J)].
    + intros o s3 Hpost Ho. destruct (Hpost Ho) as (H3 & Hsch3 & Hc3).
      split; [done|]. split; [done|].
      intros r' row' f k c Hrow' Hin Hc.
      destruct (Hc3 r' row' f k c Hrow' Hin Hc) as [Hv Hn].
      assert (Hiff : visited (length (pre ++ [(length pre, row)])) [] r' f
                     <-> visited (length pre) (features s) r' f).
      { unfold visited. rewrite length_app. simpl. split.
        - intros [?|[_ ?%elem_of_nil]]; [|done].
          destruct (decide (r' = length pre)) as [->|]; [right|left; lia].
          split; [done|]. apply list_elem_of_fmap. now exists (f, k).
        - intros [?|[-> _]]; left; lia. }
      split; [intros ?%Hiff; auto|intros Hx; apply Hn; now rewrite <- Hiff].
    + split; [done|]. split; [split; [done|apply Hsch1]|done].
    + intros pf [f0 k0] postf s3 Hlf (H3 & Hsch3 & Hc3).
      unfold wp. destruct (fill_cell E (length pre) row f0 k0 s3)
        as [[[]|e] s4] eqn:Hcell; [|done].
      intros _. cbn [fst snd].
      now apply (cells_filled_step E s rows Hnd (length pre) row pf f0 k0
                   postf s3 s4).
Qed.

Lemma fill_matrices_filled_cell E s s' rows r row f k c :
  classified s -> NoDup (keys (features s)) ->
  open_csv E (csvFileName s) = Records rows ->
  fill_matrices E s = (Ok tt, s') ->
  rows !! r = Some row -> (f, k) ∈ features s -> column_of k s f = Some c ->
  exists x, mcell k s' r c = Some x ∧
            filled_cell E (classDict s') r c row f k = Some x.
Proof.
  intros Hcl Hnd Hopen Hrun Hrow Hin Hc.
  pose proof (fill_matrices_filled E s rows Hcl Hnd Hopen) as H.
  unfold wp in H. rewrite Hrun in H.
  apply (H eq_refl r row f k c Hrow Hin Hc).
  left. eapply lookup_lt_Some, Hrow.
Qed.

(** X4: the matrices when filling returns.  For every record and every
    field kept, the cell in the record's row and the field's column holds:
    for a continuous field NaN for the empty string and else the value of
    [float] (no cell of such a field is [None] then); for a class field the
    code of the value, a string or [None], in the dictionary as it is at
    the end; and for a field the record does not have, or a kind the loop
    does not know, whatever allocation left in the cell. *)
Theorem fill_matrices_cells (E : Env) (s s' : Self)
    (rows : list (gmap string pyval)) :
  classified s -> NoDup (keys (features s)) ->
  open_csv E (csvFileName s) = Records rows ->
  fill_matrices E s = (Ok tt, s') ->
  forall r row f k c,
    rows !! r = Some row -> (f, k) ∈ features s ->
    column_of k s f = Some c ->
    exists x, mcell k s' r c = Some x ∧
      Some x = match row !! f with
               | None => Some (np_uninit E (allocation k) r c)
               | Some value =>
                   if decide (k = "continuous" ∨ k = "target_continuous")
                   then match value with
                        | Str text => if decide (text = "") then Some nan
                                      else builtin_float E text
                        | PyNone => None
                        end
                   else if decide (k = "class" ∨ k = "target_class")
                   then float_of_nat <$> code_of (classDict s') f value
                   else Some (np_uninit E (allocation k) r c)
               end.
Proof.
  intros Hcl Hnd Hopen Hrun.
  pose proof (fill_matrices_filled E s rows Hcl Hnd Hopen) as H.
  unfold wp in H. rewrite Hrun in H. specialize (H eq_refl).
  intros r row f k c Hrow Hin Hc.
  destruct (H r row f k c Hrow Hin Hc) as [Hv _].
  destruct Hv as (x & Hx & Hf).
  { left. eapply lookup_lt_Some, Hrow. }
  exists x. split; [done|]. now rewrite <- Hf.
Qed.

Lemma fill_matrices_cells_witness :
  mcell "class" filled 2 1 = Some (float_of_nat 2).
Proof.
  assert (Hnd : NoDup (keys (features (new_object "train.csv" schema ∅ ∅)))).
  { apply (bool_decide_unpack _). vm_compute. exact I. }
  assert (Hin : ("c", "class") ∈ features (new_object "train.csv" schema ∅ ∅)).
  { cbn. right. left. }
  destruct (fill_matrices_cells E_train (new_object "train.csv" schema ∅ ∅)
              filled train (new_object_classified _ _ _ _) Hnd eq_refl
              train_filled 2
              (record [("id", "3"); ("a", ""); ("c", "z"); ("t", "30"); ("y", "n")])
              "c" "class" 1 eq_refl Hin eq_refl) as (x & Hx & Hf).
  rewrite Hx. vm_compute in Hf. rewrite Hf. vm_compute. reflexivity.
Defined.

(** X5: the class dictionary when filling returns holds every cell that
    a record has for a class field, so each has a code; and it holds
    nothing else.  A value in the list of a name was in that list before,
    or is the cell that some record has for a class field: for the name
    itself, or for a name that held the same list object in the dictionary
    passed in, since what is appended to a list shows under every name
    that holds it.  Filling never makes two names hold one list. *)
Theorem classDict_holds_file_values (E : Env) (s s' : Self)
    (rows : list (gmap string pyval)) :
  classified s -> NoDup (keys (features s)) ->
  open_csv E (csvFileName s) = Records rows ->
  fill_matrices E s = (Ok tt, s') ->
  (forall row f k v,
     row ∈ rows -> (f, k) ∈ features s -> k = "class" ∨ k = "target_class" ->
     row !! f = Some v -> v ∈ default [] (classDict s' !! f)) ∧
  (forall f g, shares (classDict s') f g ->
     f = g ∨ shares (classDict s) f g) ∧
  (forall f v, v ∈ default [] (classDict s' !! f) ->
     v ∈ default [] (classDict s !! f) ∨
     exists row g k, row ∈ rows ∧ (g, k) ∈ features s ∧
       (k = "class" ∨ k = "target_class") ∧ row !! g = Some v ∧
       (g = f ∨ shares (classDict s) f g)).
Proof.
  intros Hcl Hnd Hopen Hrun. split.
  - intros row f k v Hrow Hin Hk Hv.
    apply list_elem_of_lookup_1 in Hrow as [r Hr].
    assert (Hc : exists c, column_of k s f = Some c).
    { unfold column_of. destruct Hk as [-> | ->]; simpl.
      - apply index_is_Some, list_elem_of_fmap. exists (f, "class").
        split; [done|]. apply in_input_features; auto.
      - apply index_is_Some, list_elem_of_fmap. exists (f, "target_class").
        split; [done|]. apply in_target_features; auto. }
    destruct Hc as [c Hc].
    destruct (fill_matrices_filled_cell E s s' rows r row f k c
                Hcl Hnd Hopen Hrun Hr Hin Hc) as (x & _ & Hx).
    unfold filled_cell in Hx. rewrite Hv in Hx.
    rewrite decide_False in Hx by (destruct Hk as [-> | ->]; intros [?|?]; done).
    rewrite decide_True in Hx by done.
    unfold code_of in Hx.
    destruct (classDict s' !! f) as [vs|]; simpl in *; [|done].
    destruct (index v vs) as [i|] eqn:Hi; [|done].
    eapply list_elem_of_lookup_2, index_Some_lookup, Hi.
  - pose proof (fill_matrices_from E s rows Hopen) as Hfrom.
    rewrite Hrun in Hfrom. exact Hfrom.
Qed.

Lemma classDict_holds_file_values_witness :
  Str "z" ∈ default [] (classDict filled !! "c").
Proof.
  assert (Hnd : NoDup (keys (features (new_object "train.csv" schema ∅ ∅)))).
  { apply (bool_decide_unpack _). vm_compute. exact I. }
  assert (Hin : ("c", "class") ∈ features (new_object "train.csv" schema ∅ ∅)).
  { cbn. right. left. }
  destruct (classDict_holds_file_values E_train
              (new_object "train.csv" schema ∅ ∅) filled train
              (new_object_classified _ _ _ _) Hnd eq_refl train_filled) as [H _].
  apply (H (record [("id", "3"); ("a", ""); ("c", "z"); ("t", "30"); ("y", "n")])
           "c" "class" (Str "z")); [|exact Hin|now left|vm_compute; reflexivity].
  unfold train. do 2 right. left.
Defined.

(** * More on [_hot_encode] *)

(** X6: [_hot_encode] on a vector of codes and a class count [k] returns
    exactly when there is at least one class and every code is an index
    into [k] columns, counting from the end when negative; the result then
    has one row per code and 1 column when [k <= 2], [k] columns otherwise.
    In every other case, also for no codes and no class, it raises
    IndexError. *)
Theorem hot_encode_returns_iff (codes : list Z) (k : nat) :
  ((1 ≤ k ∧ Forall (fun c => (- Z.of_nat k ≤ c < Z.of_nat k)%Z) codes) ->
   exists v, _hot_encode (int_vector codes) (Some (Z.of_nat k)) = Ok v ∧
     nrows v = length codes ∧ ncols v = (if decide (k ≤ 2) then 1 else k) ∧
     rectangular v) ∧
  (¬ (1 ≤ k ∧ Forall (fun c => (- Z.of_nat k ≤ c < Z.of_nat k)%Z) codes) ->
   _hot_encode (int_vector codes) (Some (Z.of_nat k)) = Raise IndexError).
Proof.
  rewrite hot_encode_spec. split.
  - intros Hok. rewrite decide_True by exact Hok.
    eexists. split; [done|]. unfold nrows, rectangular; simpl.
    rewrite length_fmap. split; [done|]. split; [done|].
    apply Forall_fmap, Forall_forall. intros c _. simpl. apply length_one_hot.
  - intros Hbad. now rewrite decide_False by exact Hbad.
Qed.

Lemma hot_encode_returns_iff_witness :
  exists v, _hot_encode (int_vector [0; 2; -1]%Z) (Some 3%Z) = Ok v ∧
    nrows v = 3 ∧ ncols v = 3.
Proof.
  destruct (hot_encode_returns_iff [0; 2; -1]%Z 3) as [H _].
  destruct H as (v & Hv & Hn & Hc & _).
  { split; [lia|]. repeat constructor; lia. }
  exists v. auto.
Defined.

(** X7: the row [_hot_encode] makes for a code [c] among [k >= 1] classes.
    With [j] the column that [c] indexes, [c] itself or [c + k] when [c] is
    negative, the row for [k > 2] is [j] zeros, a one, and zeros up to
    length [k]: exactly one cell is 1.  For [k <= 2] it is the single cell
    1 when [j = 0] and 0 otherwise. *)
Theorem hot_encode_row (codes : list Z) (k r : nat) (c : Z) :
  1 ≤ k ->
  Forall (fun c => (- Z.of_nat k ≤ c < Z.of_nat k)%Z) codes ->
  codes !! r = Some c ->
  exists v, _hot_encode (int_vector codes) (Some (Z.of_nat k)) = Ok v ∧
    cells v !! r =
      Some (let j := Z.to_nat (if decide (0 ≤ c)%Z then c else c + Z.of_nat k) in
            if decide (k ≤ 2) then [if decide (j = 0) then one else zero]
            else replicate j zero ++ one :: replicate (k - S j) zero).
Proof.
  intros Hk Hcodes Hr. rewrite hot_encode_spec.
  rewrite decide_True by done. eexists. split; [done|]. simpl.
  rewrite list_lookup_fmap, Hr. simpl. f_equal.
  assert (Hc : (- Z.of_nat k ≤ c < Z.of_nat k)%Z).
  { rewrite Forall_forall in Hcodes. apply Hcodes.
    eapply list_elem_of_lookup_2, Hr. }
  assert (Hmod : (c `mod` Z.of_nat k)%Z =
                 if decide (0 ≤ c)%Z then c else (c + Z.of_nat k)%Z).
  { case_decide.
    - apply Z.mod_small. lia.
    - rewrite <- (Z.mod_add c 1 (Z.of_nat k)) by lia.
      rewrite Z.mod_small; lia. }
  unfold one_hot. rewrite Hmod.
  set (j := if decide (0 ≤ c)%Z then c else (c + Z.of_nat k)%Z).
  assert (Hj : (0 ≤ j < Z.of_nat k)%Z) by (subst j; case_decide; lia).
  clearbody j. clear Hmod. simpl.
  destruct (decide (k ≤ 2)) as [Hk2|Hk2].
  - f_equal. unfold indicator. simpl.
    repeat case_decide; (done || lia).
  - rewrite <- (Z2Nat.id j) at 1 by lia.
    rewrite <- one_hot_row by lia.
    apply insert_replicate_lt. lia.
Qed.

Lemma hot_encode_row_witness :
  exists v, _hot_encode (int_vector [0; 2; -1]%Z) (Some 3%Z) = Ok v ∧
    cells v !! 2 = Some [zero; zero; one].
Proof.
  assert (Hc : Forall (fun c => (- Z.of_nat 3 ≤ c < Z.of_nat 3)%Z) [0; 2; -1]%Z).
  { repeat constructor; lia. }
  assert (Hk : 1 ≤ 3) by lia.
  destruct (hot_encode_row [0; 2; -1]%Z 3 2 (-1)%Z Hk Hc eq_refl)
    as (v & Hv & Hrow).
  exists v. split; [exact Hv|]. rewrite Hrow. reflexivity.
Defined.

Lemma foldl_max_acc (l : list Z) (x : Z) : (x ≤ foldl Z.max x l)%Z.
Proof.
  revert x. induction l as [|z l IH]; intros x; simpl; [lia|].
  etransitivity; [|apply IH]. lia.
Qed.

Lemma foldl_max_ge (l : list Z) (x y : Z) :
  (y = x ∨ y ∈ l) -> (y ≤ foldl Z.max x l)%Z.
Proof.
  intros [->|Hy]; [apply foldl_max_acc|].
  revert x. induction l as [|z l IH]; intros x; simpl.
  - now apply elem_of_nil in Hy.
  - apply elem_of_cons in Hy as [->|Hy]; [|now apply IH].
    etransitivity; [|apply foldl_max_acc]. lia.
Qed.

Lemma wrap64_small z : (- 2 ^ 63 ≤ z < 2 ^ 63)%Z -> wrap64 z = z.
Proof. intros Hz. unfold wrap64. rewrite Z.mod_small; lia. Qed.

Lemma wrap64_overflow : wrap64 (2 ^ 63 - 1 + 1) = (- 2 ^ 63)%Z.
Proof. reflexivity. Qed.



(** * More on [_encode_classes] *)

Lemma encode_row_app cd cls fs1 fs2 row1 row2 :
  length fs1 = length row1 ->
  encode_row cd cls (fs1 ++ fs2) (row1 ++ row2) =
  encode_row cd cls fs1 row1 ++ encode_row cd cls fs2 row2.
Proof.
  intros Hlen. unfold encode_row. now rewrite zip_with_app, concat_app.
Qed.

Lemma encode_row_split cd cls fs row i p x :
  fs !! i = Some p -> row !! i = Some x ->
  encode_row cd cls fs row =
  encode_row cd cls (take i fs) (take i row) ++ field_block cd cls p x ++
  encode_row cd cls (drop (S i) fs) (drop (S i) row).
Proof.
  intros Hp Hx.
  rewrite <- (take_drop_middle fs i p Hp) at 1.
  rewrite <- (take_drop_middle row i x Hx) at 1.
  rewrite encode_row_app.
  - reflexivity.
  - rewrite !length_take. apply lookup_lt_Some in Hp, Hx. lia.
Qed.

Lemma encoded_blocks_at cd cls fs a :
  rectangular a -> ncols a = length fs ->
  blocks_at cd cls fs a (encoded cd cls fs a).
Proof.
  intros Hrect Hcols i f k r x Hi Hx w.
  unfold cell in Hx. destruct (cells a !! r) as [row|] eqn:Hrow; [|done].
  simpl in Hx.
  assert (Hcell : forall c, cell (encoded cd cls fs a) r c
                            = encode_row cd cls fs row !! c).
  { intros c. unfold cell, encoded; simpl.
    now rewrite list_lookup_fmap, Hrow. }
  assert (Hw : length (encode_row cd cls (take i fs) (take i row)) = w).
  { apply length_encode_row. rewrite !length_take.
    apply lookup_lt_Some in Hi, Hx. lia. }
  rewrite (encode_row_split cd cls fs row i (f, k) x Hi Hx) in Hcell.
  split.
  - intros -> j y Hy. rewrite Hcell.
    rewrite lookup_app_r by lia. rewrite Hw.
    replace (w + j - w) with j by lia.
    apply lookup_app_l_Some. unfold field_block. simpl.
    now rewrite decide_True.
  - intros Hk. rewrite Hcell.
    rewrite lookup_app_r by lia. rewrite Hw, Nat.sub_diag.
    unfold field_block. simpl. now rewrite decide_False.
Qed.

(** X9: when [_encode_classes] returns it has changed the two matrices
    only, and not their number of rows: the class dictionary, the
    statistics, the schema, the file name, the NaN policy and the two
    vector lengths are as before.  In the input matrix the cell of the
    field at position [i] is found at the column that is the sum of the
    widths of the fields before it: a field that is not of kind class has
    its value there, unchanged, and a class field its one-hot block from
    there on; likewise in the target matrix for kind target_class. *)
Theorem encoded_cell_positions (n : nat) (s s' : Self) (a b : ndarray) :
  prepared n s -> input_set s = Some a -> target_set s = Some b ->
  _encode_classes s = (Ok tt, s') ->
  exists a' b',
    input_set s' = Some a' ∧ target_set s' = Some b' ∧
    nrows a' = n ∧ nrows b' = n ∧
    classDict s' = classDict s ∧ norm s' = norm s ∧ same_schema s s' ∧
    blocks_at (classDict s) "class" (input_features s) a a' ∧
    blocks_at (classDict s) "target_class" (target_features s) b b' ∧
    csvFileName s' = csvFileName s ∧ nan_behaviour s' = nan_behaviour s ∧
    input_vector_length s' = input_vector_length s ∧
    target_vector_length s' = target_vector_length s.
Proof.
  intros Hp Ha Hb Hrun.
  pose proof (encode_classes_run n s a b Hp Ha Hb) as H. unfold wp in H.
  rewrite Hrun in H. cbn [fst snd] in H. subst s'.
  destruct Hp as (_ & _ & (a0 & Ha0 & Hna & Hca & Hra) & (b0 & Hb0 & Hnb & Hcb & Hrb)).
  rewrite Ha in Ha0. injection Ha0 as <-. rewrite Hb in Hb0. injection Hb0 as <-.
  eexists _, _. split; [done|]. split; [done|].
  unfold nrows, encoded; simpl. rewrite !length_fmap.
  split; [done|]. split; [done|]. split; [done|]. split; [done|].
  split; [done|]. split; [now apply encoded_blocks_at|].
  split; [now apply encoded_blocks_at|]. done.
Qed.

Lemma encoded_cell_positions_witness :
  exists a', input_set (_encode_classes filled).2 = Some a' ∧
    cell a' 1 0 = Some 2%float ∧ cell a' 1 2 = Some one.
Proof.
  assert (Hrun : _encode_classes filled = (Ok tt, (_encode_classes filled).2)).
  { vm_compute. reflexivity. }
  destruct (encoded_cell_positions 3 filled _ _ _ filled_prepared eq_refl eq_refl
              Hrun) as (a' & b' & Ha' & _ & _ & _ & _ & _ & _ & Hblocks & _).
  exists a'. split; [exact Ha'|]. split.
  - destruct (Hblocks 0 "a" "continuous" 1 2%float eq_refl eq_refl) as [_ H].
    apply H. intros [=].
  - destruct (Hblocks 1 "c" "class" 1 1%float eq_refl eq_refl) as [H _].
    apply (H eq_refl 1 one). vm_compute. reflexivity.
Defined.

Lemma for_acc_skip {A B} (pre l : list A) (acc : B) (body : B -> A -> M B) s :
  (forall p acc s, p ∈ pre -> body acc p s = (Ok acc, s)) ->
  for_acc (pre ++ l) acc body s = for_acc l acc body s.
Proof.
  intros Hskip. induction pre as [|p pre IH]; simpl; [done|].
  unfold mbind, M_bind. rewrite Hskip by left.
  apply IH. intros q acc' s' Hq. apply Hskip. now right.
Qed.

Lemma wp_for_acc_skip {A B} (pre l : list A) (acc : B) (body : B -> A -> M B)
    (Q : outcome B -> Self -> Prop) s :
  (forall p acc s, p ∈ pre -> body acc p s = (Ok acc, s)) ->
  wp (for_acc l acc body) Q s -> wp (for_acc (pre ++ l) acc body) Q s.
Proof. intros Hskip. unfold wp. now rewrite for_acc_skip. Qed.

(** X10: a class field without classes stops [_encode_classes].  When the
    first input field of kind class has no entry in the dictionary, as
    after filling from a file without records, it raises KeyError with the
    field's name; when its list of classes is empty it raises IndexError.
    The object is left as it was. *)
Theorem encode_classes_without_classes (n : nat) (s : Self) (f : string)
    (pre post : list (string * string)) :
  prepared n s ->
  input_features s = pre ++ (f, "class") :: post ->
  Forall (fun p => p.2 ≠ "class") pre ->
  match classDict s !! f with
  | None => _encode_classes s = (Raise (KeyError f), s)
  | Some [] => _encode_classes s = (Raise IndexError, s)
  | Some (_ :: _) => True
  end.
Proof.
  intros Hp Hfs Hpre.
  pose proof Hp as (_ & _ & (a & Ha & Hna & Hca & Hra) & _).
  destruct (list_index_keys (input_features s) f "class") as (i & Hi & Hlt).
  { rewrite Hfs. apply elem_of_app. right. left. }
  destruct (classDict s !! f) as [[|v vs]|] eqn:Hcd; [|done|].
  - apply wp_eq. unfold _encode_classes, encode_loop. do 4 wp_step.
    rewrite Hfs at 1. apply wp_for_acc_skip.
    { intros [g kg] acc s1 Hin. rewrite Forall_forall in Hpre.
      specialize (Hpre _ Hin). simpl in Hpre. now rewrite decide_False. }
    cbn [for_acc]. rewrite decide_True by done. do 9 wp_step.
    apply wp_bind, (wp_the_input_set a); [done|].
    do 2 wp_step. rewrite getcol_column by lia. cbv beta iota.
    do 2 wp_step. rewrite (hot_encode_spec _ 0).
    now rewrite decide_False by lia.
  - apply wp_eq. unfold _encode_classes, encode_loop. do 4 wp_step.
    rewrite Hfs at 1. apply wp_for_acc_skip.
    { intros [g kg] acc s1 Hin. rewrite Forall_forall in Hpre.
      specialize (Hpre _ Hin). simpl in Hpre. now rewrite decide_False. }
    cbn [for_acc]. rewrite decide_True by done. now do 9 wp_step.
Qed.

Lemma no_records_filled :
  (fill_matrices (env (one_file "empty.csv" []))
     (new_object "empty.csv" schema ∅ ∅)).2 = no_records.
Proof. vm_compute. reflexivity. Qed.

Lemma no_records_prepared : prepared 0 no_records.
Proof.
  split; [|split].
  - split; reflexivity.
  - apply (bool_decide_unpack _). vm_compute. exact I.
  - split; eexists; (split; [reflexivity|]); repeat split; repeat constructor.
Defined.

Lemma encode_classes_without_classes_witness :
  _encode_classes no_records = (Raise (KeyError "c"), no_records).
Proof.
  apply (encode_classes_without_classes 0 no_records "c" [("a", "continuous")] []
           no_records_prepared eq_refl).
  repeat constructor. simpl. discriminate.
Defined.


(** * The loop of [_normalize] *)

Lemma column_cell a c r :
  rectangular a -> c < ncols a -> column a c !! r = cell a r c.
Proof.
  intros Hrect Hc. unfold column, cell. rewrite list_lookup_fmap.
  destruct (cells a !! r) as [row|] eqn:Hrow; simpl; [|done].
  assert (Hlen : length row = ncols a).
  { exact (proj1 (Forall_lookup _ _) Hrect r row Hrow). }
  destruct (lookup_lt_is_Some_2 row c) as [x Hx]; [lia|].
  now rewrite Hx.
Qed.

Lemma column_ext a a' c :
  rectangular a -> rectangular a' -> c < ncols a -> c < ncols a' ->
  col_mapped id c a a' -> column a' c = column a c.
Proof.
  intros Hr Hr' Hc Hc' Hm. apply list_eq. intros r.
  rewrite !column_cell by done. rewrite Hm. now destruct (cell a r c).
Qed.

Lemma keys_snoc {V} (d : list (string * V)) f v h :
  h ∈ keys (d ++ [(f, v)]) <-> h ∈ keys d ∨ h = f.
Proof.
  unfold keys. rewrite fmap_app, elem_of_app. simpl.
  now rewrite list_elem_of_singleton.
Qed.

Lemma keys_lookup {V} (d : list (string * V)) i f v :
  d !! i = Some (f, v) -> keys d !! i = Some f.
Proof. intros H. unfold keys. now rewrite list_lookup_fmap, H. Qed.

Lemma col_mapped_map_col_ne g c c' a0 a :
  c ≠ c' -> forall h, col_mapped h c' a0 a -> col_mapped h c' a0 (map_col g c a).
Proof.
  intros Hne h Hm r. rewrite cell_map_col, decide_False by done. apply Hm.
Qed.

Lemma col_mapped_map_col g c a0 a :
  col_mapped id c a0 a -> col_mapped g c a0 (map_col g c a).
Proof.
  intros Hm r. rewrite cell_map_col, decide_True by done. rewrite Hm.
  now destruct (cell a0 r c).
Qed.

Lemma input_scaled_other E s pre g kg nm1 nm2 a a1 :
  input_scaled E s pre nm1 a a1 ->
  (forall i k, input_features s !! i = Some (g, k) -> k ≠ "continuous") ->
  (forall h, h ≠ g -> nm2 !! h = nm1 !! h) ->
  input_scaled E s (pre ++ [(g, kg)]) nm2 a a1.
Proof.
  intros H Hg Hnm i f k Hi. destruct (H i f k Hi) as [H1 H2]. split.
  - intros Hk [Hin | ->]%keys_snoc.
    + destruct (H1 Hk Hin) as [Hn Hm]. split; [|done].
      rewrite Hnm; [done|]. intros ->. now apply (Hg i k).
    + now destruct (Hg i k).
  - intros Hor. apply H2. destruct Hor as [?|Hnot]; [now left|right].
    intros Hin. apply Hnot, keys_snoc. now left.
Qed.

Lemma target_scaled_other s pre g kg nm1 nm2 b b1 :
  target_scaled s pre nm1 b b1 ->
  (forall i k, target_features s !! i = Some (g, k) -> k ≠ "target_continuous") ->
  (forall h, h ≠ g -> nm2 !! h = nm1 !! h) ->
  target_scaled s (pre ++ [(g, kg)]) nm2 b b1.
Proof.
  intros H Hg Hnm i f k Hi. destruct (H i f k Hi) as [H1 H2]. split.
  - intros Hk [Hin | ->]%keys_snoc.
    + destruct (H1 Hk Hin) as (st & Hn & H0 & Hm). exists st.
      split; [|done]. rewrite Hnm; [done|]. intros ->. now apply (Hg i k).
    + now destruct (Hg i k).
  - intros Hor. apply H2. destruct Hor as [?|Hnot]; [now left|right].
    intros Hin. apply Hnot, keys_snoc. now left.
Qed.

Lemma input_scaled_step E s pre g kg nm1 a a1 c :
  NoDup (keys (input_features s)) ->
  input_scaled E s pre nm1 a a1 ->
  input_features s !! c = Some (g, "continuous") ->
  g ∉ keys pre -> nm1 !! g = norm s !! g ->
  rectangular a -> rectangular a1 -> c < ncols a -> c < ncols a1 ->
  let st := stats_for E nm1 g (column a1 c) in
  input_scaled E s (pre ++ [(g, kg)]) (<[g := st]> nm1) a
    (map_col (z_score st) c a1).
Proof.
  intros Hnd H Hc Hpre Hnm Hr Hr1 Hlt Hlt1 st i f k Hi.
  destruct (H i f k Hi) as [H1 H2].
  destruct (decide (i = c)) as [->|Hic].
  - rewrite Hc in Hi. injection Hi as <- <-.
    assert (Hid : col_mapped id c a a1) by (apply H2; now right).
    assert (Hst : st = stats_for E (norm s) g (column a c)).
    { subst st. unfold stats_for. rewrite Hnm.
      now rewrite (column_ext a a1 c). }
    split.
    + intros _ _. cbv zeta. rewrite <- Hst. split.
      * apply lookup_insert_eq.
      * now apply col_mapped_map_col.
    + intros [?|Hnot]; [done|]. destruct Hnot. apply keys_snoc. now right.
  - assert (Hfg : f ≠ g).
    { intros ->. apply Hic. eapply NoDup_lookup; [exact Hnd| |].
      - eapply keys_lookup, Hi.
      - eapply keys_lookup, Hc. }
    split.
    + intros Hk [Hin | ->]%keys_snoc; [|done].
      destruct (H1 Hk Hin) as [Hn Hm]. split.
      * now rewrite lookup_insert_ne.
      * apply col_mapped_map_col_ne; [congruence|done].
    + intros Hor. apply col_mapped_map_col_ne; [congruence|].
      apply H2. destruct Hor as [?|Hnot]; [now left|right].
      intros Hin. apply Hnot, keys_snoc. now left.
Qed.

Lemma target_scaled_step s pre g kg nm1 nm2 b b1 c st :
  NoDup (keys (target_features s)) ->
  target_scaled s pre nm1 b b1 ->
  target_features s !! c = Some (g, "target_continuous") ->
  g ∉ keys pre ->
  nm2 !! g = Some st -> (forall st0, norm s !! g = Some st0 -> st = st0) ->
  (forall h, h ≠ g -> nm2 !! h = nm1 !! h) ->
  target_scaled s (pre ++ [(g, kg)]) nm2 b (map_col (z_score st) c b1).
Proof.
  intros Hnd H Hc Hpre Hst Hst0 Hnm i f k Hi.
  destruct (H i f k Hi) as [H1 H2].
  destruct (decide (i = c)) as [->|Hic].
  - rewrite Hc in Hi. injection Hi as <- <-.
    assert (Hid : col_mapped id c b b1) by (apply H2; now right).
    split.
    + intros _ _. exists st. split; [done|]. split; [done|].
      now apply col_mapped_map_col.
    + intros [?|Hnot]; [done|]. destruct Hnot. apply keys_snoc. now right.
  - assert (Hfg : f ≠ g).
    { intros ->. apply Hic. eapply NoDup_lookup; [exact Hnd| |].
      - eapply keys_lookup, Hi.
      - eapply keys_lookup, Hc. }
    split.
    + intros Hk [Hin | ->]%keys_snoc; [|done].
      destruct (H1 Hk Hin) as (st1 & Hn & H0 & Hm). exists st1.
      split; [now rewrite Hnm|]. split; [done|].
      apply col_mapped_map_col_ne; [congruence|done].
    + intros Hor. apply col_mapped_map_col_ne; [congruence|].
      apply H2. destruct Hor as [?|Hnot]; [now left|right].
      intros Hin. apply Hnot, keys_snoc. now left.
Qed.

Lemma input_field s i f k :
  classified s -> input_features s !! i = Some (f, k) ->
  (f, k) ∈ features s ∧ contains "target" k = false.
Proof.
  intros [Hi _] Hl. apply list_elem_of_lookup_2 in Hl. rewrite Hi in Hl.
  apply list_elem_of_filter in Hl as [[_ Hk] Hin]. auto.
Qed.

Lemma target_field s i f k :
  classified s -> target_features s !! i = Some (f, k) ->
  (f, k) ∈ features s ∧ contains "target" k = true.
Proof.
  intros [_ Ht] Hl. apply list_elem_of_lookup_2 in Hl. rewrite Ht in Hl.
  apply list_elem_of_filter in Hl as [[_ Hk] Hin]. auto.
Qed.

Lemma index_field (d : dict string) f c :
  index f (keys d) = Some c -> exists k, d !! c = Some (f, k).
Proof.
  intros Hc%index_Some_lookup. unfold keys in Hc.
  rewrite list_lookup_fmap in Hc.
  apply fmap_Some in Hc as ([f' k] & Hl & ->). eauto.
Qed.

(** One iteration of the loop of [_normalize] from a state of the loop:
    it stops at an unscalable field with IndexError and leaves the object
    alone, and else it returns in the next state of the loop. *)
Lemma normalize_step E n s pre g kg post s1 :
  prepared n s -> features s = pre ++ (g, kg) :: post ->
  loop_inv E n s pre s1 ->
  (normalize_feature E g s1 = (Raise IndexError, s1) ∧
   kg = "target_continuous" ∧ unscalable s g) ∨
  (exists s2, normalize_feature E g s1 = (Ok tt, s2) ∧
     loop_inv E n s (pre ++ [(g, kg)]) s2).
Proof.
  intros Hp Hfs (Hp1 & Hn1 & Hun).
  pose proof Hp as (Hcl & Hnd & (a0 & Ha0 & Hna0 & Hca0 & Hra0) &
                    (b0 & Hb0 & Hnb0 & Hcb0 & Hrb0)).
  destruct Hn1 as ((Hf1 & Hi1 & Ht1) & Hcsv & Hcd & Hnb & Hil & Htl & Hnorm &
                   a & b & a1 & b1 & Ha & Hb & Ha1 & Hb1 & Hin & Htg).
  rewrite Ha0 in Ha. injection Ha as <-.
  rewrite Hb0 in Hb. injection Hb as <-.
  pose proof Hp1 as (_ & _ & (a1' & Ha1' & Hna1 & Hca1 & Hra1) &
                     (b1' & Hb1' & Hnb1 & Hcb1 & Hrb1)).
  rewrite Ha1 in Ha1'. injection Ha1' as <-.
  rewrite Hb1 in Hb1'. injection Hb1' as <-.
  assert (Hg : (g, kg) ∈ features s).
  { rewrite Hfs. apply elem_of_app. right. left. }
  assert (Hgpre : g ∉ keys pre).
  { pose proof Hnd as Hnd'. rewrite Hfs in Hnd'. unfold keys in Hnd'.
    rewrite fmap_app in Hnd'. apply NoDup_app in Hnd' as (_ & Hdisj & _).
    intros Hin'. apply (Hdisj g Hin'). rewrite fmap_cons. left. }
  assert (Hng : norm s1 !! g = norm s !! g) by auto.
  assert (Hndi : NoDup (keys (input_features s))).
  { destruct Hcl as [-> _]. now apply keys_filter_NoDup. }
  assert (Hndt : NoDup (keys (target_features s))).
  { destruct Hcl as [_ ->]. now apply keys_filter_NoDup. }
  assert (Hg1 : (g, kg) ∈ features s1) by now rewrite Hf1.
  assert (Hkind : forall k, (g, k) ∈ features s -> k = kg).
  { intros k Hk. exact (dict_functional (features s) g k kg Hnd Hk Hg). }
  assert (Hp2 : prepared n (normalize_feature E g s1).2).
  { pose proof (normalize_feature_step E n s1 g kg Hp1 Hg1) as Hstep.
    exact (proj1 Hstep). }
  assert (Hun' : (kg = "target_continuous" -> ¬ unscalable s g) ->
            forall h, h ∈ keys (pre ++ [(g, kg)]) -> ¬ unscalable s h).
  { intros Hgood h [Hh | ->]%keys_snoc; [auto|].
    intros Hbad. apply Hgood; [|done]. destruct Hbad as (Hk & _).
    symmetry. now apply Hkind. }
  destruct (decide (kg = "continuous")) as [->|Hk1];
    [|destruct (decide (kg = "target_continuous")) as [->|Hk2]].
  - (* an input column *)
    destruct (normalize_input_run E n s1 g Hp1 Hg1)
      as (c & a1' & Hc & Ha1' & Hlt & Hrun).
    rewrite Ha1 in Ha1'. injection Ha1' as <-. cbv zeta in Hrun.
    rewrite Hrun in Hp2. right. eexists. split; [exact Hrun|].
    rewrite Hi1 in Hc. destruct (index_field _ _ _ Hc) as [k Hl].
    destruct (input_field s c g k Hcl Hl) as [Hk _].
    apply Hkind in Hk. subst k.
    split; [exact Hp2|]. split; [|apply Hun'; discriminate].
    unfold normalized, same_schema. simpl.
    repeat (split; [done|]). split.
    { intros h Hh. rewrite lookup_insert_ne.
      - apply Hnorm. intros Hpre. apply Hh, keys_snoc. now left.
      - intros ->. apply Hh, keys_snoc. now right. }
    exists a0, b0, (map_col (z_score (stats_for E (norm s1) g (column a1 c))) c a1), b1.
    repeat (split; [done|]). split.
    + assert (Hlt0 : c < ncols a0).
      { rewrite Hca0, <- Hi1, <- Hca1. exact Hlt. }
      now apply input_scaled_step.
    + apply (target_scaled_other s pre g "continuous" (norm s1)); [done| |].
      * intros i k Hi. destruct (target_field s i g k Hcl Hi) as [Hk _].
        apply Hkind in Hk. now subst k.
      * intros h Hh. now apply lookup_insert_ne.
  - (* a target column *)
    destruct (normalize_target_run E n s1 g Hp1 Hg1)
      as (c & a1' & b1' & Hc & Ha1' & Hb1' & Hlt & Hrun).
    rewrite Ha1 in Ha1'. injection Ha1' as <-.
    rewrite Hb1 in Hb1'. injection Hb1' as <-.
    rewrite Ht1 in Hc. destruct (index_field _ _ _ Hc) as [k Hl].
    destruct (target_field s c g k Hcl Hl) as [Hk _].
    apply Hkind in Hk. subst k.
    assert (Hothers : forall i k, input_features s !! i = Some (g, k) ->
              k ≠ "continuous").
    { intros i k Hi. destruct (input_field s i g k Hcl Hi) as [Hk _].
      apply Hkind in Hk. now subst k. }
    destruct (norm s1 !! g) as [st|] eqn:Hst.
    + rewrite Hrun in Hp2. right. eexists. split; [exact Hrun|].
      split; [exact Hp2|]. split.
      2:{ apply Hun'. intros _ (_ & Hnone & _). congruence. }
      unfold normalized, same_schema. simpl.
      repeat (split; [done|]). split.
      { intros h Hh. apply Hnorm. intros Hpre. apply Hh, keys_snoc. now left. }
      exists a0, b0, a1, (map_col (z_score st) c b1).
      repeat (split; [done|]). split.
      * now apply (input_scaled_other E s pre g "target_continuous" (norm s1)).
      * apply (target_scaled_step s pre g "target_continuous" (norm s1));
          auto. intros st0 Hst0. congruence.
    + destruct (decide (c < ncols a1)) as [Hca|Hca].
      * cbv zeta in Hrun. rewrite Hrun in Hp2. right.
        eexists. split; [exact Hrun|].
        split; [exact Hp2|]. split.
        2:{ apply Hun'. intros _ (_ & _ & c' & Hc' & Hle).
            rewrite Hc in Hc'. injection Hc' as <-.
            rewrite Hi1 in Hca1. lia. }
        unfold normalized, same_schema. simpl.
        repeat (split; [done|]). split.
        { intros h Hh. rewrite lookup_insert_ne.
          - apply Hnorm. intros Hpre. apply Hh, keys_snoc. now left.
          - intros ->. apply Hh, keys_snoc. now right. }
        exists a0, b0, a1,
          (map_col (z_score {| mean := np_nanmean E (column a1 c);
                               std := np_nanstd E (column a1 c) |}) c b1).
        repeat (split; [done|]). split.
        -- apply (input_scaled_other E s pre g "target_continuous" (norm s1));
             [done|done|]. intros h Hh. now apply lookup_insert_ne.
        -- apply (target_scaled_step s pre g "target_continuous" (norm s1));
             auto.
           ++ apply lookup_insert_eq.
           ++ intros st0 Hst0. congruence.
           ++ intros h Hh. now apply lookup_insert_ne.
      * left. split; [exact Hrun|]. split; [done|].
        split; [done|]. split; [congruence|].
        exists c. split; [done|]. rewrite Hi1 in Hca1. lia.
  - (* a column of classes, or of a kind the loop does not know *)
    rewrite (normalize_other_run E n s1 g kg Hp1 Hg1 Hk1 Hk2) in *.
    right. exists s1. split; [done|]. split; [done|].
    split; [|apply Hun'; done].
    unfold normalized, same_schema.
    repeat (split; [done|]). split.
    { intros h Hh. apply Hnorm. intros Hpre. apply Hh, keys_snoc. now left. }
    exists a0, b0, a1, b1. repeat (split; [done|]). split.
    + apply (input_scaled_other E s pre g kg (norm s1)); [done| |done].
      intros i k Hi. destruct (input_field s i g k Hcl Hi) as [Hk _].
      apply Hkind in Hk. now subst k.
    + apply (target_scaled_other s pre g kg (norm s1)); [done| |done].
      intros i k Hi. destruct (target_field s i g k Hcl Hi) as [Hk _].
      apply Hkind in Hk. now subst k.
Qed.

Lemma col_mapped_id_refl c a : col_mapped id c a a.
Proof. intros r. now destruct (cell a r c). Qed.

Lemma loop_inv_start E n s : prepared n s -> loop_inv E n s [] s.
Proof.
  intros Hp. pose proof Hp as (_ & _ & (a & Ha & _) & (b & Hb & _)).
  split; [done|]. split.
  - unfold normalized, same_schema. repeat (split; [done|]).
    exists a, b, a, b. repeat (split; [done|]). split.
    + intros i f k Hi. split.
      * intros _ Hin. now apply elem_of_nil in Hin.
      * intros _. apply col_mapped_id_refl.
    + intros i f k Hi. split.
      * intros _ Hin. now apply elem_of_nil in Hin.
      * intros _. apply col_mapped_id_refl.
  - intros g Hg. now apply elem_of_nil in Hg.
Qed.

(** The loop of [_normalize] from any of its states: it returns when it has
    worked on every field, or stops with IndexError before the first
    unscalable field. *)
Lemma normalize_loop E n s :
  prepared n s ->
  forall post pre s1, features s = pre ++ post -> loop_inv E n s pre s1 ->
  let r := for_ post (fun '(feature, _) => normalize_feature E feature) s1 in
  (r.1 = Ok tt ∧ loop_inv E n s (features s) r.2) ∨
  (r.1 = Raise IndexError ∧
   exists pre' f post', features s = pre' ++ (f, "target_continuous") :: post' ∧
     unscalable s f ∧ loop_inv E n s pre' r.2).
Proof.
  intros Hp. induction post as [|[g kg] post IH]; intros pre s1 Hfs Hinv; simpl.
  - left. split; [done|]. rewrite app_nil_r in Hfs. now rewrite Hfs.
  - unfold mbind, M_bind.
    destruct (normalize_step E n s pre g kg post s1 Hp Hfs Hinv)
      as [(Hrun & -> & Hbad) | (s2 & Hrun & Hinv2)]; rewrite Hrun; simpl.
    + right. split; [done|]. exists pre, g, post. auto.
    + apply (IH (pre ++ [(g, kg)])); [|done]. now rewrite <- app_assoc.
Qed.

Lemma normalize_run E n s p :
  prepared n s -> nan_behaviour s = Some p -> p ≠ "delete_row" ->
  ((_normalize E s).1 = Ok tt ∧ loop_inv E n s (features s) (_normalize E s).2) ∨
  ((_normalize E s).1 = Raise IndexError ∧
   exists pre f post, features s = pre ++ (f, "target_continuous") :: post ∧
     unscalable s f ∧ loop_inv E n s pre (_normalize E s).2).
Proof.
  intros Hp Hnb Hne. rewrite (normalize_unfold E s p Hnb Hne).
  apply (normalize_loop E n s Hp (features s) [] s); [done|].
  now apply loop_inv_start.
Qed.

(** X11: what [_normalize] has done when it returns.  Every continuous
    input column is scaled with the entry [norm] had for its field, or
    else with the statistics of that column as it was before the call, and
    [norm] holds these statistics afterwards.  Every continuous target
    column is scaled with the entry [norm] holds for its field afterwards.
    The columns of all other fields, the entries of [norm] for names that
    are no field, the schema and the class dictionary are as before. *)
Theorem normalize_scales_columns (E : Env) (n : nat) (s s' : Self) (p : string) :
  prepared n s -> nan_behaviour s = Some p -> p ≠ "delete_row" ->
  _normalize E s = (Ok tt, s') ->
  prepared n s' ∧ same_schema s s' ∧ classDict s' = classDict s ∧
  (forall h, h ∉ keys (features s) -> norm s' !! h = norm s !! h) ∧
  exists a b a' b',
    input_set s = Some a ∧ target_set s = Some b ∧
    input_set s' = Some a' ∧ target_set s' = Some b' ∧
    (forall i f k, input_features s !! i = Some (f, k) ->
       if decide (k = "continuous")
       then let st := stats_for E (norm s) f (column a i) in
            norm s' !! f = Some st ∧ col_mapped (z_score st) i a a'
       else col_mapped id i a a') ∧
    (forall i f k, target_features s !! i = Some (f, k) ->
       if decide (k = "target_continuous")
       then exists st, norm s' !! f = Some st ∧ col_mapped (z_score st) i b b'
       else col_mapped id i b b').
Proof.
  intros Hp Hnb Hne Hrun.
  destruct (normalize_run E n s p Hp Hnb Hne) as [[_ Hinv] | [Herr _]].
  2:{ rewrite Hrun in Herr. discriminate. }
  rewrite Hrun in Hinv. simpl in Hinv.
  destruct Hinv as (Hp' & (Hsch & _ & Hcd & _ & _ & _ & Hnorm &
                           a & b & a' & b' & Ha & Hb & Ha' & Hb' & Hin & Htg) & _).
  pose proof Hp as (Hcl & _).
  repeat (split; [done|]).
  exists a, b, a', b'. repeat (split; [done|]). split.
  - intros i f k Hi. destruct (Hin i f k Hi) as [H1 H2].
    destruct (input_field s i f k Hcl Hi) as [Hf _].
    case_decide as Hk; [|apply H2; now left].
    apply H1; [done|]. apply list_elem_of_fmap. now exists (f, k).
  - intros i f k Hi. destruct (Htg i f k Hi) as [H1 H2].
    destruct (target_field s i f k Hcl Hi) as [Hf _].
    case_decide as Hk; [|apply H2; now left].
    destruct H1 as (st & Hst & _ & Hm); [done| |eauto].
    apply list_elem_of_fmap. now exists (f, k).
Qed.

Lemma ready_normalized :
  _normalize E_train ready = (Ok tt, (_normalize E_train ready).2).
Proof. vm_compute. reflexivity. Qed.

Lemma normalize_scales_columns_witness :
  exists a', input_set (_normalize E_train ready).2 = Some a' ∧
    cell a' 0 0 = Some (z_score {| mean := 1.5; std := 0.5 |} 1) ∧
    cell a' 0 1 = Some 0%float.
Proof.
  assert (Hne : "ignore" ≠ "delete_row") by discriminate.
  destruct (normalize_scales_columns E_train 3 ready _ "ignore" ready_prepared
              eq_refl Hne ready_normalized)
    as (_ & _ & _ & _ & a & b & a' & b' & Ha & _ & Ha' & _ & Hin & _).
  injection Ha as <-. exists a'. split; [exact Ha'|]. split.
  - destruct (Hin 0 "a" "continuous" eq_refl) as [_ Hm]. exact (Hm 0).
  - exact (Hin 1 "c" "class" eq_refl 0).
Defined.

(** X12: when [_normalize] raises in its loop.  With [nan_behaviour] set
    and not delete_row, [_normalize] returns unless some continuous target
    field has no entry in [norm] and a column number that the input matrix
    does not have; then it raises IndexError at the first such field, with
    the fields before it normalized and the rest untouched. *)
Theorem normalize_raises_at_unscalable (E : Env) (n : nat) (s : Self)
    (p : string) :
  prepared n s -> nan_behaviour s = Some p -> p ≠ "delete_row" ->
  ((_normalize E s).1 = Ok tt ∧ forall f, ¬ unscalable s f) ∨
  ((_normalize E s).1 = Raise IndexError ∧
   exists pre f post, features s = pre ++ (f, "target_continuous") :: post ∧
     unscalable s f ∧ (forall g, g ∈ keys pre -> ¬ unscalable s g) ∧
     normalized E s pre (_normalize E s).2).
Proof.
  intros Hp Hnb Hne.
  destruct (normalize_run E n s p Hp Hnb Hne)
    as [[Hok (_ & _ & Hun)] | [Herr (pre & f & post & Hfs & Hbad & _ & Hn & Hun)]].
  - left. split; [done|]. intros f Hbad. apply (Hun f); [|done].
    destruct Hbad as (Hin & _). apply list_elem_of_fmap.
    now exists (f, "target_continuous").
  - right. split; [done|]. exists pre, f, post. auto.
Qed.

Lemma two_targets_prepared : prepared 3 two_targets.
Proof.
  split; [|split].
  - split; reflexivity.
  - apply (bool_decide_unpack _). vm_compute. exact I.
  - split; eexists; (split; [reflexivity|]); repeat split; repeat constructor.
Defined.

Lemma normalize_raises_at_unscalable_witness :
  (_normalize E_train two_targets).1 = Raise IndexError ∧
  exists f, unscalable two_targets f.
Proof.
  assert (Hne : "ignore" ≠ "delete_row") by discriminate.
  destruct (normalize_raises_at_unscalable E_train 3 two_targets "ignore"
              two_targets_prepared eq_refl Hne)
    as [[Hok _] | [Herr (pre & f & post & _ & Hbad & _)]].
  - vm_compute in Hok. discriminate.
  - split; [exact Herr|]. now exists f.
Defined.

Lemma cell_lt a r c x : rectangular a -> cell a r c = Some x -> c < ncols a.
Proof.
  unfold cell. intros Hrect Hx.
  destruct (cells a !! r) as [row|] eqn:Hrow; simpl in Hx; [|done].
  rewrite <- (proj1 (Forall_lookup _ _) Hrect r row Hrow).
  now apply lookup_lt_Some in Hx.
Qed.

(** X13: with the policy ignore a missing value stays missing.  Whether
    [_normalize] returns or raises in its loop, a cell of either matrix
    that held NaN before holds NaN afterwards. *)
Theorem normalize_keeps_missing (E : Env) (n : nat) (s : Self) (p : string)
    (a b : ndarray) :
  prepared n s -> nan_behaviour s = Some p -> p ≠ "delete_row" ->
  input_set s = Some a -> target_set s = Some b ->
  exists a' b',
    input_set (_normalize E s).2 = Some a' ∧
    target_set (_normalize E s).2 = Some b' ∧
    (forall r c, cell a r c = Some nan -> cell a' r c = Some nan) ∧
    (forall r c, cell b r c = Some nan -> cell b' r c = Some nan).
Proof.
  intros Hp Hnb Hne Ha Hb.
  assert (Hinv : exists seen, loop_inv E n s seen (_normalize E s).2).
  { destruct (normalize_run E n s p Hp Hnb Hne)
      as [[_ Hinv] | [_ (pre & f & post & _ & _ & Hinv)]]; eauto. }
  destruct Hinv as (seen & _ & (_ & _ & _ & _ & _ & _ & _ &
    a0 & b0 & a' & b' & Ha0 & Hb0 & Ha' & Hb' & Hin & Htg) & _).
  rewrite Ha in Ha0. injection Ha0 as <-.
  rewrite Hb in Hb0. injection Hb0 as <-.
  pose proof Hp as (_ & _ & (a1 & Ha1 & _ & Hca & Hra) & (b1 & Hb1 & _ & Hcb & Hrb)).
  rewrite Ha in Ha1. injection Ha1 as <-.
  rewrite Hb in Hb1. injection Hb1 as <-.
  exists a', b'. repeat (split; [done|]). split.
  - intros r c Hx. pose proof (cell_lt a r c nan Hra Hx) as Hc.
    rewrite Hca in Hc.
    destruct (lookup_lt_is_Some_2 _ _ Hc) as [[f k] Hf].
    destruct (Hin c f k Hf) as [H1 H2].
    destruct (decide (k = "continuous" ∧ f ∈ keys seen)) as [[Hk Hs]|Hno].
    + destruct (H1 Hk Hs) as [_ Hm]. rewrite Hm, Hx. simpl.
      now rewrite z_score_nan.
    + rewrite H2, Hx; [done|].
      destruct (decide (k = "continuous")); [right|left]; tauto.
  - intros r c Hx. pose proof (cell_lt b r c nan Hrb Hx) as Hc.
    rewrite Hcb in Hc.
    destruct (lookup_lt_is_Some_2 _ _ Hc) as [[f k] Hf].
    destruct (Htg c f k Hf) as [H1 H2].
    destruct (decide (k = "target_continuous" ∧ f ∈ keys seen)) as [[Hk Hs]|Hno].
    + destruct (H1 Hk Hs) as (st & _ & _ & Hm). rewrite Hm, Hx. simpl.
      now rewrite z_score_nan.
    + rewrite H2, Hx; [done|].
      destruct (decide (k = "target_continuous")); [right|left]; tauto.
Qed.

Lemma normalize_keeps_missing_witness :
  exists a', input_set (_normalize E_train ready).2 = Some a' ∧
    cell a' 2 0 = Some nan.
Proof.
  assert (Hne : "ignore" ≠ "delete_row") by discriminate.
  destruct (normalize_keeps_missing E_train 3 ready "ignore" _ _ ready_prepared
              eq_refl Hne eq_refl eq_refl) as (a' & b' & Ha' & _ & Hin & _).
  exists a'. split; [exact Ha'|]. apply Hin. reflexivity.
Defined.


(** * Default arguments and [main] *)

(** X14: the default dictionaries are shared between constructions.  Of
    two constructions that pass neither [classDict] nor [norm], the second
    starts from the class dictionary the first has left: every list of the
    first object is a prefix of the list of the second, so every value
    keeps its code, also for another file and other fields.  The default
    of [norm] stays as it was, since no construction reaches the
    statistics. *)
Theorem default_classDict_shared (E : Env) (name1 name2 : string)
    (fs1 fs2 : dict string) (d : Defaults) :
  let '(r1, d1) := construct_default E name1 fs1 d in
  let '(r2, d2) := construct_default E name2 fs2 d1 in
  dict_le (classDict r1.2) (classDict r2.2) ∧
  (forall f v i, code_of (classDict r1.2) f v = Some i ->
                 code_of (classDict r2.2) f v = Some i) ∧
  default_classDict d2 = classDict r2.2 ∧
  default_norm d2 = default_norm d.
Proof.
  unfold construct_default. cbn [default_classDict default_norm].
  set (r1 := __init__ E name1 fs1 _ _ _).
  set (r2 := __init__ E name2 fs2 _ _ _).
  assert (Hle : dict_le (classDict r1.2) (classDict r2.2)).
  { subst r2. rewrite (init_run E name2). cbn [snd].
    pose proof (fill_matrices_frame E
      (new_object name2 fs2 (classDict r1.2) (norm r1.2))) as Hfr.
    unfold wp in Hfr. now destruct Hfr as (_&_&_&_&_&_&_&_&?). }
  split; [done|]. split; [intros f v i; now apply code_of_le|].
  split; [done|].
  assert (Hnorm : forall name fs cd nm,
            norm (__init__ E name fs cd nm "ignore").2 = nm).
  { intros name fs cd nm. rewrite init_run. cbn [snd].
    pose proof (fill_matrices_frame E (new_object name fs cd nm)) as Hfr.
    unfold wp in Hfr. now destruct Hfr as (_&_&_&_&?&_). }
  subst r2. rewrite Hnorm. subst r1. now rewrite Hnorm.
Qed.

(** X15: [main] never gets past its first dataset.  It prints the caption
    of the training set and nothing more, and ends in the exception of the
    constructor: that of [open] or of the csv reader when train.csv cannot
    be opened or read; the exception of [float] for a cell of Age, SibSp,
    Parch or Fare that it rejects, a [TypeError] for the [None] of a short
    record and a [ValueError] for a string neither empty nor a number; and
    otherwise the AttributeError of [_normalize].  None of the six
    attributes of the training set is printed, nor the caption of the test
    set. *)
Theorem main_stops_at_training_set (E : Env) (d : Defaults) :
  exists e, main E d = ([Print (caption "Training set") None], Raise e) ∧
    match open_csv E "train.csv" with
    | Unreadable e' => e = e'
    | Records rows =>
        e = AttributeError "nan_behaviour" ∨
        exists row f v,
          row ∈ rows ∧ f ∈ ["Age"; "SibSp"; "Parch"; "Fare"] ∧
          row !! f = Some v ∧
          match v with
          | Str text => text ≠ "" ∧ builtin_float E text = None ∧
                        e = ValueError (CouldNotConvert text)
          | PyNone => e = TypeError
          end
    end.
Proof.
  unfold main, construct_default.
  pose proof (init_outcome E "train.csv" train_features
                (default_classDict d) (default_norm d) "ignore") as Hout.
  unfold fill_outcome in Hout.
  destruct (open_csv E "train.csv") as [e'|rows].
  - exists e'. now rewrite Hout.
  - destruct (head (bad_cells E _ rows)) as [e'|] eqn:Hbad.
    + exists e'. rewrite Hout. split; [done|]. right.
      apply head_Some_elem_of, bad_cells_elem in Hbad
        as (row & f & k & v & Hrow & Hin & Hk & Hf & Hst & ->).
      exists row, f, v. split; [done|]. split.
      { vm_compute in Hin.
        repeat (apply elem_of_cons in Hin as [Hin|Hin];
          [injection Hin as -> ->; destruct Hk as [Hk|Hk];
             try discriminate Hk;
             apply (bool_decide_unpack _); vm_compute; exact I|]).
        now apply elem_of_nil in Hin. }
      split; [done|]. destruct v as [text|]; [|done].
      unfold stored_value in Hst. simpl. case_decide; [done|]. subst. auto.
    + exists (AttributeError "nan_behaviour"). rewrite Hout. auto.
Qed.
